(** * SimulationBuilder: stats, modifiers and the command parser

    A shallow embedding of the SimulationBuilder sources
    ([src/modules/Utils.js], the StatModifier, StateManager and Parser
    modules, and the bundled [src/index.js]) together with the properties
    the specification states about them.

    JavaScript numbers are IEEE 754 binary64 values; they are modelled by
    Rocq's primitive floats, so that [SafeMath] rounds exactly the way the
    program does.  JavaScript strings are modelled by [string]; a character
    stands for a code unit below 256. *)

From Stdlib Require Import ZArith Floats List String Ascii Bool Lia.
Import ListNotations.

Set Warnings "-inexact-float".

Local Open Scope Z_scope.

(* ===================================================================== *)
(** * The JavaScript built-ins the sources rely on *)
(* ===================================================================== *)

Module JS.

(** The Number type. *)
Definition num : Type := float.

(** [Number.isFinite] on a Number. *)
Definition isFinite (x : num) : bool := PrimFloat.is_finite x.

(** [isNaN] on a Number. *)
Definition isNaN (x : num) : bool := PrimFloat.is_nan x.

(** The relational operators and [===] on Numbers. *)
Definition lt (x y : num) : bool := PrimFloat.ltb x y.
Definition gt (x y : num) : bool := PrimFloat.ltb y x.
Definition le (x y : num) : bool := PrimFloat.leb x y.
Definition ge (x y : num) : bool := PrimFloat.leb y x.
Definition seq (x y : num) : bool := PrimFloat.eqb x y.

(** The Number with the mathematical value of an integer (rounded to
    nearest, ties to even, when the integer has more than 53 bits). *)
Definition ofZ (z : Z) : num := SF2Prim (binary_normalize prec emax z 0 false).

(** The Number nearest to [n * 10 ^ e10] for a natural [n]: the value of
    a decimal literal with digits [n] and decimal exponent [e10]. *)
Definition ofDecimal (neg : bool) (n : Z) (e10 : Z) : num :=
  match n with
  | Zpos p =>
      if 0 <=? e10
      then SF2Prim (binary_normalize prec emax
                      (cond_Zopp neg (Zpos p * 10 ^ e10)) 0 false)
      else match 10 ^ (- e10) with
           | Zpos q => SF2Prim (SFdiv prec emax (S754_finite neg p 0)
                                                 (S754_finite false q 0))
           | _ => PrimFloat.nan
           end
  | _ => if neg then PrimFloat.neg_zero else PrimFloat.zero
  end.

(** [Math.floor]. *)
Definition Math_floor (x : num) : num :=
  match Prim2SF x with
  | S754_finite s m e =>
      if 0 <=? e then x
      else
        let n := Z.shiftr (cond_Zopp s (Zpos m)) (- e) in
        if n =? 0 then PrimFloat.zero else ofZ n
  | _ => x
  end.

(** [Math.round]: the nearest integer, a tie going towards +infinity;
    a result of zero keeps the sign of the argument. *)
Definition Math_round (x : num) : num :=
  match Prim2SF x with
  | S754_finite s m e =>
      if 0 <=? e then x
      else
        let n := Z.shiftr (2 * cond_Zopp s (Zpos m) + 2 ^ (- e)) (1 - e) in
        if n =? 0 then (if s then PrimFloat.neg_zero else PrimFloat.zero)
        else ofZ n
  | _ => x
  end.

(** [Math.max] and [Math.min] of two Numbers: NaN is contagious and
    [+0] counts as larger than [-0]. *)
Definition Math_max (a b : num) : num :=
  if isNaN a || isNaN b then PrimFloat.nan
  else if PrimFloat.ltb a b then b
  else if PrimFloat.ltb b a then a
  else if PrimFloat.get_sign a then b else a.

Definition Math_min (a b : num) : num :=
  if isNaN a || isNaN b then PrimFloat.nan
  else if PrimFloat.ltb a b then a
  else if PrimFloat.ltb b a then b
  else if PrimFloat.get_sign a then a else b.


(** ** Strings *)

Definition chr (n : nat) : ascii := ascii_of_nat n.
Definition code (c : ascii) : nat := nat_of_ascii c.

Definition in_range (lo hi : nat) (c : ascii) : bool :=
  (Nat.leb lo (code c) && Nat.leb (code c) hi)%bool.

Definition is_digit (c : ascii) : bool := in_range 48 57 c.
Definition is_lower (c : ascii) : bool := in_range 97 122 c.
Definition is_upper (c : ascii) : bool := in_range 65 90 c.

(** White space and line terminators below 256: TAB, LF, VT, FF, CR,
    SPACE and NBSP.  This is what the regular expression class [\s]
    matches and what [String.prototype.trim] strips. *)
Definition is_space (c : ascii) : bool :=
  (in_range 9 13 c || Nat.eqb (code c) 32 || Nat.eqb (code c) 160)%bool.

(** [toLowerCase] of one code unit (A-Z and the Latin-1 capitals). *)
Definition lower_char (c : ascii) : ascii :=
  if (is_upper c
      || (in_range 192 222 c && negb (Nat.eqb (code c) 215)))%bool
  then chr (code c + 32) else c.

Definition chars (s : string) : list ascii := list_ascii_of_string s.
Definition str (l : list ascii) : string := string_of_list_ascii l.

Fixpoint drop_spaces (l : list ascii) : list ascii :=
  match l with
  | c :: l' => if is_space c then drop_spaces l' else l
  | [] => []
  end.

Definition trim_chars (l : list ascii) : list ascii :=
  rev (drop_spaces (rev (drop_spaces l))).

Definition trim (s : string) : string := str (trim_chars (chars s)).
Definition toLowerCase (s : string) : string := str (map lower_char (chars s)).

Fixpoint starts_with (p l : list ascii) : option (list ascii) :=
  match p, l with
  | [], _ => Some l
  | a :: p', b :: l' => if Ascii.eqb a b then starts_with p' l' else None
  | _ :: _, [] => None
  end.

Definition startsWith (s p : string) : bool :=
  match starts_with (chars p) (chars s) with Some _ => true | None => false end.

(** [s.substring(i)] and [s.substring(i, j)] for [0 <= i <= j]. *)
Definition substringFrom (s : string) (i : nat) : string := str (skipn i (chars s)).
Definition substring (s : string) (i j : nat) : string :=
  str (firstn (j - i) (skipn i (chars s))).

(** [s.indexOf(p)]: the first position where [p] occurs. *)
Fixpoint index_of (p l : list ascii) (i : nat) : option nat :=
  match starts_with p l with
  | Some _ => Some i
  | None => match l with
            | [] => None
            | _ :: l' => index_of p l' (S i)
            end
  end.

Definition indexOf (s p : string) : option nat := index_of (chars p) (chars s) 0.

(** ** Numeric literals *)

Fixpoint span (p : ascii -> bool) (l : list ascii) : list ascii * list ascii :=
  match l with
  | c :: l' => if p c then let (a, b) := span p l' in (c :: a, b) else ([], l)
  | [] => ([], [])
  end.

Definition digit_val (c : ascii) : Z :=
  if is_digit c then Z.of_nat (code c - 48)
  else if in_range 97 102 c then Z.of_nat (code c - 87)
  else if in_range 65 70 c then Z.of_nat (code c - 55)
  else 0.

Definition digits_val (base : Z) (l : list ascii) : Z :=
  fold_left (fun acc c => acc * base + digit_val c) l 0.

Definition is_exp_mark (c : ascii) : bool :=
  (Nat.eqb (code c) 101 || Nat.eqb (code c) 69)%bool.

(** An optional sign: whether it is a minus, and the rest. *)
Definition read_sign (l : list ascii) : bool * list ascii :=
  match l with
  | c :: l' => if Nat.eqb (code c) 45 then (true, l')
               else if Nat.eqb (code c) 43 then (false, l')
               else (false, l)
  | [] => (false, [])
  end.

(** The exponent part [e[+-]digits] when it is there: its value and the
    rest; otherwise exponent 0 and nothing consumed. *)
Definition read_exponent (l : list ascii) : Z * list ascii :=
  match l with
  | c :: l' =>
      if is_exp_mark c then
        let (neg, l1) := read_sign l' in
        let (ds, l2) := span is_digit l1 in
        match ds with
        | [] => (0, l)
        | _ => (cond_Zopp neg (digits_val 10 ds), l2)
        end
      else (0, l)
  | [] => (0, [])
  end.

(** The longest prefix that is a StrUnsignedDecimalLiteral, read with
    sign [neg]: its value and what follows it. *)
Definition read_unsigned_decimal (neg : bool) (l : list ascii)
  : option (num * list ascii) :=
  match starts_with (chars "Infinity") l with
  | Some rest => Some (if neg then PrimFloat.neg_infinity else PrimFloat.infinity, rest)
  | None =>
      let (ip, r1) := span is_digit l in
      let (fp, r2) :=
        match r1 with
        | c :: r1' => if Nat.eqb (code c) 46 then span is_digit r1' else ([], r1)
        | [] => ([], r1)
        end in
      match ip, fp with
      | [], [] => None
      | _, _ =>
          let (e, r3) := read_exponent r2 in
          Some (ofDecimal neg (digits_val 10 (ip ++ fp)%list) (e - Z.of_nat (List.length fp)), r3)
      end
  end.

Definition read_decimal (l : list ascii) : option (num * list ascii) :=
  let (neg, l') := read_sign l in read_unsigned_decimal neg l'.

(** A literal with a radix prefix: [0x], [0o] or [0b] and digits. *)
Definition read_radix (l : list ascii) : option num :=
  match l with
  | z :: x :: ds =>
      let radix (base : Z) (ok : ascii -> bool) :=
        match ds with
        | [] => None
        | _ => if forallb ok ds then Some (ofZ (digits_val base ds)) else None
        end in
      if negb (Nat.eqb (code z) 48) then None
      else if Nat.eqb (code (lower_char x)) 120
           then radix 16 (fun c => is_digit c || in_range 97 102 c || in_range 65 70 c)%bool
      else if Nat.eqb (code (lower_char x)) 111 then radix 8 (in_range 48 55)
      else if Nat.eqb (code (lower_char x)) 98 then radix 2 (in_range 48 49)
      else None
  | _ => None
  end.

(** [Number(s)] for a string (StringToNumber): the whole trimmed string
    has to be a numeric literal; the empty string is [+0]. *)
Definition Number_of_string (s : string) : num :=
  match trim_chars (chars s) with
  | [] => PrimFloat.zero
  | l =>
      match read_radix l with
      | Some x => x
      | None =>
          match read_decimal l with
          | Some (x, []) => x
          | _ => PrimFloat.nan
          end
      end
  end.

(** [parseFloat(s)] for a string: leading white space is skipped and the
    longest decimal literal that starts the string is read. *)
Definition parseFloat_of_string (s : string) : num :=
  match read_decimal (drop_spaces (chars s)) with
  | Some (x, _) => x
  | None => PrimFloat.nan
  end.

(** ** Values *)

(** The primitive values a configuration object can carry in a field. *)
Inductive jsval : Type :=
  | VUndefined
  | VNull
  | VBool (b : bool)
  | VNum (x : num)
  | VStr (s : string).

(** [Number(v)] (ToNumber). *)
Definition Number (v : jsval) : num :=
  match v with
  | VUndefined => PrimFloat.nan
  | VNull => PrimFloat.zero
  | VBool b => if b then PrimFloat.one else PrimFloat.zero
  | VNum x => x
  | VStr s => Number_of_string s
  end.

(** [parseFloat(v)]: the argument is converted to a string first.  The
    strings of [undefined], [null] and the booleans start with no
    numeral.  The string of a Number reads back as that Number
    (Number::toString prints digits that identify it), except that
    [-0] prints as [0] and NaN as [NaN]. *)
Definition parseFloat (v : jsval) : num :=
  match v with
  | VStr s => parseFloat_of_string s
  | VNum x => if isNaN x then PrimFloat.nan
              else if PrimFloat.eqb x PrimFloat.zero then PrimFloat.zero
              else x
  | _ => PrimFloat.nan
  end.

(** Truthiness (ToBoolean). *)
Definition truthy (v : jsval) : bool :=
  match v with
  | VUndefined | VNull => false
  | VBool b => b
  | VNum x => negb (isNaN x || PrimFloat.eqb x PrimFloat.zero)
  | VStr s => negb (String.eqb s "")
  end.

(** ** The clock and the random source *)

(** What [Date.now()] and [Math.random().toString(36)] return at the
    moment an object is built. *)
Record Env : Type := { now : Z; random36 : string }.

Fixpoint radix_digits (fuel : nat) (base : Z) (z : Z) (acc : list ascii) : list ascii :=
  match fuel with
  | O => acc
  | S f =>
      let d := Z.to_nat (z mod base) in
      let c := if Nat.ltb d 10 then chr (48 + d) else chr (87 + d) in
      if z <? base then c :: acc else radix_digits f base (z / base) (c :: acc)
  end.

(** [n.toString(base)] for a natural number [n]. *)
Definition toStringRadix (base : Z) (z : Z) : string :=
  str (radix_digits (S (Z.to_nat (Z.log2 z))) base z []).

End JS.

(* ===================================================================== *)
(** * modules/Utils.js *)
(* ===================================================================== *)

Module Utils.
Import JS.

(** [toNumber(value, defaultValue)]: the value as a finite Number, or the
    default. *)
Definition toNumber (v : jsval) (defaultValue : num) : num :=
  match v with
  | VNull | VUndefined => defaultValue
  | _ =>
      if (match v with VStr s => String.eqb s "" | _ => false end)
      then defaultValue
      else
        let n := Number v in
        if negb (isFinite n) then defaultValue else n
  end.

Definition toNonNegativeInt (v : jsval) (defaultValue : num) : num :=
  Math_max PrimFloat.zero (Math_floor (toNumber v defaultValue)).

Definition toPositiveInt (v : jsval) (defaultValue : num) : num :=
  Math_max PrimFloat.one (Math_floor (toNumber v defaultValue)).

(** [toString(value, defaultValue)] for a field that holds a string or is
    absent. *)
Definition toString (v : option string) (defaultValue : string) : string :=
  match v with
  | None => defaultValue
  | Some s => s
  end.

Definition isNonEmptyString (v : jsval) : bool :=
  match v with
  | VStr s => Nat.ltb 0 (String.length (trim s))
  | _ => false
  end.

Definition underscore : ascii := chr 95.
Definition is_underscore (c : ascii) : bool := Nat.eqb (code c) 95.

(** The class [[a-z0-9_\-]]. *)
Definition is_id_char (c : ascii) : bool :=
  (is_lower c || is_digit c || is_underscore c || Nat.eqb (code c) 45)%bool.

(** [.replace(/_+/g, '_')]: every run of underscores becomes one. *)
Fixpoint collapse_underscores (l : list ascii) : list ascii :=
  match l with
  | c :: l' =>
      if is_underscore c
      then match l' with
           | d :: _ => if is_underscore d then collapse_underscores l'
                       else c :: collapse_underscores l'
           | [] => [c]
           end
      else c :: collapse_underscores l'
  | [] => []
  end.

(** [.replace(/^_|_$/g, '')]: one underscore off the start and one off the
    end. *)
Definition strip_end_underscore (l : list ascii) : list ascii :=
  match rev l with
  | c :: r => if is_underscore c then rev r else l
  | [] => []
  end.

Definition strip_underscores (l : list ascii) : list ascii :=
  match l with
  | c :: l' => if is_underscore c then strip_end_underscore l'
               else strip_end_underscore l
  | [] => []
  end.

(** [generateId(prefix)]. *)
Definition generateId (env : Env) (prefix : string) : string :=
  (prefix ++ "_" ++ toStringRadix 36 (now env) ++ "_" ++ substring (random36 env) 2 8)%string.

(** [sanitizeId(id)]. *)
Definition sanitizeId (env : Env) (id : jsval) : string :=
  match id with
  | VStr s =>
      if isNonEmptyString id
      then str (strip_underscores
             (collapse_underscores
               (map (fun c => if is_id_char c then c else underscore)
                  (chars (toLowerCase (trim s))))))
      else ("unnamed_" ++ toStringRadix 10 (now env))%string
  | _ => ("unnamed_" ++ toStringRadix 10 (now env))%string
  end.

(** [clamp(value, min, max)].  When [value] is not a finite number
    [toNumber(value, min)] hands back [min] as it was given ([0], the
    default of the parameter, for [undefined]), and [Math.max] converts it
    with ToNumber. *)
Definition clamp (value min max : jsval) : num :=
  let num := toNumber value (match min with
                             | VUndefined => 0%float
                             | _ => Number min
                             end) in
  let safeMin := toNumber min 0%float in
  let safeMax := toNumber max 100%float in
  if gt safeMin safeMax
  then Math_min (Math_max num safeMax) safeMin
  else Math_min (Math_max num safeMin) safeMax.

(** [SafeMath]: each operation computes on the sanitised operands and
    rounds the result to ten decimal places. *)
Module SafeMath.

Definition add (a b : num) : num :=
  let numA := toNumber (VNum a) 0%float in
  let numB := toNumber (VNum b) 0%float in
  (Math_round ((numA + numB) * 1e10) / 1e10)%float.

Definition subtract (a b : num) : num :=
  let numA := toNumber (VNum a) 0%float in
  let numB := toNumber (VNum b) 0%float in
  (Math_round ((numA - numB) * 1e10) / 1e10)%float.

Definition multiply (a b : num) : num :=
  let numA := toNumber (VNum a) 0%float in
  let numB := toNumber (VNum b) 0%float in
  (Math_round ((numA * numB) * 1e10) / 1e10)%float.

Definition divide (a b : num) (defaultValue : num) : num :=
  let numA := toNumber (VNum a) 0%float in
  let numB := toNumber (VNum b) 0%float in
  if seq numB 0%float
  then toNumber (VNum defaultValue) 0%float
  else (Math_round ((numA / numB) * 1e10) / 1e10)%float.

(** [percentage(value, max)]. *)
Definition percentage (value max : num) : num :=
  let result := (divide value max 0 * 100)%float in
  clamp (VNum result) (VNum 0%float) (VNum 100%float).

End SafeMath.

End Utils.

(* ===================================================================== *)
(** * A JavaScript [Map] with string keys *)
(* ===================================================================== *)

(** A [Map] keeps its entries in insertion order and iterates over them in
    that order; the order matters below, because rounding makes the result
    of a fold depend on it.  [set] on a key that is present replaces the
    value in place. *)
Module JsMap.

Definition t (V : Type) : Type := list (string * V).

Definition empty {V : Type} : t V := [].

Fixpoint get {V : Type} (m : t V) (k : string) : option V :=
  match m with
  | (k', v) :: m' => if String.eqb k' k then Some v else get m' k
  | [] => None
  end.

Definition has {V : Type} (m : t V) (k : string) : bool :=
  match get m k with Some _ => true | None => false end.

Fixpoint set {V : Type} (m : t V) (k : string) (v : V) : t V :=
  match m with
  | (k', v') :: m' => if String.eqb k' k then (k', v) :: m' else (k', v') :: set m' k v
  | [] => [(k, v)]
  end.

Fixpoint delete {V : Type} (m : t V) (k : string) : t V :=
  match m with
  | (k', v') :: m' => if String.eqb k' k then m' else (k', v') :: delete m' k
  | [] => []
  end.

Definition keys {V : Type} (m : t V) : list string := map fst m.
Definition values {V : Type} (m : t V) : list V := map snd m.
Definition size {V : Type} (m : t V) : nat := List.length m.

(** The keys of a map are pairwise distinct. *)
Definition wf {V : Type} (m : t V) : Prop := NoDup (keys m).

End JsMap.

(* ===================================================================== *)
(** * The StatModifier module: [StatModifier] *)
(* ===================================================================== *)

Inductive ModifierType : Type := ADD | MULTIPLY | OVERRIDE.

Definition ModifierType_eqb (a b : ModifierType) : bool :=
  match a, b with
  | ADD, ADD | MULTIPLY, MULTIPLY | OVERRIDE, OVERRIDE => true
  | _, _ => false
  end.

(** The string each member of the [ModifierType] enumeration stands for. *)
Definition ModifierType_string (ty : ModifierType) : string :=
  match ty with
  | ADD => "add"
  | MULTIPLY => "multiply"
  | OVERRIDE => "override"
  end.

(** [validateModifierType(type)]: anything but the three type strings
    becomes ['add']. *)
Definition validateModifierType (ty : JS.jsval) : ModifierType :=
  match ty with
  | JS.VStr s =>
      if String.eqb s "add" then ADD
      else if String.eqb s "multiply" then MULTIPLY
      else if String.eqb s "override" then OVERRIDE
      else ADD
  | _ => ADD
  end.

Module StatModifier.
Import JS Utils.

(** The plain object a modifier is built from, and the one [toJSON]
    returns.  A field that is absent holds [VUndefined] (or [None]). *)
Record Config : Type := {
    cfg_id : jsval;
    cfg_name : option string;
    cfg_statId : jsval;
    cfg_type : jsval;
    cfg_value : jsval;
    cfg_duration : jsval;
    cfg_maxStacks : jsval;
    cfg_currentStacks : jsval;
    cfg_source : option string;
    cfg_createdAt : jsval;
    cfg_remainingDuration : jsval
  }.

(** The object [{}]. *)
Definition emptyConfig : Config :=
  {| cfg_id := VUndefined; cfg_name := None; cfg_statId := VUndefined;
     cfg_type := VUndefined; cfg_value := VUndefined; cfg_duration := VUndefined;
     cfg_maxStacks := VUndefined; cfg_currentStacks := VUndefined;
     cfg_source := None; cfg_createdAt := VUndefined;
     cfg_remainingDuration := VUndefined |}.

Record t : Type := {
    id : string;
    name : string;
    statId : string;
    type : ModifierType;
    value : num;
    duration : num;
    maxStacks : num;
    currentStacks : num;
    source : string;
    createdAt : num;
    remainingDuration : num
  }.

(** [new StatModifier(config)]. *)
Definition new (env : Env) (config : Config) : t :=
  let d := toNumber (cfg_duration config) (-1)%float in
  {| id := if isNonEmptyString (cfg_id config)
           then sanitizeId env (cfg_id config) else generateId env "mod";
     name := toString (cfg_name config) "Unnamed Modifier";
     statId := if isNonEmptyString (cfg_statId config)
               then sanitizeId env (cfg_statId config) else "";
     type := validateModifierType (cfg_type config);
     value := toNumber (cfg_value config) 0%float;
     duration := d;
     maxStacks := toPositiveInt (cfg_maxStacks config) 1%float;
     currentStacks := toPositiveInt (cfg_currentStacks config) 1%float;
     source := toString (cfg_source config) "";
     createdAt := ofZ (now env);
     remainingDuration := d |}.

Definition set_remainingDuration (m : t) (r : num) : t :=
  {| id := id m; name := name m; statId := statId m; type := type m;
     value := value m; duration := duration m; maxStacks := maxStacks m;
     currentStacks := currentStacks m; source := source m;
     createdAt := createdAt m; remainingDuration := r |}.

Definition set_currentStacks (m : t) (n : num) : t :=
  {| id := id m; name := name m; statId := statId m; type := type m;
     value := value m; duration := duration m; maxStacks := maxStacks m;
     currentStacks := n; source := source m;
     createdAt := createdAt m; remainingDuration := remainingDuration m |}.

Definition set_createdAt (m : t) (c : num) : t :=
  {| id := id m; name := name m; statId := statId m; type := type m;
     value := value m; duration := duration m; maxStacks := maxStacks m;
     currentStacks := currentStacks m; source := source m;
     createdAt := c; remainingDuration := remainingDuration m |}.

Definition set_statId (m : t) (s : string) : t :=
  {| id := id m; name := name m; statId := s; type := type m;
     value := value m; duration := duration m; maxStacks := maxStacks m;
     currentStacks := currentStacks m; source := source m;
     createdAt := createdAt m; remainingDuration := remainingDuration m |}.

Definition isActive (m : t) : bool :=
  if lt (duration m) 0%float then true
  else gt (remainingDuration m) 0%float.

Definition isPermanent (m : t) : bool := lt (duration m) 0%float.

(** [tick()]: the modifier after the turn, and whether it is still
    active. *)
Definition tick (m : t) : t * bool :=
  if lt (duration m) 0%float then (m, true)
  else
    let r := Math_max 0%float (remainingDuration m - 1)%float in
    (set_remainingDuration m r, gt r 0%float).

(** The value of a parameter that defaults to [1]. *)
Definition default_one (count : jsval) : jsval :=
  match count with
  | VUndefined => VNum 1%float
  | _ => count
  end.

(** [addStacks(count = 1)]: the modifier afterwards and the new stack
    count. *)
Definition addStacks (m : t) (count : jsval) : t * num :=
  let toAdd := toPositiveInt (default_one count) 1%float in
  let m1 := set_currentStacks m (Math_min (currentStacks m + toAdd)%float (maxStacks m)) in
  let m2 := if gt (duration m1) 0%float
            then set_remainingDuration m1 (duration m1) else m1 in
  (m2, currentStacks m2).

(** [removeStacks(count = 1)]. *)
Definition removeStacks (m : t) (count : jsval) : t * num :=
  let toRemove := toPositiveInt (default_one count) 1%float in
  let m1 := set_currentStacks m (Math_max 0%float (currentStacks m - toRemove)%float) in
  (m1, currentStacks m1).

Definition getEffectiveValue (m : t) : num :=
  match type m with
  | OVERRIDE => value m
  | _ => SafeMath.multiply (value m) (currentStacks m)
  end.

(** [apply(baseValue)]. *)
Definition apply (m : t) (baseValue : num) : num :=
  let base := toNumber (VNum baseValue) 0%float in
  let effectiveValue := getEffectiveValue m in
  match type m with
  | ADD => SafeMath.add base effectiveValue
  | MULTIPLY => SafeMath.multiply base effectiveValue
  | OVERRIDE => effectiveValue
  end.

Definition toJSON (m : t) : Config :=
  {| cfg_id := VStr (id m);
     cfg_name := Some (name m);
     cfg_statId := VStr (statId m);
     cfg_type := VStr (ModifierType_string (type m));
     cfg_value := VNum (value m);
     cfg_duration := VNum (duration m);
     cfg_maxStacks := VNum (maxStacks m);
     cfg_currentStacks := VNum (currentStacks m);
     cfg_source := Some (source m);
     cfg_createdAt := VNum (createdAt m);
     cfg_remainingDuration := VNum (remainingDuration m) |}.

(** [StatModifier.fromJSON(data)]; [None] stands for data that is not an
    object. *)
Definition fromJSON (env : Env) (data : option Config) : t :=
  match data with
  | None => new env emptyConfig
  | Some d =>
      let modifier := new env d in
      let m1 := match cfg_remainingDuration d with
                | VNum r => set_remainingDuration modifier (toNumber (VNum r) (duration modifier))
                | _ => modifier
                end in
      match cfg_createdAt d with
      | VNum c => set_createdAt m1 c
      | _ => m1
      end
  end.

Definition clone (env : Env) (m : t) : t := fromJSON env (Some (toJSON m)).

End StatModifier.

(* ===================================================================== *)
(** * The StatModifier module: [ModifierCollection] *)
(* ===================================================================== *)

Module ModifierCollection.
Import JS Utils.

Record t : Type := {
    statId : string;
    modifiers : JsMap.t StatModifier.t
  }.

(** [new ModifierCollection(statId)]. *)
Definition new (env : Env) (statId : jsval) : t :=
  {| statId := sanitizeId env statId; modifiers := JsMap.empty |}.

Definition with_modifiers (c : t) (m : JsMap.t StatModifier.t) : t :=
  {| statId := statId c; modifiers := m |}.

(** [add(modifier)]: the argument is a [StatModifier] or a plain object.
    The result is the collection afterwards and the modifier returned
    ([None] for [null]). *)
Definition add (env : Env) (c : t) (modifier : StatModifier.t + StatModifier.Config)
    : t * option StatModifier.t :=
  let mod0 := match modifier with
              | inl m => m
              | inr config => StatModifier.new env config
              end in
  if (negb (String.eqb (StatModifier.statId mod0) "")
      && negb (String.eqb (StatModifier.statId mod0) (statId c)))%bool
  then (c, None)
  else
    let mod1 := StatModifier.set_statId mod0 (statId c) in
    match JsMap.get (modifiers c) (StatModifier.id mod1) with
    | Some existing =>
        if lt (StatModifier.currentStacks existing) (StatModifier.maxStacks existing)
        then
          let existing' := fst (StatModifier.addStacks existing (VNum 1%float)) in
          (with_modifiers c (JsMap.set (modifiers c) (StatModifier.id mod1) existing'),
           Some existing')
        else
          let existing' :=
            if gt (StatModifier.duration existing) 0%float
            then StatModifier.set_remainingDuration existing (StatModifier.duration existing)
            else existing in
          (with_modifiers c (JsMap.set (modifiers c) (StatModifier.id mod1) existing'),
           Some existing')
    | None =>
        (with_modifiers c (JsMap.set (modifiers c) (StatModifier.id mod1) mod1), Some mod1)
    end.

Definition getActive (c : t) : list StatModifier.t :=
  filter StatModifier.isActive (JsMap.values (modifiers c)).

Definition getByType (c : t) (ty : jsval) : list StatModifier.t :=
  let validType := validateModifierType ty in
  filter (fun m => ModifierType_eqb (StatModifier.type m) validType) (getActive c).

Definition has_type (ty : ModifierType) (m : StatModifier.t) : bool :=
  ModifierType_eqb (StatModifier.type m) ty.

(** [overrideMods.reduce((latest, current) => ...)] from [latest] on. *)
Fixpoint latest_override (latest : StatModifier.t) (rest : list StatModifier.t)
    : StatModifier.t :=
  match rest with
  | current :: rest' =>
      latest_override
        (if gt (StatModifier.createdAt current) (StatModifier.createdAt latest)
         then current else latest)
        rest'
  | [] => latest
  end.

(** [for (const mod of addMods) result = SafeMath.add(result, ...)]. *)
Fixpoint apply_adds (result : num) (addMods : list StatModifier.t) : num :=
  match addMods with
  | m :: rest => apply_adds (SafeMath.add result (StatModifier.getEffectiveValue m)) rest
  | [] => result
  end.

(** [for (const mod of multiplyMods) result = SafeMath.multiply(result, ...)]. *)
Fixpoint apply_multiplies (result : num) (multiplyMods : list StatModifier.t) : num :=
  match multiplyMods with
  | m :: rest =>
      apply_multiplies (SafeMath.multiply result (StatModifier.getEffectiveValue m)) rest
  | [] => result
  end.

(** [applyAll(baseValue)]. *)
Definition applyAll (c : t) (baseValue : num) : num :=
  let base := toNumber (VNum baseValue) 0%float in
  let active := getActive c in
  match active with
  | [] => base
  | _ =>
      let addMods := filter (has_type ADD) active in
      let multiplyMods := filter (has_type MULTIPLY) active in
      let overrideMods := filter (has_type OVERRIDE) active in
      match overrideMods with
      | first :: rest => StatModifier.getEffectiveValue (latest_override first rest)
      | [] => apply_multiplies (apply_adds base addMods) multiplyMods
      end
  end.

(** The loop of [tick()] over the entries of the map: every modifier is
    ticked; an entry whose modifier reports inactive is deleted and its
    key recorded. *)
Fixpoint tick_entries (entries : JsMap.t StatModifier.t)
    : JsMap.t StatModifier.t * list string :=
  match entries with
  | (k, m) :: rest =>
      let (m', active) := StatModifier.tick m in
      let (kept, removed) := tick_entries rest in
      if active then ((k, m') :: kept, removed) else (kept, k :: removed)
  | [] => ([], [])
  end.

(** [tick()]: the collection afterwards and the ids removed. *)
Definition tick (c : t) : t * list string :=
  let (kept, removed) := tick_entries (modifiers c) in
  (with_modifiers c kept, removed).

Definition size (c : t) : nat := JsMap.size (modifiers c).

(** [remove(modifierId)]: the collection afterwards and whether an entry
    was deleted. *)
Definition remove (env : Env) (c : t) (modifierId : jsval) : t * bool :=
  let k := sanitizeId env modifierId in
  (with_modifiers c (JsMap.delete (modifiers c) k), JsMap.has (modifiers c) k).

(** [get(modifierId)] and [has(modifierId)]. *)
Definition get (env : Env) (c : t) (modifierId : jsval) : option StatModifier.t :=
  JsMap.get (modifiers c) (sanitizeId env modifierId).

Definition has (env : Env) (c : t) (modifierId : jsval) : bool :=
  JsMap.has (modifiers c) (sanitizeId env modifierId).

(** [clear()]. *)
Definition clear (c : t) : t := with_modifiers c JsMap.empty.

Definition activeCount (c : t) : nat := List.length (getActive c).

End ModifierCollection.

(* ===================================================================== *)
(** * Regular expressions *)
(* ===================================================================== *)

(** The fragment of JavaScript regular expressions the two parsers use,
    matched the way the language specifies: by backtracking, quantifiers
    greedy, alternatives tried from left to right. *)
Module Regex.
Import JS.

Inductive re : Type :=
  | Empty                          (* the empty pattern *)
  | Class (p : ascii -> bool)      (* one character of a class *)
  | Cat (a b : re)                 (* a followed by b *)
  | Or (a b : re)                  (* a|b *)
  | Star (a : re)                  (* a*, greedy *)
  | Group (i : nat) (a : re).      (* the i-th capturing group *)

Definition Opt (a : re) : re := Or a Empty.          (* a? *)
Definition Plus (a : re) : re := Cat a (Star a).     (* a+ *)
Definition Char (c : ascii) : re := Class (Ascii.eqb c).

(** A string taken literally: what [escapeRegex] followed by compilation
    gives. *)
Fixpoint Literal (l : list ascii) : re :=
  match l with
  | c :: l' => Cat (Char c) (Literal l')
  | [] => Empty
  end.

Fixpoint Cats (rs : list re) : re :=
  match rs with
  | r :: rs' => Cat r (Cats rs')
  | [] => Empty
  end.

(** The text captured by each group. *)
Definition captures : Type := list (nat * list ascii).

Fixpoint capture (cs : captures) (i : nat) : option (list ascii) :=
  match cs with
  | (j, x) :: cs' => if Nat.eqb i j then Some x else capture cs' i
  | [] => None
  end.

(** [consumed s s']: the part of [s] in front of its suffix [s']. *)
Definition consumed (s s' : list ascii) : list ascii :=
  firstn (List.length s - List.length s') s.

Section Matcher.
Context {R : Type}.

(** [run fuel r s cs k]: match [r] at the start of [s] and hand what is
    left, with the captures, to the continuation [k]; when [k] fails the
    matcher backtracks.  An iteration of a star has to consume a
    character, so [fuel] above the length of [s] is never used up. *)
Fixpoint run (fuel : nat) : re -> list ascii -> captures ->
                              (list ascii -> captures -> option R) -> option R :=
  fix go (r : re) (s : list ascii) (cs : captures)
         (k : list ascii -> captures -> option R) {struct r} : option R :=
  match r with
  | Empty => k s cs
  | Class p =>
      match s with
      | c :: s' => if p c then k s' cs else None
      | [] => None
      end
  | Cat a b => go a s cs (fun s' cs' => go b s' cs' k)
  | Or a b =>
      match go a s cs k with
      | Some x => Some x
      | None => go b s cs k
      end
  | Star a =>
      match fuel with
      | O => None
      | S fuel' =>
          match go a s cs (fun s' cs' =>
                   if Nat.ltb (List.length s') (List.length s)
                   then run fuel' (Star a) s' cs' k
                   else None) with
          | Some x => Some x
          | None => k s cs
          end
      end
  | Group i a => go a s cs (fun s' cs' => k s' ((i, consumed s s') :: cs'))
  end.

End Matcher.

(** One match: the text matched, the captures and the text after it. *)
Record found : Type := {
    matched : list ascii;
    groups : captures;
    after : list ascii
  }.

(** The match of [r] at the very start of [s]. *)
Definition match_here (r : re) (s : list ascii) : option found :=
  run (S (List.length s)) r s []
      (fun s' cs => Some {| matched := consumed s s'; groups := cs; after := s' |}).

(** [r.exec(s)]: the first position of [s] where [r] matches. *)
Fixpoint exec (r : re) (s : list ascii) : option found :=
  match match_here r s with
  | Some f => Some f
  | None =>
      match s with
      | _ :: s' => exec r s'
      | [] => None
      end
  end.

(** All the matches of a global pattern, from left to right, each search
    starting where the previous match ended ([lastIndex]).  The patterns
    of the parsers match at least one character. *)
Fixpoint exec_all (fuel : nat) (r : re) (s : list ascii) : list found :=
  match fuel with
  | O => []
  | S fuel' =>
      match exec r s with
      | Some f =>
          if Nat.ltb (List.length (after f)) (List.length s)
          then f :: exec_all fuel' r (after f)
          else [f]
      | None => []
      end
  end.

Definition matches (r : re) (s : string) : list found :=
  exec_all (S (String.length s)) r (chars s).

(** The text in front of a match found in [s]. *)
Definition skipped (s : list ascii) (f : found) : list ascii :=
  firstn (List.length s - List.length (matched f) - List.length (after f)) s.

(** [s.replace(r, '')] for a global pattern: the text with every match
    taken out.  The matches are those of [exec_all]. *)
Fixpoint remove_all (fuel : nat) (r : re) (s : list ascii) : list ascii :=
  match fuel with
  | O => s
  | S fuel' =>
      match exec r s with
      | Some f =>
          if Nat.ltb (List.length (after f)) (List.length s)
          then (skipped s f ++ remove_all fuel' r (after f))%list
          else skipped s f
      | None => s
      end
  end.

End Regex.

(* ===================================================================== *)
(** * The Parser module: [StatParser] *)
(* ===================================================================== *)

Inductive ParseResultType : Type := MODIFY | SET | INVALID.

Module StatParser.
Import JS Utils Regex.

Record ParsedCommand : Type := {
    raw : string;
    statId : string;
    value : num;
    type : ParseResultType;
    isValid : bool;
    error : string
  }.

(** The options object of the constructor. *)
Record Options : Type := {
    opt_openTag : option string;
    opt_closeTag : option string;
    opt_separator : option string;
    opt_caseSensitive : jsval
  }.

Definition noOptions : Options :=
  {| opt_openTag := None; opt_closeTag := None; opt_separator := None;
     opt_caseSensitive := VUndefined |}.

Record t : Type := {
    openTag : string;
    closeTag : string;
    separator : string;
    caseSensitive : bool
  }.

(** [new StatParser(options)]. *)
Definition new (options : Options) : t :=
  {| openTag := toString (opt_openTag options) "{{";
     closeTag := toString (opt_closeTag options) "}}";
     separator := toString (opt_separator options) ":";
     caseSensitive := match opt_caseSensitive options with
                      | VBool true => true
                      | _ => false
                      end |}.

Definition is_id_start (c : ascii) : bool :=
  (is_lower c || is_upper c || is_underscore c)%bool.

Definition is_id_rest (c : ascii) : bool :=
  (is_lower c || is_upper c || is_digit c || is_underscore c || Nat.eqb (code c) 45)%bool.

(** The class [[=+\-]]. *)
Definition is_operator (c : ascii) : bool :=
  (Nat.eqb (code c) 61 || Nat.eqb (code c) 43 || Nat.eqb (code c) 45)%bool.

(** The pattern [_buildPattern] compiles from the escaped tags and
    separator, with the flag g:
      open \s* (ID) \s* sep \s* (VALUE) \s* close
    where ID is [a-zA-Z_] followed by any number of [a-zA-Z0-9_\-], and
    VALUE is [=+\-]? \s* -? [0-9]+ with an optional fraction \.[0-9]+ . *)
Definition pattern (p : t) : re :=
  Cats [ Literal (chars (openTag p));
         Star (Class is_space);
         Group 1 (Cat (Class is_id_start) (Star (Class is_id_rest)));
         Star (Class is_space);
         Literal (chars (separator p));
         Star (Class is_space);
         Group 2 (Cats [ Opt (Class is_operator);
                         Star (Class is_space);
                         Opt (Char (chr 45));
                         Plus (Class is_digit);
                         Opt (Cat (Char (chr 46)) (Plus (Class is_digit))) ]);
         Star (Class is_space);
         Literal (chars (closeTag p)) ].

(** [.replace(/\s/g, '')]. *)
Definition remove_spaces (s : string) : string :=
  str (filter (fun c => negb (is_space c)) (chars s)).

(** [_parseCommand(raw, statId, valueStr)]. *)
Definition _parseCommand (p : t) (raw statId valueStr : string) : ParsedCommand :=
  if negb (isNonEmptyString (VStr statId))
  then {| raw := raw; statId := ""; value := 0%float; type := INVALID;
          isValid := false; error := "Empty stat ID" |}
  else
    let id := if caseSensitive p then trim statId else toLowerCase (trim statId) in
    let trimmedValue := remove_spaces valueStr in
    if String.eqb trimmedValue ""
    then {| raw := raw; statId := id; value := 0%float; type := INVALID;
            isValid := false; error := "Empty value" |}
    else
      let (ty, v) :=
        if startsWith trimmedValue "="
        then (SET, toNumber (VStr (substringFrom trimmedValue 1)) PrimFloat.nan)
        else (MODIFY, toNumber (VStr trimmedValue) PrimFloat.nan) in
      if negb (isFinite v)
      then {| raw := raw; statId := id; value := v; type := INVALID;
              isValid := false; error := "Invalid number: " ++ valueStr |}
      else {| raw := raw; statId := id; value := v; type := ty;
              isValid := true; error := "" |}.

Definition group_text (f : found) (i : nat) : string :=
  match capture (groups f) i with
  | Some x => str x
  | None => ""
  end.

(** The body of the loop of [parse]: one command for each match. *)
Fixpoint parse_matches (p : t) (ms : list found) : list ParsedCommand :=
  match ms with
  | f :: ms' =>
      _parseCommand p (str (matched f)) (group_text f 1) (group_text f 2)
        :: parse_matches p ms'
  | [] => []
  end.

(** [parse(text)]. *)
Definition parse (p : t) (text : string) : list ParsedCommand :=
  if negb (isNonEmptyString (VStr text)) then []
  else parse_matches p (matches (pattern p) text).

(** [parseValid(text)]. *)
Definition parseValid (p : t) (text : string) : list ParsedCommand :=
  filter isValid (parse p text).

(** The loop of [getStatChanges]. *)
Fixpoint collect_changes (changes : JsMap.t ParsedCommand) (commands : list ParsedCommand)
    : JsMap.t ParsedCommand :=
  match commands with
  | cmd :: rest =>
      collect_changes
        (if negb (JsMap.has changes (statId cmd))
         then JsMap.set changes (statId cmd) cmd else changes)
        rest
  | [] => changes
  end.

(** [getStatChanges(text)]. *)
Definition getStatChanges (p : t) (text : string) : JsMap.t ParsedCommand :=
  collect_changes JsMap.empty (parseValid p text).

(** [hasCommands(text)]: [test] from [lastIndex = 0]. *)
Definition hasCommands (p : t) (text : string) : bool :=
  if negb (isNonEmptyString (VStr text)) then false
  else match exec (pattern p) (chars text) with
       | Some _ => true
       | None => false
       end.

(** [stripCommands(text)]. *)
Definition stripCommands (p : t) (text : string) : string :=
  if negb (isNonEmptyString (VStr text)) then ""
  else trim (str (remove_all (S (String.length text)) (pattern p) (chars text))).

(** [isValidStatId(statId)]: the test against the pattern
    ^ [a-zA-Z_] [a-zA-Z0-9_\-]* $ , which has to match from the first
    character to the end of the text. *)
Definition isValidStatId (statId : jsval) : bool :=
  match statId with
  | VStr s =>
      (isNonEmptyString statId
       && match run (S (String.length s))
                    (Cat (Class is_id_start) (Star (Class is_id_rest)))
                    (chars s) []
                    (fun s' _ => match s' with [] => Some tt | _ :: _ => None end) with
          | Some _ => true
          | None => false
          end)%bool
  | _ => false
  end.

End StatParser.

(** What [Stat.modify] and [Stat.set] return. *)
Record ChangeResult : Type := {
    oldValue : JS.num;
    newValue : JS.num;
    actualChange : JS.num
  }.

(* ===================================================================== *)
(** * src/index.js: the bundled extension *)
(* ===================================================================== *)

Module Standalone.
Import JS.

(** The helpers at the top of the file. *)

Definition isNonEmptyString (v : jsval) : bool :=
  match v with
  | VStr s => Nat.ltb 0 (String.length (trim s))
  | _ => false
  end.

Definition toString (v : option string) (defaultVal : string) : string :=
  match v with
  | Some s => s
  | None => defaultVal
  end.

(** [toNumber(val, defaultVal)]: [parseFloat], NaN replaced by the
    default. *)
Definition toNumber (v : jsval) (defaultVal : num) : num :=
  let n := parseFloat v in
  if isNaN n then defaultVal else n.

(** [generateId(prefix)]. *)
Definition generateId (env : Env) (prefix : string) : string :=
  (prefix ++ "_" ++ toStringRadix 10 (now env) ++ "_"
     ++ substring (random36 env) 2 11)%string.

Definition is_id_char (c : ascii) : bool :=
  (is_lower c || is_digit c || Utils.is_underscore c || Nat.eqb (code c) 45)%bool.

(** [sanitizeId(str)] of a string. *)
Definition sanitizeId (s : string) : string :=
  str (firstn 32
         (Utils.collapse_underscores
            (map (fun c => if is_id_char c then c else Utils.underscore)
                 (chars (toLowerCase s))))).

(** ** [Stat] *)
Module Stat.

Record Config : Type := {
    cfg_id : jsval;
    cfg_name : option string;
    cfg_baseValue : jsval;
    cfg_currentValue : jsval;
    cfg_minValue : jsval;
    cfg_maxValue : jsval;
    cfg_color : option string;
    cfg_displayMode : jsval;
    cfg_showInUI : jsval;
    cfg_category : option string
  }.

Definition emptyConfig : Config :=
  {| cfg_id := VUndefined; cfg_name := None; cfg_baseValue := VUndefined;
     cfg_currentValue := VUndefined; cfg_minValue := VUndefined;
     cfg_maxValue := VUndefined; cfg_color := None; cfg_displayMode := VUndefined;
     cfg_showInUI := VUndefined; cfg_category := None |}.

Record t : Type := {
    id : string;
    name : string;
    baseValue : num;
    currentValue : num;
    minValue : num;
    maxValue : num;
    color : string;
    displayMode : jsval;
    showInUI : bool;
    category : string;
    lastChange : num
  }.

(** [new Stat(config)]. *)
Definition new (env : Env) (config : Config) : t :=
  let base := toNumber (cfg_baseValue config) 100%float in
  {| id := match cfg_id config with
           | VStr s => if isNonEmptyString (cfg_id config)
                       then sanitizeId s else generateId env "stat"
           | _ => generateId env "stat"
           end;
     name := toString (cfg_name config) "Unnamed Stat";
     baseValue := base;
     currentValue := toNumber (cfg_currentValue config) base;
     minValue := toNumber (cfg_minValue config) 0%float;
     maxValue := toNumber (cfg_maxValue config) 100%float;
     color := toString (cfg_color config) "#4a90d9";
     displayMode := if truthy (cfg_displayMode config)
                    then cfg_displayMode config else VStr "fraction";
     showInUI := match cfg_showInUI config with
                 | VBool false => false
                 | _ => true
                 end;
     category := toString (cfg_category config) "";
     lastChange := 0%float |}.

Definition finalValue (s : t) : num :=
  Math_max (minValue s) (Math_min (maxValue s) (currentValue s)).

(** The stat with a new current value and the change recorded. *)
Definition assign (s : t) (v : num) : t * ChangeResult :=
  let old := currentValue s in
  let change := (v - old)%float in
  ({| id := id s; name := name s; baseValue := baseValue s; currentValue := v;
      minValue := minValue s; maxValue := maxValue s; color := color s;
      displayMode := displayMode s; showInUI := showInUI s;
      category := category s; lastChange := change |},
   {| oldValue := old; newValue := v; actualChange := change |}).

(** [modify(delta)]. *)
Definition modify (s : t) (delta : num) : t * ChangeResult :=
  assign s (Math_max (minValue s) (Math_min (maxValue s) (currentValue s + delta)%float)).

(** [set(value)]. *)
Definition set (s : t) (value : num) : t * ChangeResult :=
  assign s (Math_max (minValue s) (Math_min (maxValue s) value)).

Definition reset (s : t) : t * ChangeResult := set s (baseValue s).

(** [setBounds(min, max)]. *)
Definition setBounds (s : t) (min max : jsval) : t :=
  let mn := toNumber min 0%float in
  let mx := toNumber max 100%float in
  let (mn', mx') := if gt mn mx then (mx, mn) else (mn, mx) in
  {| id := id s; name := name s; baseValue := baseValue s;
     currentValue := Math_max mn' (Math_min mx' (currentValue s));
     minValue := mn'; maxValue := mx'; color := color s;
     displayMode := displayMode s; showInUI := showInUI s;
     category := category s; lastChange := lastChange s |}.

Definition toJSON (s : t) : Config :=
  {| cfg_id := VStr (id s);
     cfg_name := Some (name s);
     cfg_baseValue := VNum (baseValue s);
     cfg_currentValue := VNum (currentValue s);
     cfg_minValue := VNum (minValue s);
     cfg_maxValue := VNum (maxValue s);
     cfg_color := Some (color s);
     cfg_displayMode := displayMode s;
     cfg_showInUI := VBool (showInUI s);
     cfg_category := Some (category s) |}.

Definition fromJSON (env : Env) (data : Config) : t := new env data.

End Stat.

(** ** [StatManager] *)
Module StatManager.

Record t : Type := { stats : JsMap.t Stat.t }.

Definition new : t := {| stats := JsMap.empty |}.

(** [add(stat)] for a [Stat] or a plain object. *)
Definition add (env : Env) (m : t) (stat : Stat.t + Stat.Config) : t * Stat.t :=
  let s := match stat with
           | inl s => s
           | inr config => Stat.new env config
           end in
  ({| stats := JsMap.set (stats m) (Stat.id s) s |}, s).

Definition get (m : t) (statId : string) : option Stat.t :=
  JsMap.get (stats m) (sanitizeId statId).

Definition has (m : t) (statId : string) : bool :=
  JsMap.has (stats m) (sanitizeId statId).

(** The manager after the stat that [get(statId)] returned has been
    changed in place into [s]. *)
Definition update (m : t) (statId : string) (s : Stat.t) : t :=
  {| stats := JsMap.set (stats m) (sanitizeId statId) s |}.

(** [remove(statId)]: the manager afterwards and whether a stat was
    deleted. *)
Definition remove (m : t) (statId : string) : t * bool :=
  let k := sanitizeId statId in
  ({| stats := JsMap.delete (stats m) k |}, JsMap.has (stats m) k).

Definition getAll (m : t) : list Stat.t := JsMap.values (stats m).

(** [displayMode !== 'hidden']. *)
Definition not_hidden (v : jsval) : bool :=
  match v with
  | VStr s => negb (String.eqb s "hidden")
  | _ => true
  end.

(** [getVisible()]. *)
Definition getVisible (m : t) : list Stat.t :=
  filter (fun s => (Stat.showInUI s && not_hidden (Stat.displayMode s))%bool) (getAll m).

(** [clear()]. *)
Definition clear (m : t) : t := new.

(** [resetAll()]: every stat is reset in place. *)
Definition resetAll (m : t) : t :=
  {| stats := map (fun e => (fst e, fst (Stat.reset (snd e)))) (stats m) |}.

End StatManager.

(** ** [StatParser] *)
Module StatParser.
Import Regex.

Record Command : Type := {
    statId : string;
    value : num;
    type : ParseResultType;
    raw : string
  }.

Record Options : Type := {
    opt_openTag : option string;
    opt_closeTag : option string;
    opt_separator : option string;
    opt_caseSensitive : jsval
  }.

Definition noOptions : Options :=
  {| opt_openTag := None; opt_closeTag := None; opt_separator := None;
     opt_caseSensitive := VUndefined |}.

Record t : Type := {
    openTag : string;
    closeTag : string;
    separator : string;
    caseSensitive : jsval
  }.

(** [x || dflt] for a string field. *)
Definition or_default (x : option string) (dflt : string) : string :=
  match x with
  | Some s => if String.eqb s "" then dflt else s
  | None => dflt
  end.

(** [new StatParser(config)]. *)
Definition new (config : Options) : t :=
  {| openTag := or_default (opt_openTag config) "{{";
     closeTag := or_default (opt_closeTag config) "}}";
     separator := or_default (opt_separator config) ":";
     caseSensitive := if truthy (opt_caseSensitive config)
                      then opt_caseSensitive config else VBool false |}.

(** [closeTag.charAt(0)] as a class: every character but it. *)
Definition not_close_start (p : t) (c : ascii) : bool :=
  match chars (closeTag p) with
  | c0 :: _ => negb (Ascii.eqb c0 c)
  | [] => true
  end.

(** The pattern of [parseValid]: the open tag, one or more characters
    other than the first of the close tag (captured), the close tag. *)
Definition pattern (p : t) : re :=
  Cats [ Literal (chars (openTag p));
         Group 1 (Plus (Class (not_close_start p)));
         Literal (chars (closeTag p)) ].

(** The body of the loop of [parseValid] for one match: a command, or
    nothing when the loop continues. *)
Definition parse_match (p : t) (f : found) : option Command :=
  let content := trim (match capture (groups f) 1 with Some x => str x | None => "" end) in
  match indexOf content (separator p) with
  | None => None
  | Some sepIndex =>
      let statId := trim (substring content 0 sepIndex) in
      let valueStr := trim (substringFrom content (sepIndex + 1)) in
      if (String.eqb statId "" || String.eqb valueStr "")%bool then None
      else
        let (ty, valueStr') :=
          if startsWith valueStr "=" then (SET, substringFrom valueStr 1)
          else (MODIFY, valueStr) in
        let v := parseFloat_of_string valueStr' in
        if isNaN v then None
        else Some {| statId := if truthy (caseSensitive p) then statId
                               else toLowerCase statId;
                     value := v; type := ty; raw := str (matched f) |}
  end.

Fixpoint parse_matches (p : t) (ms : list found) : list Command :=
  match ms with
  | f :: ms' =>
      match parse_match p f with
      | Some cmd => cmd :: parse_matches p ms'
      | None => parse_matches p ms'
      end
  | [] => []
  end.

(** [parseValid(text)]. *)
Definition parseValid (p : t) (text : string) : list Command :=
  if String.eqb text "" then []
  else parse_matches p (matches (pattern p) text).

End StatParser.

End Standalone.

(* ===================================================================== *)
(** * The StateManager module: [StateManager.processMessage] *)
(* ===================================================================== *)

(** The StateManager module imports [StatManager] from modules/Stat.js,
    which is not among the sources.  [processMessage] uses three of its
    operations; they are the parameters of the model.  A stat is an object
    shared between the manager and the caller: [manager_update] is the
    manager once the stat that [get] returned has been changed in place. *)
Class StatApi (Manager Stat : Type) : Type := {
    manager_get : Manager -> string -> option Stat;
    manager_update : Manager -> string -> Stat -> Manager;
    stat_name : Stat -> string;
    stat_set : Stat -> JS.num -> Stat * ChangeResult;
    stat_modify : Stat -> JS.num -> Stat * ChangeResult
  }.

(** The stats of src/index.js provide these operations. *)
#[export] Instance Standalone_StatApi : StatApi Standalone.StatManager.t Standalone.Stat.t := {
    manager_get := Standalone.StatManager.get;
    manager_update := Standalone.StatManager.update;
    stat_name := Standalone.Stat.name;
    stat_set := Standalone.Stat.set;
    stat_modify := Standalone.Stat.modify
  }.

Inductive StateScope : Type := GLOBAL | PER_CHAT.

Module StateManager.
Import JS.
Local Open Scope string_scope.

Section WithStats.
Context {Manager Stat : Type} {api : StatApi Manager Stat}.

Record SimulationState : Type := {
    sim_id : string;
    sim_name : string;
    createdAt : num;
    updatedAt : num;
    turnCount : num;
    statManager : Manager
  }.

Definition with_statManager (st : SimulationState) (m : Manager) : SimulationState :=
  {| sim_id := sim_id st; sim_name := sim_name st; createdAt := createdAt st;
     updatedAt := updatedAt st; turnCount := turnCount st; statManager := m |}.

(** The settings [processMessage] reads. *)
Record Settings : Type := {
    enabled : bool;
    stateScope : StateScope
  }.

Record t : Type := {
    currentState : option SimulationState;
    globalState : option SimulationState;
    settings : Settings;
    parser : StatParser.t
  }.

Definition getActiveState (sm : t) : option SimulationState :=
  match stateScope (settings sm) with
  | GLOBAL => globalState sm
  | PER_CHAT => currentState sm
  end.

(** The active state is an object too: the manager with that state
    replaced. *)
Definition setActiveState (sm : t) (st : SimulationState) : t :=
  match stateScope (settings sm) with
  | GLOBAL => {| currentState := currentState sm; globalState := Some st;
                 settings := settings sm; parser := parser sm |}
  | PER_CHAT => {| currentState := Some st; globalState := globalState sm;
                   settings := settings sm; parser := parser sm |}
  end.

(** An entry of [changes]. *)
Record Change : Type := {
    ch_statId : string;
    ch_statName : option string;
    ch_success : bool;
    ch_error : option string;
    ch_result : option ChangeResult;
    ch_commandType : option ParseResultType
  }.

Record Result : Type := {
    success : bool;
    res_error : option string;
    changes : list Change;
    disabled : bool;
    commandCount : option nat
  }.

(** The loop of [processMessage] over the commands: the stats afterwards
    and the entries pushed to [changes].  The listeners that
    [_notifyStatChange] calls observe the change; they are not part of the
    model. *)
Fixpoint apply_commands (m : Manager) (commands : list StatParser.ParsedCommand)
    : Manager * list Change :=
  match commands with
  | cmd :: rest =>
      match manager_get m (StatParser.statId cmd) with
      | None =>
          let (m', cs) := apply_commands m rest in
          (m', {| ch_statId := StatParser.statId cmd; ch_statName := None;
                  ch_success := false; ch_error := Some "Stat not found";
                  ch_result := None; ch_commandType := None |} :: cs)
      | Some stat =>
          let (stat', result) :=
            match StatParser.type cmd with
            | SET => stat_set stat (StatParser.value cmd)
            | _ => stat_modify stat (StatParser.value cmd)
            end in
          let (m', cs) :=
            apply_commands (manager_update m (StatParser.statId cmd) stat') rest in
          (m', {| ch_statId := StatParser.statId cmd;
                  ch_statName := Some (stat_name stat');
                  ch_success := true; ch_error := None;
                  ch_result := Some result;
                  ch_commandType := Some (StatParser.type cmd) |} :: cs)
      end
  | [] => (m, [])
  end.

(** [processMessage(message)]. *)
Definition processMessage (sm : t) (message : string) : t * Result :=
  match getActiveState sm with
  | None =>
      (sm, {| success := false; res_error := Some "No active state"; changes := [];
              disabled := false; commandCount := None |})
  | Some activeState =>
      if negb (enabled (settings sm))
      then (sm, {| success := true; res_error := None; changes := [];
                   disabled := true; commandCount := None |})
      else
        let commands := StatParser.parseValid (parser sm) message in
        let (m', cs) := apply_commands (statManager activeState) commands in
        (setActiveState sm (with_statManager activeState m'),
         {| success := true; res_error := None; changes := cs;
            disabled := false; commandCount := Some (List.length commands) |})
  end.

End WithStats.

End StateManager.

(* ===================================================================== *)
(** * The StateManager module: [StatPreset] and [PresetManager] *)
(* ===================================================================== *)

(** A preset carries the serialized stats of a state: plain data, of which
    [deepClone] ([structuredClone]) returns an equal copy.  The two classes
    do nothing else with them, so their type [S] is left open. *)
Module StatPreset.
Import JS Utils.
Local Open Scope string_scope.

Section WithStats.
Context {S : Type}.

(** The plain object a preset is built from and the one [toJSON]
    returns. *)
Record Config : Type := {
    cfg_id : jsval;
    cfg_name : option string;
    cfg_description : option string;
    cfg_createdAt : jsval;
    cfg_updatedAt : jsval;
    cfg_stats : option (list S)
  }.

(** The object [{}]. *)
Definition emptyConfig : Config :=
  {| cfg_id := VUndefined; cfg_name := None; cfg_description := None;
     cfg_createdAt := VUndefined; cfg_updatedAt := VUndefined; cfg_stats := None |}.

Record t : Type := {
    id : string;
    name : string;
    description : string;
    createdAt : jsval;
    updatedAt : jsval;
    stats : list S
  }.

(** [new StatPreset(config)]. *)
Definition new (env : Env) (config : Config) : t :=
  {| id := match cfg_id config with
           | VStr s => if isNonEmptyString (cfg_id config) then s
                       else generateId env "preset"
           | _ => generateId env "preset"
           end;
     name := toString (cfg_name config) "New Preset";
     description := toString (cfg_description config) "";
     createdAt := if truthy (cfg_createdAt config) then cfg_createdAt config
                  else VNum (ofZ (now env));
     updatedAt := if truthy (cfg_updatedAt config) then cfg_updatedAt config
                  else VNum (ofZ (now env));
     stats := match cfg_stats config with
              | Some l => l
              | None => []
              end |}.

Definition toJSON (p : t) : Config :=
  {| cfg_id := VStr (id p); cfg_name := Some (name p);
     cfg_description := Some (description p);
     cfg_createdAt := createdAt p; cfg_updatedAt := updatedAt p;
     cfg_stats := Some (stats p) |}.

(** [StatPreset.fromJSON(data)]; [None] stands for data that is not a
    plain object. *)
Definition fromJSON (env : Env) (data : option Config) : t :=
  match data with
  | None => new env emptyConfig
  | Some d => new env d
  end.

End WithStats.

Arguments Config : clear implicits.
Arguments t : clear implicits.

End StatPreset.

Module PresetManager.
Import JS Utils.
Local Open Scope string_scope.

Section WithStats.
Context {S : Type}.

Record t : Type := { presets : JsMap.t (StatPreset.t S) }.

Definition new : t := {| presets := JsMap.empty |}.

(** [add(preset)] for a [StatPreset]. *)
Definition add (pm : t) (preset : StatPreset.t S) : t * bool :=
  ({| presets := JsMap.set (presets pm) (StatPreset.id preset) preset |}, true).

(** [get(id)]; [None] stands for [null]. *)
Definition get (pm : t) (id : string) : option (StatPreset.t S) :=
  JsMap.get (presets pm) id.

Definition getAll (pm : t) : list (StatPreset.t S) := JsMap.values (presets pm).

(** [remove(id)]. *)
Definition remove (pm : t) (id : string) : t * bool :=
  ({| presets := JsMap.delete (presets pm) id |}, JsMap.has (presets pm) id).

(** The object [update] is given. *)
Record Updates : Type := {
    up_name : jsval;
    up_description : jsval;
    up_stats : option (list S)
  }.

(** [update(id, updates)]: the manager afterwards and whether the preset
    was there. *)
Definition update (env : Env) (pm : t) (id : string) (updates : Updates) : t * bool :=
  match JsMap.get (presets pm) id with
  | None => (pm, false)
  | Some preset =>
      let preset' :=
        {| StatPreset.id := StatPreset.id preset;
           StatPreset.name := match up_name updates with
                              | VStr s => if isNonEmptyString (up_name updates) then s
                                          else StatPreset.name preset
                              | _ => StatPreset.name preset
                              end;
           StatPreset.description := match up_description updates with
                                     | VStr d => d
                                     | _ => StatPreset.description preset
                                     end;
           StatPreset.createdAt := StatPreset.createdAt preset;
           StatPreset.updatedAt := VNum (ofZ (now env));
           StatPreset.stats := match up_stats updates with
                               | Some l => l
                               | None => StatPreset.stats preset
                               end |} in
      ({| presets := JsMap.set (presets pm) id preset' |}, true)
  end.

Definition toJSON (pm : t) : list (StatPreset.Config S) :=
  map StatPreset.toJSON (getAll pm).

(** The loop of [fromJSON]: the [i]-th item is built at the moment
    [envs i]. *)
Fixpoint load (envs : nat -> Env) (i : nat) (items : list (option (StatPreset.Config S)))
    (acc : JsMap.t (StatPreset.t S)) : JsMap.t (StatPreset.t S) :=
  match items with
  | item :: rest =>
      let preset := StatPreset.fromJSON (envs i) item in
      load envs (Datatypes.S i) rest (JsMap.set acc (StatPreset.id preset) preset)
  | [] => acc
  end.

(** [fromJSON(data)]: the manager afterwards; [None] stands for data
    that is not an array. *)
Definition fromJSON (envs : nat -> Env) (pm : t)
    (data : option (list (option (StatPreset.Config S)))) : t :=
  match data with
  | None => new
  | Some items => {| presets := load envs 0 items JsMap.empty |}
  end.

Definition count (pm : t) : nat := JsMap.size (presets pm).

End WithStats.

Arguments t : clear implicits.
Arguments Updates : clear implicits.

End PresetManager.

(* ===================================================================== *)
(** * src/index.js: the state manager of the bundled extension *)
(* ===================================================================== *)

Module Bundled.
Import JS.
Local Open Scope string_scope.

Module StateManager.

Record SimulationState : Type := {
    sim_id : string;
    sim_name : string;
    createdAt : num;
    updatedAt : num;
    turnCount : num;
    statManager : Standalone.StatManager.t
  }.

Definition with_statManager (st : SimulationState) (m : Standalone.StatManager.t)
    : SimulationState :=
  {| sim_id := sim_id st; sim_name := sim_name st; createdAt := createdAt st;
     updatedAt := updatedAt st; turnCount := turnCount st; statManager := m |}.

(** The settings [processMessage] and [setStateScope] touch. *)
Record Settings : Type := {
    enabled : bool;
    stateScope : StateScope
  }.

Record t : Type := {
    currentState : option SimulationState;
    globalState : option SimulationState;
    settings : Settings;
    parser : Standalone.StatParser.t
  }.

Definition getActiveState (sm : t) : option SimulationState :=
  match stateScope (settings sm) with
  | GLOBAL => globalState sm
  | PER_CHAT => currentState sm
  end.

(** The active state is an object: the manager with that state
    replaced. *)
Definition setActiveState (sm : t) (st : SimulationState) : t :=
  match stateScope (settings sm) with
  | GLOBAL => {| currentState := currentState sm; globalState := Some st;
                 settings := settings sm; parser := parser sm |}
  | PER_CHAT => {| currentState := Some st; globalState := globalState sm;
                   settings := settings sm; parser := parser sm |}
  end.

(** An entry of [changes]; [...result] spreads the three fields of the
    result of [set] or [modify]. *)
Record Change : Type := {
    ch_statId : string;
    ch_statName : option string;
    ch_success : bool;
    ch_error : option string;
    ch_result : option ChangeResult;
    ch_commandType : option ParseResultType
  }.

Record Result : Type := {
    success : bool;
    res_error : option string;
    changes : list Change;
    disabled : bool;
    commandCount : option nat
  }.

(** The loop of [processMessage] over the commands; the listeners that
    [_notifyStatChange] calls observe the change and are not part of the
    model. *)
Fixpoint apply_commands (m : Standalone.StatManager.t)
    (commands : list Standalone.StatParser.Command)
    : Standalone.StatManager.t * list Change :=
  match commands with
  | cmd :: rest =>
      match Standalone.StatManager.get m (Standalone.StatParser.statId cmd) with
      | None =>
          let (m', cs) := apply_commands m rest in
          (m', {| ch_statId := Standalone.StatParser.statId cmd; ch_statName := None;
                  ch_success := false; ch_error := Some "Stat not found";
                  ch_result := None; ch_commandType := None |} :: cs)
      | Some stat =>
          let (stat', result) :=
            match Standalone.StatParser.type cmd with
            | SET => Standalone.Stat.set stat (Standalone.StatParser.value cmd)
            | _ => Standalone.Stat.modify stat (Standalone.StatParser.value cmd)
            end in
          let (m', cs) :=
            apply_commands
              (Standalone.StatManager.update m (Standalone.StatParser.statId cmd) stat')
              rest in
          (m', {| ch_statId := Standalone.StatParser.statId cmd;
                  ch_statName := Some (Standalone.Stat.name stat');
                  ch_success := true; ch_error := None;
                  ch_result := Some result;
                  ch_commandType := Some (Standalone.StatParser.type cmd) |} :: cs)
      end
  | [] => (m, [])
  end.

(** [processMessage(message)]. *)
Definition processMessage (sm : t) (message : string) : t * Result :=
  match getActiveState sm with
  | None =>
      (sm, {| success := false; res_error := Some "No active state"; changes := [];
              disabled := false; commandCount := None |})
  | Some activeState =>
      if negb (enabled (settings sm))
      then (sm, {| success := true; res_error := None; changes := [];
                   disabled := true; commandCount := None |})
      else
        let commands := Standalone.StatParser.parseValid (parser sm) message in
        let (m', cs) := apply_commands (statManager activeState) commands in
        (setActiveState sm (with_statManager activeState m'),
         {| success := true; res_error := None; changes := cs;
            disabled := false; commandCount := Some (List.length commands) |})
  end.

End StateManager.

End Bundled.

(* ===================================================================== *)
(** * Vocabulary of the statements *)
(* ===================================================================== *)

Module Samples.
Import JS.
Local Open Scope string_scope.

(** Rounding to ten decimal places, the way [SafeMath] does it. *)
Definition round10 (x : num) : num := (Math_round (x * 1e10) / 1e10)%float.

(** [Math.abs(x - y) <= tol]. *)
Definition within (x y tol : num) : bool := le (PrimFloat.abs (x - y)%float) tol.

(** The plain object [{ id, type, value }]. *)
Definition modConfig (i ty : string) (v : num) : StatModifier.Config :=
  {| StatModifier.cfg_id := VStr i; StatModifier.cfg_name := None;
     StatModifier.cfg_statId := VUndefined; StatModifier.cfg_type := VStr ty;
     StatModifier.cfg_value := VNum v; StatModifier.cfg_duration := VUndefined;
     StatModifier.cfg_maxStacks := VUndefined; StatModifier.cfg_currentStacks := VUndefined;
     StatModifier.cfg_source := None; StatModifier.cfg_createdAt := VUndefined;
     StatModifier.cfg_remainingDuration := VUndefined |}.

(** The plain object [{ id, type, value, duration }]. *)
Definition modConfigTimed (i ty : string) (v d : num) : StatModifier.Config :=
  {| StatModifier.cfg_id := VStr i; StatModifier.cfg_name := None;
     StatModifier.cfg_statId := VUndefined; StatModifier.cfg_type := VStr ty;
     StatModifier.cfg_value := VNum v; StatModifier.cfg_duration := VNum d;
     StatModifier.cfg_maxStacks := VUndefined; StatModifier.cfg_currentStacks := VUndefined;
     StatModifier.cfg_source := None; StatModifier.cfg_createdAt := VUndefined;
     StatModifier.cfg_remainingDuration := VUndefined |}.

(** A collection for [hp] with ADD(+10) and MULTIPLY(x1.5), each object
    built at its own moment. *)
Definition collection_add_multiply (e0 e1 e2 : Env) : ModifierCollection.t :=
  let c0 := ModifierCollection.new e0 (VStr "hp") in
  let c1 := fst (ModifierCollection.add e1 c0 (inr (modConfig "buff1" "add" 10%float))) in
  fst (ModifierCollection.add e2 c1 (inr (modConfig "buff2" "multiply" 1.5%float))).

(** The same collection after OVERRIDE(50) has been added. *)
Definition collection_with_override (e0 e1 e2 e3 : Env) : ModifierCollection.t :=
  fst (ModifierCollection.add e3 (collection_add_multiply e0 e1 e2)
         (inr (modConfig "override1" "override" 50%float))).

(** A modifier after [n] calls of [tick()]. *)
Fixpoint ticks (n : nat) (m : StatModifier.t) : StatModifier.t :=
  match n with
  | O => m
  | S n' => ticks n' (fst (StatModifier.tick m))
  end.

(** A collection after [n] calls of [tick()]. *)
Fixpoint collection_ticks (n : nat) (c : ModifierCollection.t) : ModifierCollection.t :=
  match n with
  | O => c
  | S n' => collection_ticks n' (fst (ModifierCollection.tick c))
  end.

(** The collection with one entry deleted. *)
Definition without (c : ModifierCollection.t) (k : string) : ModifierCollection.t :=
  ModifierCollection.with_modifiers c (JsMap.delete (ModifierCollection.modifiers c) k).

(** A modifier by its two duration fields. *)
Definition timed (x : StatModifier.t) (d r : num) : Prop :=
  StatModifier.duration x = d /\ StatModifier.remainingDuration x = r.

(** Serialized modifier data with [maxStacks: 2] and [currentStacks: 5]. *)
Definition overfullData : StatModifier.Config :=
  {| StatModifier.cfg_id := VStr "buff1"; StatModifier.cfg_name := None;
     StatModifier.cfg_statId := VStr "hp"; StatModifier.cfg_type := VStr "add";
     StatModifier.cfg_value := VNum 10%float; StatModifier.cfg_duration := VUndefined;
     StatModifier.cfg_maxStacks := VNum 2%float; StatModifier.cfg_currentStacks := VNum 5%float;
     StatModifier.cfg_source := None; StatModifier.cfg_createdAt := VUndefined;
     StatModifier.cfg_remainingDuration := VUndefined |}.

(** The plain object [{ id, name, baseValue, minValue, maxValue }]. *)
Definition statConfig (i n : string) (base mn mx : num) : Standalone.Stat.Config :=
  {| Standalone.Stat.cfg_id := VStr i; Standalone.Stat.cfg_name := Some n;
     Standalone.Stat.cfg_baseValue := VNum base;
     Standalone.Stat.cfg_currentValue := VUndefined;
     Standalone.Stat.cfg_minValue := VNum mn; Standalone.Stat.cfg_maxValue := VNum mx;
     Standalone.Stat.cfg_color := None; Standalone.Stat.cfg_displayMode := VUndefined;
     Standalone.Stat.cfg_showInUI := VUndefined; Standalone.Stat.cfg_category := None |}.

(** The bounds hold: [minValue <= currentValue <= maxValue]. *)
Definition within_bounds (s : Standalone.Stat.t) : bool :=
  (le (Standalone.Stat.minValue s) (Standalone.Stat.currentValue s)
   && le (Standalone.Stat.currentValue s) (Standalone.Stat.maxValue s))%bool.

(** One call of [modify] or [set]. *)
Inductive mutation : Type :=
  | Modify (delta : num)
  | Assign (value : num).

Definition mutate (s : Standalone.Stat.t) (op : mutation) : Standalone.Stat.t :=
  match op with
  | Modify delta => fst (Standalone.Stat.modify s delta)
  | Assign value => fst (Standalone.Stat.set s value)
  end.

Definition finite_argument (op : mutation) : bool :=
  match op with
  | Modify delta => isFinite delta
  | Assign value => isFinite value
  end.

(** The default parser of the Parser module, and the bundled one. *)
Definition defaultParser : StatParser.t := StatParser.new StatParser.noOptions.
Definition bundledParser : Standalone.StatParser.t :=
  Standalone.StatParser.new Standalone.StatParser.noOptions.

(** A parser built with [caseSensitive: false]. *)
Definition caseInsensitiveParser : StatParser.t :=
  StatParser.new {| StatParser.opt_openTag := None; StatParser.opt_closeTag := None;
                    StatParser.opt_separator := None;
                    StatParser.opt_caseSensitive := VBool false |}.

(** What the two parsers are compared on: id, value and type of each
    command. *)
Definition command_view (c : StatParser.ParsedCommand) : string * num * ParseResultType :=
  (StatParser.statId c, StatParser.value c, StatParser.type c).

Definition bundled_view (c : Standalone.StatParser.Command) : string * num * ParseResultType :=
  (Standalone.StatParser.statId c, Standalone.StatParser.value c,
   Standalone.StatParser.type c).

(** A manager of the bundled extension with the stat [hp], 100 out of
    100 within [0, 100]. *)
Definition hpManager (env : Env) : Standalone.StatManager.t :=
  fst (Standalone.StatManager.add env Standalone.StatManager.new
         (inr (statConfig "hp" "HP" 100%float 0%float 100%float))).

(** A state manager, enabled, whose current state owns the given stats
    and whose parser is the default one. *)
Definition managerWith {Manager : Type} (stats : Manager) : StateManager.t :=
  {| StateManager.currentState :=
       Some {| StateManager.sim_id := "sim"; StateManager.sim_name := "New Simulation";
               StateManager.createdAt := 0%float; StateManager.updatedAt := 0%float;
               StateManager.turnCount := 0%float; StateManager.statManager := stats |};
     StateManager.globalState := None;
     StateManager.settings := {| StateManager.enabled := true;
                                 StateManager.stateScope := PER_CHAT |};
     StateManager.parser := defaultParser |}.

(** The stats of the active state. *)
Definition activeStats {Manager : Type} (sm : @StateManager.t Manager) : option Manager :=
  option_map StateManager.statManager (StateManager.getActiveState sm).

(** What one command does to the stats: nothing when the stat is not
    there, [set] or [modify] on it otherwise. *)
Definition apply_command {Manager Stat : Type} {api : StatApi Manager Stat}
      (m : Manager) (cmd : StatParser.ParsedCommand) : Manager :=
  match manager_get m (StatParser.statId cmd) with
  | None => m
  | Some stat =>
      manager_update m (StatParser.statId cmd)
        (fst (match StatParser.type cmd with
              | SET => stat_set stat (StatParser.value cmd)
              | _ => stat_modify stat (StatParser.value cmd)
              end))
  end.

(** The two parsers return the same commands for a text. *)
Definition parsers_agree (text : string) : Prop :=
  map command_view (StatParser.parseValid defaultParser text)
  = map bundled_view (Standalone.StatParser.parseValid bundledParser text).

(** The text stops being in the class [p]: it is empty or starts with a
    character outside it. *)
Definition stops (p : ascii -> bool) (s : list ascii) : Prop :=
  match s with
  | [] => True
  | c :: _ => p c = false
  end.

(** The sign characters a command token can carry in front of the digits
    of its value: nothing, [=], [+], [-], [=-], [+-] or [--].  These are
    the ones the value part of the pattern of the Parser module takes when
    there is no white space. *)
Inductive token_sign : Type :=
  | SignNone | SignSet | SignPlus | SignMinus | SignSetMinus | SignPlusMinus | SignMinusMinus.

Definition sign_chars (sg : token_sign) : list ascii :=
  chars match sg with
        | SignNone => ""
        | SignSet => "="
        | SignPlus => "+"
        | SignMinus => "-"
        | SignSetMinus => "=-"
        | SignPlusMinus => "+-"
        | SignMinusMinus => "--"
        end.

(** A command token without white space: an id, the sign characters, the
    digits of the integer part and, possibly, the digits of a fraction. *)
Record token : Type := {
    tk_first : ascii;
    tk_rest : list ascii;
    tk_sign : token_sign;
    tk_digit : ascii;
    tk_digits : list ascii;
    tk_fraction : option (ascii * list ascii)
  }.

Definition token_id (t : token) : list ascii := tk_first t :: tk_rest t.

Definition fraction_chars (f : option (ascii * list ascii)) : list ascii :=
  match f with
  | Some (d, ds) => chr 46 :: d :: ds
  | None => []
  end.

Definition token_number (t : token) : list ascii :=
  (tk_digit t :: tk_digits t ++ fraction_chars (tk_fraction t))%list.

Definition token_value (t : token) : list ascii :=
  (sign_chars (tk_sign t) ++ token_number t)%list.

(** What stands between the tags: the id, the separator, the value. *)
Definition token_content (t : token) : list ascii :=
  (token_id t ++ chars ":" ++ token_value t)%list.

(** The text of the token under the default tags and separator. *)
Definition token_chars (t : token) : list ascii :=
  (chars "{{" ++ token_id t ++ chars ":" ++ token_value t ++ chars "}}")%list.

Definition token_text (t : token) : string := str (token_chars t).

(** The id follows the grammar [A-Za-z_][A-Za-z0-9_-]* and the digits are
    digits. *)
Definition token_ok (t : token) : bool :=
  (StatParser.is_id_start (tk_first t)
   && forallb StatParser.is_id_rest (tk_rest t)
   && is_digit (tk_digit t)
   && forallb is_digit (tk_digits t)
   && match tk_fraction t with
      | Some (d, ds) => is_digit d && forallb is_digit ds
      | None => true
      end)%bool.

(** The type of the command a token stands for. *)
Definition token_type (t : token) : ParseResultType :=
  match tk_sign t with
  | SignSet | SignSetMinus => SET
  | _ => MODIFY
  end.

(** The numeral of a token: its value without the [=]. *)
Definition token_numeral (t : token) : list ascii :=
  (chars match tk_sign t with
         | SignNone | SignSet => ""
         | SignPlus => "+"
         | SignMinus | SignSetMinus => "-"
         | SignPlusMinus => "+-"
         | SignMinusMinus => "--"
         end ++ token_number t)%list.

(** What reading the numeral as a decimal literal gives. *)
Definition token_reading (t : token) : option (num * list ascii) :=
  read_decimal (token_numeral t).

(** The commands with a finite value. *)
Definition finite_views (l : list (string * num * ParseResultType))
    : list (string * num * ParseResultType) :=
  filter (fun v => isFinite (snd (fst v))) l.

Definition no_space (c : ascii) : bool := negb (is_space c).

(** The token "{{hp:-10.5}}". *)
Definition sampleToken : token :=
  {| tk_first := "h"%char; tk_rest := ["p"%char]; tk_sign := SignMinus;
     tk_digit := "1"%char; tk_digits := ["0"%char];
     tk_fraction := Some ("5"%char, []) |}.

(** A token whose digits stand for a number above the largest finite
    Number: 1 followed by 400 zeros. *)
Definition overflowToken : token :=
  {| tk_first := "h"%char; tk_rest := ["p"%char]; tk_sign := SignNone;
     tk_digit := "1"%char; tk_digits := repeat "0"%char 400;
     tk_fraction := None |}.

(** The sign characters of a token as the value part of the pattern of
    the Parser module takes them: the operator, one of [=], [+] and [-]
    or nothing, and after it a minus or nothing. *)
Definition sign_operator (sg : token_sign) : list ascii :=
  chars match sg with
        | SignNone => ""
        | SignSet | SignSetMinus => "="
        | SignPlus | SignPlusMinus => "+"
        | SignMinus | SignMinusMinus => "-"
        end.

Definition sign_minus (sg : token_sign) : list ascii :=
  chars match sg with
        | SignSetMinus | SignPlusMinus | SignMinusMinus => "-"
        | _ => ""
        end.

(** A command token with white space at the five places where the
    pattern of the Parser module has [\s*]: after the open tag, after the
    id, after the separator, after the operator of the value, and in
    front of the close tag. *)
Record spaced : Type := {
    sp_token : token;
    sp_open : list ascii;
    sp_id : list ascii;
    sp_separator : list ascii;
    sp_operator : list ascii;
    sp_close : list ascii
  }.

(** The value with its white space: what the second group of the
    pattern captures. *)
Definition spaced_value (w : spaced) : list ascii :=
  (sign_operator (tk_sign (sp_token w)) ++ sp_operator w
   ++ sign_minus (tk_sign (sp_token w)) ++ token_number (sp_token w))%list.

(** What stands between the tags. *)
Definition spaced_content (w : spaced) : list ascii :=
  (sp_open w ++ token_id (sp_token w) ++ sp_id w ++ chars ":"
   ++ sp_separator w ++ spaced_value w ++ sp_close w)%list.

(** The text of the token under the default tags and separator. *)
Definition spaced_chars (w : spaced) : list ascii :=
  (chars "{{" ++ spaced_content w ++ chars "}}")%list.

(** White space after the operator: none after a lone [+] or [-], where
    the Parser module deletes it and reads the number while [parseFloat]
    stops at it; none where there is no operator, the white space after
    the separator standing for it. *)
Definition operator_space_ok (w : spaced) : bool :=
  match tk_sign (sp_token w), sp_operator w with
  | (SignNone | SignPlus | SignMinus), _ :: _ => false
  | _, _ => true
  end.

Definition spaced_ok (w : spaced) : bool :=
  (token_ok (sp_token w)
   && forallb is_space (sp_open w) && forallb is_space (sp_id w)
   && forallb is_space (sp_separator w) && forallb is_space (sp_operator w)
   && forallb is_space (sp_close w)
   && operator_space_ok w)%bool.

(** Every character but the opening brace. *)
Definition no_brace (c : ascii) : bool := negb (Ascii.eqb (chr 123) c).

(** A text in which no open tag starts and at whose end none can
    start: an opening brace in it is followed by a character other than
    an opening brace. *)
Fixpoint prose_ok (l : list ascii) : bool :=
  match l with
  | c :: l' =>
      ((no_brace c || match l' with
                      | c' :: _ => no_brace c'
                      | [] => false
                      end)
       && prose_ok l')%bool
  | [] => true
  end.

(** A text with command tokens in it: each token with the text in front
    of it, and the text after the last one. *)
Fixpoint script_chars (parts : list (list ascii * spaced)) (last : list ascii)
    : list ascii :=
  match parts with
  | (prose, w) :: parts' => (prose ++ spaced_chars w ++ script_chars parts' last)%list
  | [] => last
  end.

(** The tokens follow the grammar and no open tag starts in the text
    around them. *)
Definition script_ok (parts : list (list ascii * spaced)) (last : list ascii) : bool :=
  (forallb (fun pw => prose_ok (fst pw) && spaced_ok (snd pw)) parts
   && prose_ok last)%bool.

(** The command a token stands for, as id, value and type: the one its
    numeral reads as, when that is a finite Number ([finite_only]) or any
    Number. *)
Definition token_views (finite_only : bool) (t : token)
    : list (string * num * ParseResultType) :=
  match token_reading t with
  | Some (x, _) =>
      if (if finite_only then isFinite x else negb (isNaN x))
      then [(toLowerCase (str (token_id t)), x, token_type t)]
      else []
  | None => []
  end.

(** The text "Ouch {x}! {{ HP : = -10.5 }} and then {{mp:+5}}." *)
Definition sampleScript : list (list ascii * spaced) :=
  [ (chars "Ouch {x}! ",
     {| sp_token := {| tk_first := "H"%char; tk_rest := ["P"%char];
                       tk_sign := SignSetMinus;
                       tk_digit := "1"%char; tk_digits := ["0"%char];
                       tk_fraction := Some ("5"%char, []) |};
        sp_open := chars " "; sp_id := chars " "; sp_separator := chars " ";
        sp_operator := chars " "; sp_close := chars " " |});
    (chars " and then ",
     {| sp_token := {| tk_first := "m"%char; tk_rest := ["p"%char];
                       tk_sign := SignPlus;
                       tk_digit := "5"%char; tk_digits := [];
                       tk_fraction := None |};
        sp_open := []; sp_id := []; sp_separator := [];
        sp_operator := []; sp_close := [] |}) ].

(** A moment: some clock value and some output of the random source. *)
Definition env0 : Env := {| now := 1700000000000; random36 := "0.k3j5h2l9x8" |}.

End Samples.

(** Shapes of identifiers, stats and presets. *)
Module Shapes.
Import JS Utils.
Local Open Scope string_scope.

(** The text starts with an underscore. *)
Definition starts_underscore (l : list ascii) : bool :=
  match l with
  | c :: _ => is_underscore c
  | [] => false
  end.

(** Two underscores in a row somewhere in the text. *)
Fixpoint double_underscore (l : list ascii) : bool :=
  match l with
  | c :: l' => ((is_underscore c && starts_underscore l') || double_underscore l')%bool
  | [] => false
  end.

(** An underscore at the start or at the end of the text. *)
Definition edge_underscore (l : list ascii) : bool :=
  (starts_underscore l || starts_underscore (rev l))%bool.

(** A stat of the bundled extension at rest: finite bounds in order and
    the current value within them. *)
Definition settled (s : Standalone.Stat.t) : bool :=
  (isFinite (Standalone.Stat.minValue s) && isFinite (Standalone.Stat.maxValue s)
   && le (Standalone.Stat.minValue s) (Standalone.Stat.maxValue s)
   && Samples.within_bounds s)%bool.

(** A state manager of the bundled extension, enabled, whose current
    state owns the given stats and whose parser is the default one. *)
Definition bundledManagerWith (stats : Standalone.StatManager.t)
    : Bundled.StateManager.t :=
  {| Bundled.StateManager.currentState :=
       Some {| Bundled.StateManager.sim_id := "sim";
               Bundled.StateManager.sim_name := "New Simulation";
               Bundled.StateManager.createdAt := 0%float;
               Bundled.StateManager.updatedAt := 0%float;
               Bundled.StateManager.turnCount := 0%float;
               Bundled.StateManager.statManager := stats |};
     Bundled.StateManager.globalState := None;
     Bundled.StateManager.settings :=
       {| Bundled.StateManager.enabled := true;
          Bundled.StateManager.stateScope := PER_CHAT |};
     Bundled.StateManager.parser := Samples.bundledParser |}.

(** A preset as it is stored: under its id, which is not blank, and with
    its two timestamps set. *)
Definition stored_preset {S : Type} (e : string * StatPreset.t S) : Prop :=
  fst e = StatPreset.id (snd e)
  /\ isNonEmptyString (VStr (StatPreset.id (snd e))) = true
  /\ truthy (StatPreset.createdAt (snd e)) = true
  /\ truthy (StatPreset.updatedAt (snd e)) = true.

(** The text holds a digit. *)
Definition holds_digit (v : list ascii) : Prop :=
  exists a d b, v = (a ++ d :: b)%list /\ is_digit d = true.

End Shapes.

(* ===================================================================== *)
(** * Facts about Numbers *)
(* ===================================================================== *)

Module NumFacts.
Import JS.

Lemma SFltb_trans (x y z : spec_float) :
  SFltb x y = true -> SFltb y z = true -> SFltb x z = true.
Proof.
  unfold SFltb.
  destruct x as [sx|sx| |sx mx ex], y as [sy|sy| |sy my ey], z as [sz|sz| |sz mz ez];
    simpl; try discriminate; try reflexivity;
    try (destruct sx; simpl; try discriminate; try reflexivity);
    try (destruct sy; simpl; try discriminate; try reflexivity);
    try (destruct sz; simpl; try discriminate; try reflexivity).
  all: destruct (Z.compare_spec ex ey), (Z.compare_spec ey ez), (Z.compare_spec ex ez);
    try discriminate; try reflexivity; try lia; subst.
  all: rewrite ?Pos.compare_cont_spec; simpl;
    destruct (Pos.compare_spec mx my), (Pos.compare_spec my mz), (Pos.compare_spec mx mz);
    simpl; try discriminate; try reflexivity; lia.
Qed.

Lemma SFcompare_refl (s : bool) (m : positive) (e : Z) :
  SFcompare (S754_finite s m e) (S754_finite s m e) = Some Eq.
Proof. simpl. destruct s; now rewrite Z.compare_refl, Pos.compare_cont_refl. Qed.

Lemma SFltb_irrefl (x : spec_float) : SFltb x x = false.
Proof.
  destruct x as [s|s| |s m e]; try reflexivity; try (destruct s; reflexivity).
  unfold SFltb. now rewrite SFcompare_refl.
Qed.

Lemma gt_trans (x y z : num) : gt x y = true -> gt y z = true -> gt x z = true.
Proof.
  unfold gt. rewrite !ltb_spec. intros H1 H2. exact (SFltb_trans _ _ _ H2 H1).
Qed.

Lemma gt_irrefl (x : num) : gt x x = false.
Proof. unfold gt. rewrite ltb_spec. apply SFltb_irrefl. Qed.

Lemma SFsub_opp (x y : spec_float) :
  SFsub prec emax x (SFopp y) = SFadd prec emax x y.
Proof.
  destruct x as [sx|sx| |sx mx ex], y as [sy|sy| |sy my ey]; simpl; try reflexivity;
    destruct sx, sy; reflexivity.
Qed.

Lemma sub_opp (a b : num) : (a - (- b))%float = (a + b)%float.
Proof.
  apply Prim2SF_inj. rewrite sub_spec, add_spec, opp_spec. apply SFsub_opp.
Qed.

Lemma isNaN_opp (x : num) : isNaN (- x)%float = isNaN x.
Proof.
  unfold isNaN, PrimFloat.is_nan. rewrite !FloatAxioms.eqb_spec, opp_spec.
  destruct (Prim2SF x) as [s|s| |s m e]; simpl; try reflexivity; destruct s;
    try reflexivity; unfold SFeqb; now rewrite !SFcompare_refl.
Qed.

Lemma abs_opp (x : num) : PrimFloat.abs (- x)%float = PrimFloat.abs x.
Proof.
  apply Prim2SF_inj. rewrite !abs_spec, opp_spec.
  destruct (Prim2SF x); reflexivity.
Qed.

Lemma isFinite_opp (x : num) : isFinite (- x)%float = isFinite x.
Proof.
  unfold isFinite, PrimFloat.is_finite, PrimFloat.is_infinity.
  fold (isNaN (- x)%float). fold (isNaN x). now rewrite isNaN_opp, abs_opp.
Qed.

Lemma toNumber_finite (x d : num) :
  isFinite x = true -> Utils.toNumber (VNum x) d = x.
Proof. intros H. unfold Utils.toNumber. simpl. now rewrite H. Qed.

End NumFacts.

(* ===================================================================== *)
(** * SafeMath *)
(* ===================================================================== *)

Section SafeMathFacts.
Import JS Utils Samples NumFacts.
Local Open Scope float_scope.

Lemma add_rounds (a b : num) :
  isFinite a = true -> isFinite b = true -> SafeMath.add a b = round10 (a + b).
Proof.
  intros Ha Hb. unfold SafeMath.add, round10. now rewrite !toNumber_finite.
Qed.

Lemma subtract_rounds (a b : num) :
  isFinite a = true -> isFinite b = true -> SafeMath.subtract a b = round10 (a - b).
Proof.
  intros Ha Hb. unfold SafeMath.subtract, round10. now rewrite !toNumber_finite.
Qed.

Lemma multiply_rounds (a b : num) :
  isFinite a = true -> isFinite b = true -> SafeMath.multiply a b = round10 (a * b).
Proof.
  intros Ha Hb. unfold SafeMath.multiply, round10. now rewrite !toNumber_finite.
Qed.

Lemma divide_rounds (a b d : num) :
  isFinite a = true -> isFinite b = true -> seq b 0 = false ->
  SafeMath.divide a b d = round10 (a / b).
Proof.
  intros Ha Hb Hz. unfold SafeMath.divide, round10.
  rewrite (toNumber_finite a), (toNumber_finite b) by assumption. now rewrite Hz.
Qed.

Lemma divide_by_zero (a d : num) :
  isFinite d = true -> SafeMath.divide a 0 d = d /\ SafeMath.divide a (-0) d = d.
Proof.
  intros H. unfold SafeMath.divide. rewrite (toNumber_finite d _ H).
  rewrite (toNumber_finite 0), (toNumber_finite (-0)) by reflexivity.
  split; reflexivity.
Qed.

Lemma add_is_subtract_opp (a b : num) :
  isFinite b = true -> SafeMath.add a b = SafeMath.subtract a (- b).
Proof.
  intros Hb. unfold SafeMath.add, SafeMath.subtract, toNumber. simpl.
  rewrite isFinite_opp, Hb. simpl. now rewrite sub_opp.
Qed.

(** C7, as the specification states it, fails: [add(1, 1)] is [2] and
    [subtract(1 + 1, 1)] is [1]; the two are not within [1e-9] of each
    other. *)
Lemma C7_add_subtract_counterexample :
  ~ (forall a b : num, isFinite a = true -> isFinite b = true ->
       within (SafeMath.add a b) (SafeMath.subtract (a + b) b) 1e-9 = true).
Proof.
  intros H. specialize (H 1 1 eq_refl eq_refl). vm_compute in H. discriminate.
Qed.

(** C7 (amended): for finite [a] and [b], [SafeMath.add(a, b)] is
    [SafeMath.subtract(a, -b)]; [add(1, 1)] is [2] while
    [subtract(1 + 1, 1)] is [1], and [subtract(0.1 + 1e8, 1e8)] is not
    within [1e-9] of [0.1] either; [add(0.1, 0.2)] is exactly [0.3]; each
    operation computes on its operands and rounds to ten decimal places
    (times [1e10], [Math.round], divided by [1e10]); and [divide] with a
    zero divisor returns the finite default the caller supplied. *)
Theorem C7_SafeMath (a b d : num) :
  isFinite a = true -> isFinite b = true -> isFinite d = true ->
  SafeMath.add a b = SafeMath.subtract a (- b)
  /\ (SafeMath.add 1 1 = 2 /\ SafeMath.subtract (1 + 1) 1 = 1)
  /\ within (SafeMath.subtract (0.1 + 1e8) 1e8) 0.1 1e-9 = false
  /\ SafeMath.add 0.1 0.2 = 0.3
  /\ SafeMath.add a b = round10 (a + b)
  /\ SafeMath.subtract a b = round10 (a - b)
  /\ SafeMath.multiply a b = round10 (a * b)
  /\ (seq b 0 = false -> SafeMath.divide a b d = round10 (a / b))
  /\ SafeMath.divide a 0 d = d
  /\ SafeMath.divide a (-0) d = d.
Proof.
  intros Ha Hb Hd.
  split; [now apply add_is_subtract_opp|].
  split; [split; reflexivity|].
  split; [vm_compute; reflexivity|].
  split; [reflexivity|].
  split; [now apply add_rounds|].
  split; [now apply subtract_rounds|].
  split; [now apply multiply_rounds|].
  split; [intros Hz; now apply divide_rounds|].
  now apply divide_by_zero.
Qed.

Lemma C7_SafeMath_witness :
  SafeMath.add 10 3 = SafeMath.subtract 10 (- 3)
  /\ SafeMath.divide 10 3 0 = round10 (10 / 3)
  /\ SafeMath.divide 10 0 (-1) = -1.
Proof.
  pose proof (C7_SafeMath 10 3 (-1) eq_refl eq_refl eq_refl) as H.
  destruct H as (H1 & _ & _ & _ & _ & _ & _ & H7 & H8 & _).
  split; [exact H1|]. split; [|exact H8].
  pose proof (C7_SafeMath 10 3 0 eq_refl eq_refl eq_refl) as H.
  destruct H as (_ & _ & _ & _ & _ & _ & _ & H7' & _). apply H7'. reflexivity.
Defined.

End SafeMathFacts.

(* ===================================================================== *)
(** * Order and rounding of Numbers *)
(* ===================================================================== *)

Section OrderFacts.
Import JS NumFacts.

Lemma isNaN_spec (x : num) :
  isNaN x = match Prim2SF x with S754_nan => true | _ => false end.
Proof.
  unfold isNaN, PrimFloat.is_nan. rewrite FloatAxioms.eqb_spec.
  destruct (Prim2SF x) as [s|s| |s m e]; try reflexivity; try (destruct s; reflexivity).
  unfold SFeqb. now rewrite SFcompare_refl.
Qed.

Lemma isFinite_spec (x : num) :
  isFinite x = match Prim2SF x with
               | S754_zero _ | S754_finite _ _ _ => true
               | _ => false
               end.
Proof.
  unfold isFinite, PrimFloat.is_finite, PrimFloat.is_infinity.
  fold (isNaN x). rewrite isNaN_spec, FloatAxioms.eqb_spec, abs_spec.
  change (Prim2SF infinity) with (S754_infinity false).
  destruct (Prim2SF x) as [s|s| |s m e]; reflexivity.
Qed.

Lemma isFinite_not_NaN (x : num) : isFinite x = true -> isNaN x = false.
Proof.
  rewrite isFinite_spec, isNaN_spec. destruct (Prim2SF x); congruence.
Qed.

Lemma SFcompare_antisym (x y : spec_float) (c : comparison) :
  SFcompare x y = Some c -> SFcompare y x = Some (CompOpp c).
Proof.
  destruct x as [sx|sx| |sx mx ex], y as [sy|sy| |sy my ey]; simpl;
    intros H; inversion H; clear H; subst;
    try reflexivity; try (destruct sx; reflexivity); try (destruct sy; reflexivity);
    try (destruct sx, sy; reflexivity).
  rewrite (Z.compare_antisym ex ey).
  destruct sx, sy; simpl; try reflexivity;
    destruct (ex ?= ey); simpl; try reflexivity;
    now rewrite ?Pos.compare_cont_antisym, ?CompOpp_involutive.
Qed.

Lemma SFleb_refl (x : spec_float) : x <> S754_nan -> SFleb x x = true.
Proof.
  unfold SFleb. destruct x as [s|s| |s m e]; intros H; try reflexivity;
    try (destruct s; reflexivity); try congruence.
  now rewrite SFcompare_refl.
Qed.

Lemma SFltb_leb (x y : spec_float) : SFltb x y = true -> SFleb x y = true.
Proof. unfold SFltb, SFleb. destruct (SFcompare x y) as [[]|]; congruence. Qed.

Lemma SFcompare_some (x y : spec_float) :
  x <> S754_nan -> y <> S754_nan -> exists c, SFcompare x y = Some c.
Proof.
  destruct x, y; simpl; intros; try congruence; eauto.
Qed.

Lemma SFleb_total (x y : spec_float) :
  x <> S754_nan -> y <> S754_nan -> SFltb y x = false -> SFleb x y = true.
Proof.
  intros Hx Hy. destruct (SFcompare_some y x Hy Hx) as [c Hc].
  unfold SFltb, SFleb. rewrite Hc, (SFcompare_antisym _ _ _ Hc).
  destruct c; simpl; congruence.
Qed.

Lemma not_NaN (x : num) : isNaN x = false -> Prim2SF x <> S754_nan.
Proof. rewrite isNaN_spec. destruct (Prim2SF x); congruence. Qed.

Lemma le_refl (x : num) : isNaN x = false -> le x x = true.
Proof. intros H. unfold le. rewrite leb_spec. apply SFleb_refl, not_NaN, H. Qed.

Lemma lt_le (x y : num) : lt x y = true -> le x y = true.
Proof. unfold lt, le. rewrite ltb_spec, leb_spec. apply SFltb_leb. Qed.

Lemma not_lt_le (x y : num) :
  isNaN x = false -> isNaN y = false -> lt y x = false -> le x y = true.
Proof.
  unfold lt, le. rewrite ltb_spec, leb_spec. intros Hx Hy.
  apply SFleb_total; now apply not_NaN.
Qed.

Lemma le_not_NaN (x y : num) : le x y = true -> isNaN x = false /\ isNaN y = false.
Proof.
  unfold le. rewrite leb_spec, !isNaN_spec. unfold SFleb.
  destruct (Prim2SF x), (Prim2SF y); simpl; try discriminate; auto.
Qed.

(** [Math.min] of two Numbers that are not NaN is one of them and at
    most each of them. *)
Lemma Math_min_spec (a b : num) :
  isNaN a = false -> isNaN b = false ->
  (Math_min a b = a \/ Math_min a b = b)
  /\ le (Math_min a b) a = true /\ le (Math_min a b) b = true.
Proof.
  intros Ha Hb. unfold Math_min. rewrite Ha, Hb. simpl.
  fold (lt a b). fold (lt b a).
  destruct (lt a b) eqn:Hab.
  { repeat split; auto using le_refl, lt_le. }
  destruct (lt b a) eqn:Hba.
  { repeat split; auto using le_refl, lt_le. }
  destruct (get_sign a); repeat split; auto using le_refl, not_lt_le.
Qed.

Lemma Math_max_spec (a b : num) :
  isNaN a = false -> isNaN b = false ->
  (Math_max a b = a \/ Math_max a b = b)
  /\ le a (Math_max a b) = true /\ le b (Math_max a b) = true.
Proof.
  intros Ha Hb. unfold Math_max. rewrite Ha, Hb. simpl.
  fold (lt a b). fold (lt b a).
  destruct (lt a b) eqn:Hab.
  { repeat split; auto using le_refl, lt_le. }
  destruct (lt b a) eqn:Hba.
  { repeat split; auto using le_refl, lt_le. }
  destruct (get_sign a); repeat split; auto using le_refl, not_lt_le.
Qed.

(** Clamping: [Math.max(lo, Math.min(hi, v))] lies between [lo] and
    [hi] when [lo <= hi] and [v] is not NaN. *)
Lemma clamp_within (lo hi v : num) :
  le lo hi = true -> isNaN v = false ->
  let r := Math_max lo (Math_min hi v) in
  isNaN r = false /\ le lo r = true /\ le r hi = true.
Proof.
  intros Hle Hv r. destruct (le_not_NaN _ _ Hle) as [Hlo Hhi].
  destruct (Math_min_spec hi v Hhi Hv) as (Hmin & Hmin1 & _).
  assert (Hm : isNaN (Math_min hi v) = false) by (destruct Hmin as [->| ->]; assumption).
  destruct (Math_max_spec lo (Math_min hi v) Hlo Hm) as (Hmax & Hmax1 & _).
  subst r. repeat split; auto.
  - destruct Hmax as [->| ->]; assumption.
  - destruct Hmax as [->| ->]; assumption.
Qed.

End OrderFacts.

Section RoundingFacts.
Import JS NumFacts.

Lemma shr_1_nonneg (mrs : shr_record) : 0 <= shr_m mrs -> 0 <= shr_m (shr_1 mrs).
Proof.
  destruct mrs as [m r s]. destruct m as [|p|p]; simpl; try lia;
    destruct p; simpl; lia.
Qed.

Lemma iter_shr_1_nonneg (p : positive) :
  forall mrs, 0 <= shr_m mrs -> 0 <= shr_m (iter_pos shr_1 p mrs).
Proof.
  induction p as [p IH|p IH|]; simpl; intros mrs H; auto using shr_1_nonneg.
Qed.

Lemma shr_fexp_nonneg (m e : Z) (l : location) :
  0 <= m -> 0 <= shr_m (fst (shr_fexp prec emax m e l)).
Proof.
  intros H. unfold shr_fexp, shr.
  assert (H0 : 0 <= shr_m (shr_record_of_loc m l))
    by (destruct l as [|[]]; exact H).
  destruct (fexp prec emax (Zdigits2 m + e) - e); simpl; auto using iter_shr_1_nonneg.
Qed.

Lemma round_nearest_even_nonneg (m : Z) (l : location) :
  0 <= m -> 0 <= round_nearest_even m l.
Proof.
  intros H. unfold round_nearest_even. destruct l as [|[]]; try lia.
  destruct (Z.even m); lia.
Qed.

Lemma binary_round_aux_not_nan (sx : bool) (mx ex : Z) (lx : location) :
  0 <= mx -> binary_round_aux prec emax sx mx ex lx <> S754_nan.
Proof.
  intros H. unfold binary_round_aux.
  pose proof (shr_fexp_nonneg mx ex lx H) as H1.
  destruct (shr_fexp prec emax mx ex lx) as [mrs' e']. simpl in H1.
  pose proof (shr_fexp_nonneg _ e' loc_Exact
                (round_nearest_even_nonneg _ (loc_of_shr_record mrs') H1)) as H2.
  destruct (shr_fexp prec emax _ e' loc_Exact) as [mrs'' e'']. simpl in H2.
  destruct (shr_m mrs''); try lia; try discriminate.
  destruct (e'' <=? emax - prec); discriminate.
Qed.

Lemma binary_round_not_nan (sx : bool) (mx : positive) (ex : Z) :
  binary_round prec emax sx mx ex <> S754_nan.
Proof.
  unfold binary_round. destruct (shl_align mx ex _) as [mz ez].
  apply binary_round_aux_not_nan. lia.
Qed.

Lemma binary_normalize_not_nan (m e : Z) (szero : bool) :
  binary_normalize prec emax m e szero <> S754_nan.
Proof.
  unfold binary_normalize. destruct m; try discriminate; apply binary_round_not_nan.
Qed.

(** A sum is NaN only if an operand is NaN or both are infinite. *)
Lemma SFadd_not_nan (x y : spec_float) :
  x <> S754_nan -> y <> S754_nan ->
  (forall s, x <> S754_infinity s) \/ (forall s, y <> S754_infinity s) ->
  SFadd prec emax x y <> S754_nan.
Proof.
  intros Hx Hy Hf.
  destruct x as [sx|sx| |sx mx ex], y as [sy|sy| |sy my ey]; simpl; try congruence;
    try (destruct sx, sy; discriminate).
  - destruct Hf as [Hf|Hf]; now elim (Hf _ eq_refl).
  - apply binary_normalize_not_nan.
Qed.

Lemma SFsub_not_nan (x y : spec_float) :
  x <> S754_nan -> y <> S754_nan ->
  (forall s, x <> S754_infinity s) \/ (forall s, y <> S754_infinity s) ->
  SFsub prec emax x y <> S754_nan.
Proof.
  intros Hx Hy Hf.
  destruct x as [sx|sx| |sx mx ex], y as [sy|sy| |sy my ey]; simpl; try congruence;
    try (destruct sx, sy; discriminate).
  - destruct Hf as [Hf|Hf]; now elim (Hf _ eq_refl).
  - apply binary_normalize_not_nan.
Qed.

Lemma is_NaN (x : num) : Prim2SF x <> S754_nan -> isNaN x = false.
Proof. rewrite isNaN_spec. destruct (Prim2SF x); congruence. Qed.

Lemma finite_not_infinity (x : num) :
  isFinite x = true -> forall s, Prim2SF x <> S754_infinity s.
Proof. rewrite isFinite_spec. destruct (Prim2SF x); congruence. Qed.

(** [a + b] is a Number when one of the two is finite and the other is
    not NaN. *)
Lemma add_not_NaN (a b : num) :
  isNaN a = false -> isFinite b = true -> isNaN (a + b)%float = false.
Proof.
  intros Ha Hb. apply is_NaN. rewrite add_spec.
  apply SFadd_not_nan; auto using not_NaN, isFinite_not_NaN, finite_not_infinity.
Qed.

Lemma sub_not_NaN (a b : num) :
  isFinite a = true -> isNaN b = false -> isNaN (a - b)%float = false.
Proof.
  intros Ha Hb. apply is_NaN. rewrite sub_spec.
  apply SFsub_not_nan; auto using not_NaN, isFinite_not_NaN, finite_not_infinity.
Qed.

(** The float of a specification value that is not NaN is not NaN. *)
Lemma SF2Prim_not_nan (r : spec_float) :
  r <> S754_nan -> Prim2SF (SF2Prim r) <> S754_nan.
Proof.
  destruct r as [s|s| |s m e]; intros H; try congruence;
    try (destruct s; vm_compute; discriminate).
  unfold SF2Prim, Z.ldexp.
  set (f := ldshiftexp _ _).
  assert (Hf : Prim2SF f <> S754_nan).
  { subst f. rewrite ldshiftexp_spec, of_uint63_spec. unfold SFldexp.
    pose proof (binary_normalize_not_nan
                  (Uint63Axioms.to_Z (Uint63Axioms.of_Z (Z.pos m))) 0 false) as Hn.
    destruct (binary_normalize prec emax _ 0 false); try congruence.
    apply binary_round_not_nan. }
  destruct s; auto. rewrite opp_spec. destruct (Prim2SF f); simpl; congruence.
Qed.

Lemma ofZ_not_NaN (z : Z) : isNaN (ofZ z) = false.
Proof. apply is_NaN, SF2Prim_not_nan, binary_normalize_not_nan. Qed.

Lemma Math_floor_not_NaN (x : num) : isNaN x = false -> isNaN (Math_floor x) = false.
Proof.
  intros H. unfold Math_floor. destruct (Prim2SF x) as [s|s| |s m e]; auto.
  destruct (0 <=? e); auto. destruct (_ =? 0); auto using ofZ_not_NaN.
Qed.

End RoundingFacts.


(* ===================================================================== *)
(** * ModifierCollection.applyAll *)
(* ===================================================================== *)

Section ApplyAllFacts.
Import JS Utils Samples NumFacts.
Local Open Scope float_scope.

Let created := StatModifier.createdAt.

(** The reduction over the override modifiers ends on a modifier that no
    other one is later than. *)
Lemma latest_override_spec (rest : list StatModifier.t) :
  forall latest : StatModifier.t,
    let r := ModifierCollection.latest_override latest rest in
    In r (latest :: rest)
    /\ (r = latest \/ gt (created r) (created latest) = true)
    /\ (forall o, In o rest -> gt (created o) (created r) = false).
Proof.
  induction rest as [|c rest IH]; intros latest; simpl.
  - split; [now left|]. split; [now left|]. intros o [].
  - set (l' := if gt (StatModifier.createdAt c) (StatModifier.createdAt latest)
               then c else latest).
    destruct (IH l') as (Hin & Hup & Hmax).
    set (r := ModifierCollection.latest_override l' rest) in *.
    assert (Hl' : l' = c /\ gt (created c) (created latest) = true
                  \/ l' = latest /\ gt (created c) (created latest) = false).
    { unfold l', created.
      destruct (gt (StatModifier.createdAt c) (StatModifier.createdAt latest)); auto. }
    split; [|split].
    + destruct Hin as [Hin|Hin]; [|now right; right].
      destruct Hl' as [[E _]|[E _]]; rewrite <- Hin, E; [right; now left|now left].
    + destruct Hl' as [[E G]|[E G]]; rewrite E in Hup.
      * right. destruct Hup as [->|Hup]; [exact G|]. exact (gt_trans _ _ _ Hup G).
      * exact Hup.
    + intros o [<-|Ho]; [|now apply Hmax].
      destruct (gt (created c) (created r)) eqn:Hcr; [|reflexivity].
      destruct Hl' as [[E G]|[E G]]; rewrite E in Hup.
      * destruct Hup as [Hup|Hup].
        -- rewrite Hup, gt_irrefl in Hcr. discriminate.
        -- pose proof (gt_trans _ _ _ Hcr Hup) as F. rewrite gt_irrefl in F. discriminate.
      * destruct Hup as [Hup|Hup].
        -- rewrite Hup in Hcr. congruence.
        -- pose proof (gt_trans _ _ _ Hcr Hup). congruence.
Qed.

Lemma latest_override_max (first : StatModifier.t) (rest : list StatModifier.t) :
  forall o, In o (first :: rest) ->
    gt (created o) (created (ModifierCollection.latest_override first rest)) = false.
Proof.
  destruct (latest_override_spec rest first) as (_ & Hup & Hmax).
  intros o [<-|Ho]; [|now apply Hmax].
  destruct Hup as [->|Hup]; [apply gt_irrefl|].
  destruct (gt (created first) _) eqn:E; [|reflexivity].
  pose proof (gt_trans _ _ _ Hup E) as F. rewrite gt_irrefl in F. discriminate.
Qed.

Lemma apply_adds_fold (mods : list StatModifier.t) :
  forall result,
    ModifierCollection.apply_adds result mods
    = fold_left (fun r m => SafeMath.add r (StatModifier.getEffectiveValue m)) mods result.
Proof. induction mods as [|m mods IH]; intros result; simpl; [reflexivity|apply IH]. Qed.

Lemma apply_multiplies_fold (mods : list StatModifier.t) :
  forall result,
    ModifierCollection.apply_multiplies result mods
    = fold_left (fun r m => SafeMath.multiply r (StatModifier.getEffectiveValue m)) mods result.
Proof. induction mods as [|m mods IH]; intros result; simpl; [reflexivity|apply IH]. Qed.

Lemma has_type_true (ty : ModifierType) (m : StatModifier.t) :
  ModifierCollection.has_type ty m = true <-> StatModifier.type m = ty.
Proof.
  unfold ModifierCollection.has_type.
  destruct (StatModifier.type m), ty; simpl; split; congruence.
Qed.

(** With an active override, [applyAll] depends on the active overrides
    alone. *)
Lemma applyAll_overrides (c : ModifierCollection.t) (base : num)
      (first : StatModifier.t) (rest : list StatModifier.t) :
  filter (ModifierCollection.has_type OVERRIDE) (ModifierCollection.getActive c)
    = first :: rest ->
  ModifierCollection.applyAll c base
  = StatModifier.value (ModifierCollection.latest_override first rest).
Proof.
  intros H. unfold ModifierCollection.applyAll.
  destruct (ModifierCollection.getActive c) as [|a l] eqn:Ha; [discriminate|].
  rewrite H.
  destruct (latest_override_spec rest first) as (Hin & _ & _).
  assert (Ht : StatModifier.type (ModifierCollection.latest_override first rest) = OVERRIDE).
  { apply has_type_true. rewrite <- H in Hin. now apply filter_In in Hin. }
  unfold StatModifier.getEffectiveValue. now rewrite Ht.
Qed.

(** C1: [applyAll] on a finite base.  When an override is active the
    result is the value of an active override that none is later than, and
    it is the same for every collection and base with these active
    overrides: ADD and MULTIPLY modifiers play no part.  Otherwise the
    active ADD modifiers are folded into the base with [SafeMath.add] and
    then the active MULTIPLY modifiers with [SafeMath.multiply].  ADD(+10)
    and MULTIPLY(x1.5) on 100 give 165; with OVERRIDE(50) added, 50. *)
Theorem C1_applyAll_layers (c : ModifierCollection.t) (base : num) (e0 e1 e2 e3 : Env) :
  isFinite base = true ->
  let active := ModifierCollection.getActive c in
  let overrides := filter (ModifierCollection.has_type OVERRIDE) active in
  (overrides <> [] ->
     exists o,
       In o (JsMap.values (ModifierCollection.modifiers c))
       /\ StatModifier.isActive o = true
       /\ StatModifier.type o = OVERRIDE
       /\ ModifierCollection.applyAll c base = StatModifier.getEffectiveValue o
       /\ StatModifier.getEffectiveValue o = StatModifier.value o
       /\ (forall o', In o' overrides ->
             gt (StatModifier.createdAt o') (StatModifier.createdAt o) = false)
       /\ (forall c' base',
             filter (ModifierCollection.has_type OVERRIDE) (ModifierCollection.getActive c')
               = overrides ->
             ModifierCollection.applyAll c' base' = ModifierCollection.applyAll c base))
  /\ (overrides = [] ->
      ModifierCollection.applyAll c base
      = fold_left (fun r m => SafeMath.multiply r (StatModifier.getEffectiveValue m))
          (filter (ModifierCollection.has_type MULTIPLY) active)
          (fold_left (fun r m => SafeMath.add r (StatModifier.getEffectiveValue m))
             (filter (ModifierCollection.has_type ADD) active) base))
  /\ ModifierCollection.applyAll (collection_add_multiply e0 e1 e2) 100 = 165
  /\ ModifierCollection.applyAll (collection_with_override e0 e1 e2 e3) 100 = 50.
Proof.
  intros Hbase active overrides.
  split; [|split; [|split; vm_compute; reflexivity]].
  - intros Hne. destruct overrides as [|first rest] eqn:Hov; [congruence|].
    pose proof (applyAll_overrides c base first rest Hov) as Happ.
    destruct (latest_override_spec rest first) as (Hin & _ & _).
    set (o := ModifierCollection.latest_override first rest) in *.
    assert (Hf : In o (filter (ModifierCollection.has_type OVERRIDE) active))
      by (unfold overrides in Hov; now rewrite Hov).
    apply filter_In in Hf. destruct Hf as [Hact Hty].
    apply filter_In in Hact. destruct Hact as [Hval Hact].
    apply has_type_true in Hty.
    assert (Heff : StatModifier.getEffectiveValue o = StatModifier.value o)
      by (unfold StatModifier.getEffectiveValue; now rewrite Hty).
    exists o. repeat split; try assumption.
    + now rewrite Heff.
    + apply latest_override_max.
    + intros c' base' Hc'. rewrite Happ. now apply applyAll_overrides.
  - intros Hnil. unfold ModifierCollection.applyAll. fold active.
    rewrite (toNumber_finite base _ Hbase).
    destruct active as [|a l] eqn:Ha; [reflexivity|].
    unfold overrides in Hnil. rewrite Hnil.
    now rewrite apply_adds_fold, apply_multiplies_fold.
Qed.

Lemma C1_applyAll_layers_witness :
  ModifierCollection.applyAll (collection_add_multiply env0 env0 env0) 100 = 165
  /\ ModifierCollection.applyAll (collection_with_override env0 env0 env0 env0) 100 = 50.
Proof.
  exact (proj2 (proj2 (C1_applyAll_layers
           (collection_with_override env0 env0 env0 env0) 100 env0 env0 env0 env0
           eq_refl))).
Defined.

End ApplyAllFacts.

(* ===================================================================== *)
(** * Maps *)
(* ===================================================================== *)

Section JsMapFacts.
Context {V : Type}.
Implicit Types (m : JsMap.t V) (k : string) (v : V).

Lemma get_In m k v : JsMap.get m k = Some v -> In (k, v) m.
Proof.
  induction m as [|[k' v'] m IH]; simpl; [discriminate|].
  destruct (String.eqb_spec k' k) as [->|Hne].
  - intros [= ->]. now left.
  - intros H. right. now apply IH.
Qed.

Lemma get_None m k : JsMap.get m k = None <-> ~ In k (JsMap.keys m).
Proof.
  induction m as [|[k' v'] m IH]; simpl.
  - split; auto.
  - destruct (String.eqb_spec k' k) as [->|Hne].
    + split; [discriminate|]. intros H. exfalso. apply H. now left.
    + rewrite IH. split; intros H; [intros [E|E]; auto|auto].
Qed.

Lemma get_unique m k v v' :
  JsMap.wf m -> JsMap.get m k = Some v -> In (k, v') m -> v' = v.
Proof.
  unfold JsMap.wf. induction m as [|[k0 v0] m IH]; simpl; [discriminate|].
  intros Hwf. inversion Hwf as [|? ? Hnotin Hwf']; subst.
  destruct (String.eqb_spec k0 k) as [->|Hne].
  - intros [= ->] [[= ->]|Hin]; [reflexivity|].
    exfalso. apply Hnotin. change k with (fst (k, v')). now apply in_map.
  - intros Hget [[= -> ->]|Hin]; [congruence|]. now apply IH.
Qed.

Lemma get_set_same m k v : JsMap.get (JsMap.set m k v) k = Some v.
Proof.
  induction m as [|[k' v'] m IH]; simpl.
  - now rewrite String.eqb_refl.
  - destruct (String.eqb_spec k' k) as [->|Hne]; simpl.
    + now rewrite String.eqb_refl.
    + destruct (String.eqb_spec k' k); [congruence|exact IH].
Qed.

Lemma keys_set m k v :
  JsMap.keys (JsMap.set m k v)
  = if JsMap.has m k then JsMap.keys m else (JsMap.keys m ++ [k])%list.
Proof.
  unfold JsMap.has. induction m as [|[k' v'] m IH]; simpl; [reflexivity|].
  destruct (String.eqb_spec k' k) as [->|Hne]; simpl; [reflexivity|].
  rewrite IH. now destruct (JsMap.get m k).
Qed.

Lemma wf_set m k v : JsMap.wf m -> JsMap.wf (JsMap.set m k v).
Proof.
  unfold JsMap.wf. intros Hwf. rewrite keys_set. unfold JsMap.has.
  destruct (JsMap.get m k) eqn:Hget; [exact Hwf|].
  apply get_None in Hget. apply NoDup_app; [exact Hwf|repeat constructor; intros []|].
  intros a Ha [<-|[]]. contradiction.
Qed.

Lemma has_get m k : JsMap.has m k = true <-> exists v, JsMap.get m k = Some v.
Proof.
  unfold JsMap.has. destruct (JsMap.get m k); split; eauto; try discriminate.
  intros [v [=]].
Qed.

Lemma has_false m k : JsMap.has m k = false <-> JsMap.get m k = None.
Proof. unfold JsMap.has. destruct (JsMap.get m k); split; congruence. Qed.

End JsMapFacts.

(* ===================================================================== *)
(** * Turns: [tick] *)
(* ===================================================================== *)

Section TickFacts.
Import JS Utils Samples NumFacts.
Local Open Scope float_scope.
Local Open Scope string_scope.

Implicit Types (x : StatModifier.t) (es : JsMap.t StatModifier.t) (k : string).

Lemma tick_entries_kept_keys es k :
  In k (JsMap.keys (fst (ModifierCollection.tick_entries es))) -> In k (JsMap.keys es).
Proof.
  induction es as [|[k0 x0] es IH]; simpl; [auto|].
  destruct (StatModifier.tick x0) as [x0' act].
  destruct (ModifierCollection.tick_entries es) as [kept removed]. simpl in *.
  destruct act; simpl; intuition.
Qed.

Lemma tick_entries_wf es :
  JsMap.wf es -> JsMap.wf (fst (ModifierCollection.tick_entries es)).
Proof.
  unfold JsMap.wf. induction es as [|[k0 x0] es IH]; simpl; [auto|].
  intros Hwf. inversion Hwf as [|? ? Hnotin Hwf']; subst.
  pose proof (tick_entries_kept_keys es k0) as Hsub.
  destruct (StatModifier.tick x0) as [x0' act].
  destruct (ModifierCollection.tick_entries es) as [kept removed]. simpl in *.
  destruct act; simpl; [constructor|]; auto.
Qed.

Lemma tick_entries_removed es k :
  In k (snd (ModifierCollection.tick_entries es)) ->
  exists x, In (k, x) es /\ snd (StatModifier.tick x) = false.
Proof.
  induction es as [|[k0 x0] es IH]; simpl; [intros []|].
  destruct (StatModifier.tick x0) as [x0' act] eqn:Ht.
  destruct (ModifierCollection.tick_entries es) as [kept removed]. simpl in *.
  destruct act; simpl.
  - intros H. destruct (IH H) as (x & Hin & Hx). eauto.
  - intros [<-|H].
    + exists x0. rewrite Ht. auto.
    + destruct (IH H) as (x & Hin & Hx). eauto.
Qed.

(** An entry whose modifier stays active is kept, ticked. *)
Lemma tick_entries_active es k x :
  JsMap.wf es -> JsMap.get es k = Some x -> snd (StatModifier.tick x) = true ->
  JsMap.get (fst (ModifierCollection.tick_entries es)) k = Some (fst (StatModifier.tick x))
  /\ ~ In k (snd (ModifierCollection.tick_entries es)).
Proof.
  intros Hwf Hget Hact. split.
  - clear Hwf. induction es as [|[k0 x0] es IH]; simpl in *; [discriminate|].
    destruct (StatModifier.tick x0) as [x0' act] eqn:Ht.
    destruct (ModifierCollection.tick_entries es) as [kept removed]. simpl in *.
    destruct (String.eqb_spec k0 k) as [->|Hne].
    + injection Hget as ->. rewrite Ht in *. simpl in *. subst act. simpl.
      now rewrite String.eqb_refl.
    + destruct act; simpl; [|now apply IH].
      destruct (String.eqb_spec k0 k); [congruence|now apply IH].
  - intros Hin. apply tick_entries_removed in Hin. destruct Hin as (x' & Hin & Hx').
    rewrite (get_unique es k x x' Hwf Hget Hin) in Hx'. congruence.
Qed.

(** An entry whose modifier reports inactive is deleted and its key
    returned. *)
Lemma tick_entries_inactive es k x :
  JsMap.wf es -> JsMap.get es k = Some x -> snd (StatModifier.tick x) = false ->
  JsMap.get (fst (ModifierCollection.tick_entries es)) k = None
  /\ In k (snd (ModifierCollection.tick_entries es)).
Proof.
  unfold JsMap.wf. induction es as [|[k0 x0] es IH]; simpl; [discriminate|].
  intros Hwf Hget Hact. inversion Hwf as [|? ? Hnotin Hwf']; subst.
  pose proof (tick_entries_kept_keys es k) as Hsub.
  destruct (StatModifier.tick x0) as [x0' act] eqn:Ht.
  destruct (ModifierCollection.tick_entries es) as [kept removed]. simpl in *.
  destruct (String.eqb_spec k0 k) as [->|Hne].
  - injection Hget as ->. rewrite Ht in Hact. simpl in Hact. subst act. simpl.
    split; [|now left]. apply get_None. auto.
  - destruct (IH Hwf' Hget Hact) as [Hnone Hin].
    destruct act; simpl; [|auto].
    destruct (String.eqb_spec k0 k); [congruence|auto].
Qed.

(** The entries of a collection after a turn. *)
Lemma tick_modifiers (c : ModifierCollection.t) :
  ModifierCollection.modifiers (fst (ModifierCollection.tick c))
  = fst (ModifierCollection.tick_entries (ModifierCollection.modifiers c))
  /\ snd (ModifierCollection.tick c)
     = snd (ModifierCollection.tick_entries (ModifierCollection.modifiers c)).
Proof.
  unfold ModifierCollection.tick.
  now destruct (ModifierCollection.tick_entries (ModifierCollection.modifiers c)).
Qed.

(** What [add] does with a modifier whose id is new to the collection. *)
Lemma add_fresh (env : Env) (c : ModifierCollection.t) (x : StatModifier.t) :
  JsMap.get (ModifierCollection.modifiers c) (StatModifier.id x) = None ->
  StatModifier.statId x = "" \/ StatModifier.statId x = ModifierCollection.statId c ->
  ModifierCollection.modifiers (fst (ModifierCollection.add env c (inl x)))
  = JsMap.set (ModifierCollection.modifiers c) (StatModifier.id x)
      (StatModifier.set_statId x (ModifierCollection.statId c)).
Proof.
  intros Hget Hstat. unfold ModifierCollection.add.
  assert (Hguard : (negb (StatModifier.statId x =? "")
                    && negb (StatModifier.statId x =? ModifierCollection.statId c))%bool
                   = false).
  { destruct Hstat as [->| ->]; [reflexivity|].
    rewrite (String.eqb_refl (ModifierCollection.statId c)).
    now rewrite Bool.andb_false_r. }
  rewrite Hguard. simpl. now rewrite Hget.
Qed.

Lemma timed_new (env : Env) (config : StatModifier.Config) (d : num) :
  StatModifier.cfg_duration config = VNum d -> isFinite d = true ->
  timed (StatModifier.new env config) d d.
Proof.
  intros Hcfg Hfin. unfold timed, StatModifier.new. simpl.
  now rewrite Hcfg, toNumber_finite.
Qed.

Lemma timed_set_statId x s d r :
  timed x d r -> timed (StatModifier.set_statId x s) d r.
Proof. auto. Qed.

Lemma isActive_timed x d r :
  timed x d r -> StatModifier.isActive x = if lt d 0 then true else gt r 0.
Proof. intros [Hd Hr]. unfold StatModifier.isActive. now rewrite Hd, Hr. Qed.

Lemma tick_timed x d r :
  timed x d r -> lt d 0 = false ->
  snd (StatModifier.tick x) = gt (Math_max 0 (r - 1)) 0
  /\ timed (fst (StatModifier.tick x)) d (Math_max 0 (r - 1)).
Proof.
  intros [Hd Hr] Hlt. unfold StatModifier.tick, timed. rewrite Hd, Hr, Hlt. simpl. auto.
Qed.

Lemma tick_permanent x :
  lt (StatModifier.duration x) 0 = true -> StatModifier.tick x = (x, true).
Proof. intros H. unfold StatModifier.tick. now rewrite H. Qed.

Lemma ticks_permanent (n : nat) x :
  lt (StatModifier.duration x) 0 = true -> ticks n x = x.
Proof.
  intros H. induction n as [|n IH]; simpl; [reflexivity|].
  now rewrite tick_permanent.
Qed.

(** A permanent modifier stays in its collection, unchanged, whatever the
    number of turns. *)
Lemma collection_ticks_permanent (n : nat) :
  forall (c : ModifierCollection.t) k x,
    JsMap.wf (ModifierCollection.modifiers c) ->
    JsMap.get (ModifierCollection.modifiers c) k = Some x ->
    lt (StatModifier.duration x) 0 = true ->
    JsMap.wf (ModifierCollection.modifiers (collection_ticks n c))
    /\ JsMap.get (ModifierCollection.modifiers (collection_ticks n c)) k = Some x.
Proof.
  induction n as [|n IH]; intros c k x Hwf Hget Hperm; simpl; [auto|].
  destruct (tick_modifiers c) as [Hm _].
  destruct (tick_entries_active _ k x Hwf Hget) as [Hget' _].
  { now rewrite tick_permanent. }
  rewrite tick_permanent in Hget' by assumption. simpl in Hget'.
  apply IH; rewrite ?Hm; auto using tick_entries_wf.
Qed.

End TickFacts.

Section DurationFacts.
Import JS Utils Samples NumFacts.
Local Open Scope float_scope.
Local Open Scope string_scope.

Implicit Types (x : StatModifier.t) (c : ModifierCollection.t) (k : string).

(** One turn of a collection, seen from a timed modifier in it that is
    still active afterwards. *)
Lemma collection_tick_keeps c k x d r :
  JsMap.wf (ModifierCollection.modifiers c) ->
  JsMap.get (ModifierCollection.modifiers c) k = Some x ->
  timed x d r -> lt d 0 = false -> gt (Math_max 0 (r - 1)) 0 = true ->
  let c1 := fst (ModifierCollection.tick c) in
  JsMap.wf (ModifierCollection.modifiers c1)
  /\ (exists x', JsMap.get (ModifierCollection.modifiers c1) k = Some x'
                 /\ timed x' d (Math_max 0 (r - 1)))
  /\ ~ In k (snd (ModifierCollection.tick c)).
Proof.
  intros Hwf Hget Ht Hd Hact c1.
  destruct (tick_timed x d r Ht Hd) as [Hsnd Ht'].
  destruct (tick_modifiers c) as [Hm Hr]. unfold c1. rewrite Hm, Hr.
  destruct (tick_entries_active _ k x Hwf Hget) as [Hget' Hnot]; [congruence|].
  split; [now apply tick_entries_wf|]. split; [eauto|exact Hnot].
Qed.

(** One turn of a collection, seen from a timed modifier in it that the
    turn makes inactive. *)
Lemma collection_tick_removes c k x d r :
  JsMap.wf (ModifierCollection.modifiers c) ->
  JsMap.get (ModifierCollection.modifiers c) k = Some x ->
  timed x d r -> lt d 0 = false -> gt (Math_max 0 (r - 1)) 0 = false ->
  JsMap.has (ModifierCollection.modifiers (fst (ModifierCollection.tick c))) k = false
  /\ In k (snd (ModifierCollection.tick c)).
Proof.
  intros Hwf Hget Ht Hd Hact.
  destruct (tick_timed x d r Ht Hd) as [Hsnd Ht'].
  destruct (tick_modifiers c) as [Hm Hr]. rewrite Hm, Hr.
  destruct (tick_entries_inactive _ k x Hwf Hget) as [Hget' Hin]; [congruence|].
  split; [now apply has_false|exact Hin].
Qed.

(** The collection that owns a modifier just added to it. *)
Lemma add_owner (env : Env) c x d r :
  JsMap.wf (ModifierCollection.modifiers c) ->
  JsMap.get (ModifierCollection.modifiers c) (StatModifier.id x) = None ->
  StatModifier.statId x = "" \/ StatModifier.statId x = ModifierCollection.statId c ->
  timed x d r ->
  let c' := fst (ModifierCollection.add env c (inl x)) in
  JsMap.wf (ModifierCollection.modifiers c')
  /\ exists x', JsMap.get (ModifierCollection.modifiers c') (StatModifier.id x) = Some x'
                /\ timed x' d r /\ StatModifier.isActive x' = StatModifier.isActive x.
Proof.
  intros Hwf Hget Hstat Ht c'. unfold c'. rewrite add_fresh by assumption.
  split; [now apply wf_set|].
  exists (StatModifier.set_statId x (ModifierCollection.statId c)).
  split; [apply get_set_same|]. split; [exact Ht|reflexivity].
Qed.

(** C5: a modifier built with duration 3 is active after 0, 1 and 2 ticks
    and inactive after the third; the collection it was added to keeps it
    for two turns and on the third turn deletes it and returns its id.  A
    modifier built with duration -1 is active after any number of ticks,
    and no turn of its collection removes it. *)
Theorem C5_duration_and_expiry
    (env env' : Env) (timedConfig permanentConfig : StatModifier.Config)
    (c0 : ModifierCollection.t) (n : nat) :
  StatModifier.cfg_duration timedConfig = VNum 3 ->
  StatModifier.cfg_duration permanentConfig = VNum (-1) ->
  let m := StatModifier.new env timedConfig in
  let p := StatModifier.new env permanentConfig in
  JsMap.wf (ModifierCollection.modifiers c0) ->
  JsMap.get (ModifierCollection.modifiers c0) (StatModifier.id m) = None ->
  JsMap.get (ModifierCollection.modifiers c0) (StatModifier.id p) = None ->
  StatModifier.statId m = "" \/ StatModifier.statId m = ModifierCollection.statId c0 ->
  StatModifier.statId p = "" \/ StatModifier.statId p = ModifierCollection.statId c0 ->
  let c := fst (ModifierCollection.add env' c0 (inl m)) in
  let c' := fst (ModifierCollection.add env' c0 (inl p)) in
  (StatModifier.isActive (ticks 0 m) = true
   /\ StatModifier.isActive (ticks 1 m) = true
   /\ StatModifier.isActive (ticks 2 m) = true
   /\ StatModifier.isActive (ticks 3 m) = false)
  /\ (~ In (StatModifier.id m) (snd (ModifierCollection.tick c))
      /\ ~ In (StatModifier.id m) (snd (ModifierCollection.tick (collection_ticks 1 c)))
      /\ JsMap.has (ModifierCollection.modifiers (collection_ticks 2 c))
           (StatModifier.id m) = true
      /\ In (StatModifier.id m) (snd (ModifierCollection.tick (collection_ticks 2 c)))
      /\ JsMap.has (ModifierCollection.modifiers (collection_ticks 3 c))
           (StatModifier.id m) = false)
  /\ (StatModifier.isActive (ticks n p) = true
      /\ JsMap.has (ModifierCollection.modifiers (collection_ticks n c'))
           (StatModifier.id p) = true
      /\ ~ In (StatModifier.id p) (snd (ModifierCollection.tick (collection_ticks n c')))).
Proof.
  intros Hm Hp m p Hwf Hgm Hgp Hsm Hsp c c'.
  assert (Tm : timed m 3 3) by (now apply timed_new).
  assert (Tp : timed p (-1) (-1)) by (now apply timed_new).
  split; [|split].
  - (* the modifier on its own *)
    destruct (tick_timed m 3 3 Tm eq_refl) as [_ T1].
    destruct (tick_timed _ 3 _ T1 eq_refl) as [_ T2].
    destruct (tick_timed _ 3 _ T2 eq_refl) as [_ T3].
    simpl ticks.
    rewrite (isActive_timed _ _ _ Tm), (isActive_timed _ _ _ T1),
            (isActive_timed _ _ _ T2), (isActive_timed _ _ _ T3).
    repeat split; reflexivity.
  - (* in its collection *)
    destruct (add_owner env' c0 m 3 3 Hwf Hgm Hsm Tm) as (W0 & x0 & G0 & X0 & _).
    fold c in W0, G0.
    destruct (collection_tick_keeps c _ x0 3 3 W0 G0 X0 eq_refl eq_refl)
      as (W1 & (x1 & G1 & X1) & N1).
    destruct (collection_tick_keeps _ _ x1 3 _ W1 G1 X1 eq_refl eq_refl)
      as (W2 & (x2 & G2 & X2) & N2).
    destruct (collection_tick_removes _ _ x2 3 _ W2 G2 X2 eq_refl eq_refl) as (H3 & I3).
    simpl collection_ticks.
    repeat split; try assumption.
    apply has_get. eauto.
  - (* the permanent modifier *)
    assert (Hperm : lt (StatModifier.duration p) 0 = true)
      by (destruct Tp as [-> _]; reflexivity).
    split.
    + rewrite ticks_permanent by assumption.
      now rewrite (isActive_timed _ _ _ Tp).
    + destruct (add_owner env' c0 p _ _ Hwf Hgp Hsp Tp) as (W0 & x0 & G0 & X0 & _).
      fold c' in W0, G0.
      assert (Hx0 : lt (StatModifier.duration x0) 0 = true)
        by (destruct X0 as [-> _]; reflexivity).
      destruct (collection_ticks_permanent n c' _ x0 W0 G0 Hx0) as [Wn Gn].
      split; [apply has_get; eauto|].
      destruct (tick_modifiers (collection_ticks n c')) as [_ Hr]. rewrite Hr.
      apply (tick_entries_active _ _ x0 Wn Gn). now rewrite tick_permanent.
Qed.

Lemma C5_duration_and_expiry_witness :
  let m := StatModifier.new env0 (modConfigTimed "poison" "add" (-5) 3) in
  let p := StatModifier.new env0 (modConfigTimed "curse" "add" (-1) (-1)) in
  let c0 := ModifierCollection.new env0 (VStr "hp") in
  let c := fst (ModifierCollection.add env0 c0 (inl m)) in
  let c' := fst (ModifierCollection.add env0 c0 (inl p)) in
  StatModifier.isActive (ticks 2 m) = true
  /\ StatModifier.isActive (ticks 3 m) = false
  /\ In "poison" (snd (ModifierCollection.tick (collection_ticks 2 c)))
  /\ StatModifier.isActive (ticks 7 p) = true
  /\ ~ In "curse" (snd (ModifierCollection.tick (collection_ticks 7 c'))).
Proof.
  intros m p c0 c c'.
  destruct (C5_duration_and_expiry env0 env0
              (modConfigTimed "poison" "add" (-5) 3)
              (modConfigTimed "curse" "add" (-1) (-1))
              (ModifierCollection.new env0 (VStr "hp")) 7
              eq_refl eq_refl (NoDup_nil _) eq_refl eq_refl
              (or_introl eq_refl) (or_introl eq_refl))
    as ((_ & _ & A2 & A3) & (_ & _ & _ & R3 & _) & (P1 & _ & P3)).
  repeat split; assumption.
Defined.

End DurationFacts.

Section ZeroDurationFacts.
Import JS Utils Samples NumFacts.
Local Open Scope float_scope.
Local Open Scope string_scope.

Lemma set_fresh {V : Type} (m : JsMap.t V) (k : string) (v : V) :
  JsMap.get m k = None -> JsMap.set m k v = (m ++ [(k, v)])%list.
Proof.
  induction m as [|[k' v'] m IH]; simpl; [reflexivity|].
  destruct (String.eqb_spec k' k); [discriminate|]. intros H. now rewrite IH.
Qed.

Lemma applyAll_getActive (c c' : ModifierCollection.t) (base : num) :
  ModifierCollection.getActive c = ModifierCollection.getActive c' ->
  ModifierCollection.applyAll c base = ModifierCollection.applyAll c' base.
Proof. intros H. unfold ModifierCollection.applyAll. now rewrite H. Qed.

Lemma ticks_zero (n : nat) :
  forall x, timed x 0 0 -> timed (ticks n x) 0 0.
Proof.
  induction n as [|n IH]; intros x Hx; simpl; [exact Hx|].
  apply IH. exact (proj2 (tick_timed x 0 0 Hx eq_refl)).
Qed.

(** C10: a modifier built with duration 0 is inactive from the start and
    after any number of ticks; added to a collection it leaves [applyAll]
    as it was, and the first turn of the collection deletes it and
    returns its id. *)
Theorem C10_zero_duration
    (env env' : Env) (config : StatModifier.Config)
    (c0 : ModifierCollection.t) (base : num) (n : nat) :
  StatModifier.cfg_duration config = VNum 0 ->
  let m := StatModifier.new env config in
  JsMap.wf (ModifierCollection.modifiers c0) ->
  JsMap.get (ModifierCollection.modifiers c0) (StatModifier.id m) = None ->
  StatModifier.statId m = "" \/ StatModifier.statId m = ModifierCollection.statId c0 ->
  let c := fst (ModifierCollection.add env' c0 (inl m)) in
  StatModifier.isActive m = false
  /\ StatModifier.isActive (ticks n m) = false
  /\ JsMap.has (ModifierCollection.modifiers c) (StatModifier.id m) = true
  /\ ModifierCollection.getActive c = ModifierCollection.getActive c0
  /\ ModifierCollection.applyAll c base = ModifierCollection.applyAll c0 base
  /\ In (StatModifier.id m) (snd (ModifierCollection.tick c))
  /\ JsMap.has (ModifierCollection.modifiers (fst (ModifierCollection.tick c)))
       (StatModifier.id m) = false.
Proof.
  intros Hcfg m Hwf Hget Hstat c.
  assert (Tm : timed m 0 0) by (now apply timed_new).
  assert (Hinactive : StatModifier.isActive m = false)
    by (now rewrite (isActive_timed _ _ _ Tm)).
  destruct (add_owner env' c0 m 0 0 Hwf Hget Hstat Tm) as (W & x & G & X & Hx).
  fold c in W, G.
  assert (Hactive : ModifierCollection.getActive c = ModifierCollection.getActive c0).
  { unfold ModifierCollection.getActive, c. rewrite add_fresh by assumption.
    rewrite set_fresh by assumption. unfold JsMap.values.
    rewrite map_app, filter_app. simpl.
    change (StatModifier.isActive (StatModifier.set_statId m (ModifierCollection.statId c0)))
      with (StatModifier.isActive m).
    rewrite Hinactive. apply app_nil_r. }
  split; [exact Hinactive|].
  split; [now rewrite (isActive_timed _ _ _ (ticks_zero n m Tm))|].
  split; [apply has_get; eauto|].
  split; [exact Hactive|].
  split; [now apply applyAll_getActive|].
  destruct (collection_tick_removes c _ x 0 0 W G X eq_refl eq_refl) as [H1 H2].
  split; assumption.
Qed.

Lemma C10_zero_duration_witness :
  let m := StatModifier.new env0 (modConfigTimed "flash" "multiply" 2 0) in
  let c := fst (ModifierCollection.add env0 (collection_add_multiply env0 env0 env0) (inl m)) in
  StatModifier.isActive m = false
  /\ ModifierCollection.applyAll c 100 = 165
  /\ In "flash" (snd (ModifierCollection.tick c)).
Proof.
  intros m c.
  destruct (C10_zero_duration env0 env0 (modConfigTimed "flash" "multiply" 2 0)
              (collection_add_multiply env0 env0 env0) 100 4 eq_refl)
    as (A & _ & _ & _ & B & C & _).
  - repeat constructor; simpl; intuition discriminate.
  - reflexivity.
  - left. reflexivity.
  - split; [exact A|]. split; [|exact C].
    etransitivity; [exact B|]. reflexivity.
Defined.

End ZeroDurationFacts.

(* ===================================================================== *)
(** * Stacks, bounds and serialization *)
(* ===================================================================== *)

Section StackFacts.
Import JS Utils Samples NumFacts.
Local Open Scope float_scope.
Local Open Scope string_scope.

(** C6 fails at construction: [fromJSON] takes [currentStacks] from the
    data without comparing it with [maxStacks].  From data with
    [maxStacks: 2] and [currentStacks: 5] it builds a modifier with 5
    stacks out of 2, whose effective value is 5 times 10.  ([addStacks]
    does cap the count: one more stack on a modifier with 1 out of 2
    gives 2, and a further one still 2.) *)
Theorem C6_fromJSON_exceeds_maxStacks (env : Env) :
  let m := StatModifier.fromJSON env (Some overfullData) in
  StatModifier.maxStacks m = 2
  /\ StatModifier.currentStacks m = 5
  /\ le (StatModifier.currentStacks m) (StatModifier.maxStacks m) = false
  /\ StatModifier.getEffectiveValue m = 50
  /\ (let m1 := StatModifier.set_currentStacks m 1 in
      snd (StatModifier.addStacks m1 VUndefined) = 2
      /\ snd (StatModifier.addStacks (fst (StatModifier.addStacks m1 VUndefined))
                VUndefined) = 2).
Proof. repeat split; reflexivity. Qed.

(** C8 fails for [StatModifier]: [removeStacks] takes the stack count
    down to 0, and [fromJSON] of the serialized modifier brings it back as
    1, so that the effective value goes from 0 to 10; a modifier whose id
    was sanitised to the empty string comes back with a generated id. *)
Theorem C8_modifier_round_trip_fails (env env' : Env) :
  let m := fst (StatModifier.removeStacks
                  (StatModifier.new env (modConfig "buff1" "add" 10)) VUndefined) in
  let m' := StatModifier.fromJSON env' (Some (StatModifier.toJSON m)) in
  StatModifier.currentStacks m = 0
  /\ StatModifier.currentStacks (StatModifier.clone env' m) = 1
  /\ StatModifier.currentStacks m' = 1
  /\ StatModifier.getEffectiveValue m = 0
  /\ StatModifier.getEffectiveValue m' = 10
  /\ (let e := StatModifier.new env (modConfig "!" "add" 10) in
      StatModifier.id e = ""
      /\ StatModifier.id (StatModifier.fromJSON env' (Some (StatModifier.toJSON e)))
         = generateId env' "mod").
Proof. repeat split; reflexivity. Qed.

(** C3 fails for a stat built with its bounds the wrong way round: the
    constructor keeps [minValue: 100] and [maxValue: 0] as given, and
    [modify] and [set] then leave [currentValue] at 100, above
    [maxValue].  [setBounds] with the same arguments swaps them. *)
Theorem C3_swapped_bounds_escape (env : Env) :
  let s := Standalone.Stat.new env (statConfig "hp" "HP" 100 100 0) in
  Standalone.Stat.minValue s = 100
  /\ Standalone.Stat.maxValue s = 0
  /\ Standalone.Stat.currentValue (mutate s (Modify (-20))) = 100
  /\ within_bounds (mutate s (Modify (-20))) = false
  /\ Standalone.Stat.currentValue (mutate s (Assign 50)) = 100
  /\ within_bounds (mutate s (Assign 50)) = false
  /\ (let s' := Standalone.Stat.setBounds s (VNum 100) (VNum 0) in
      Standalone.Stat.minValue s' = 0 /\ Standalone.Stat.maxValue s' = 100
      /\ within_bounds (mutate s' (Modify (-20))) = true).
Proof. repeat split; reflexivity. Qed.

End StackFacts.

(* ===================================================================== *)
(** * The parser *)
(* ===================================================================== *)

Section ParserFacts.
Import JS Utils Samples NumFacts.
Local Open Scope float_scope.
Local Open Scope string_scope.

(** C4: the three sample texts. *)
Theorem C4_parse_samples :
  StatParser.parse defaultParser "{{hp:-10}}"
  = [ {| StatParser.raw := "{{hp:-10}}"; StatParser.statId := "hp";
         StatParser.value := -10; StatParser.type := MODIFY;
         StatParser.isValid := true; StatParser.error := "" |} ]
  /\ StatParser.parse defaultParser "{{hp:=50}}"
     = [ {| StatParser.raw := "{{hp:=50}}"; StatParser.statId := "hp";
            StatParser.value := 50; StatParser.type := SET;
            StatParser.isValid := true; StatParser.error := "" |} ]
  /\ StatParser.parse caseInsensitiveParser "{{HP:-10}}"
     = [ {| StatParser.raw := "{{HP:-10}}"; StatParser.statId := "hp";
            StatParser.value := -10; StatParser.type := MODIFY;
            StatParser.isValid := true; StatParser.error := "" |} ]
  /\ caseInsensitiveParser = defaultParser.
Proof. repeat split; vm_compute; reflexivity. Qed.

End ParserFacts.

(* ===================================================================== *)
(** * Stats with ordered bounds *)
(* ===================================================================== *)

Section BoundsFacts.
Import JS Samples.

Lemma parseFloat_toNumber (v : jsval) (d : num) :
  isNaN d = false -> isNaN (Standalone.toNumber v d) = false.
Proof.
  intros H. unfold Standalone.toNumber.
  destruct (isNaN (parseFloat v)) eqn:E; simpl; assumption.
Qed.

(** The constructor stores Numbers. *)
Lemma new_Stat_numbers (env : Env) (config : Standalone.Stat.Config) :
  let s := Standalone.Stat.new env config in
  isNaN (Standalone.Stat.currentValue s) = false
  /\ isNaN (Standalone.Stat.minValue s) = false
  /\ isNaN (Standalone.Stat.maxValue s) = false.
Proof.
  simpl. repeat split; repeat apply parseFloat_toNumber; reflexivity.
Qed.

(** One call of [modify] or [set] with a finite argument, on a stat
    whose bounds are in order: the bounds stay and hold afterwards. *)
Lemma mutate_within (s : Standalone.Stat.t) (op : mutation) :
  le (Standalone.Stat.minValue s) (Standalone.Stat.maxValue s) = true ->
  isNaN (Standalone.Stat.currentValue s) = false ->
  finite_argument op = true ->
  let s' := mutate s op in
  Standalone.Stat.minValue s' = Standalone.Stat.minValue s
  /\ Standalone.Stat.maxValue s' = Standalone.Stat.maxValue s
  /\ isNaN (Standalone.Stat.currentValue s') = false
  /\ within_bounds s' = true.
Proof.
  intros Hle Hc Hop.
  assert (Hv : exists v, isNaN v = false
             /\ mutate s op
                = fst (Standalone.Stat.assign s
                         (Math_max (Standalone.Stat.minValue s)
                            (Math_min (Standalone.Stat.maxValue s) v)))).
  { destruct op as [delta|value]; simpl in Hop.
    - exists (Standalone.Stat.currentValue s + delta)%float.
      split; [now apply add_not_NaN | reflexivity].
    - exists value. split; [now apply isFinite_not_NaN | reflexivity]. }
  destruct Hv as (v & Hv & ->).
  destruct (clamp_within _ _ v Hle Hv) as (Hn & Hlo & Hhi).
  unfold within_bounds. simpl. rewrite Hlo, Hhi. auto.
Qed.

(** After any non-empty sequence of [modify] and [set] calls with
    finite arguments, a stat whose bounds are in order has its current
    value within them. *)
Lemma mutations_within (ops : list mutation) :
  forall s : Standalone.Stat.t,
  le (Standalone.Stat.minValue s) (Standalone.Stat.maxValue s) = true ->
  isNaN (Standalone.Stat.currentValue s) = false ->
  ops <> [] ->
  forallb finite_argument ops = true ->
  within_bounds (fold_left mutate ops s) = true.
Proof.
  induction ops as [|op ops IH]; intros s Hle Hc Hne Hops; [congruence|].
  simpl in Hops. apply andb_true_iff in Hops as [Hop Hops].
  destruct (mutate_within s op Hle Hc Hop) as (Hmin & Hmax & Hn & Hw).
  simpl. destruct ops as [|op' ops']; [exact Hw|].
  apply IH; try assumption; try discriminate.
  now rewrite Hmin, Hmax.
Qed.

(** X19: after any sequence, not empty, of [modify] and [set] calls
    with finite arguments, a stat the constructor built with its bounds in
    order has its current value within them. *)
Lemma new_Stat_mutations_within
    (env : Env) (config : Standalone.Stat.Config) (ops : list mutation) :
  let s := Standalone.Stat.new env config in
  le (Standalone.Stat.minValue s) (Standalone.Stat.maxValue s) = true ->
  ops <> [] ->
  forallb finite_argument ops = true ->
  within_bounds (fold_left mutate ops s) = true.
Proof.
  intros s Hle Hne Hops. apply mutations_within; try assumption.
  apply (new_Stat_numbers env config).
Qed.

(** X20: [setBounds] puts the bounds in order and the current value within
    them. *)
Lemma setBounds_within (s : Standalone.Stat.t) (min max : jsval) :
  isNaN (Standalone.Stat.currentValue s) = false ->
  let s' := Standalone.Stat.setBounds s min max in
  le (Standalone.Stat.minValue s') (Standalone.Stat.maxValue s') = true
  /\ within_bounds s' = true.
Proof.
  intros Hc. unfold Standalone.Stat.setBounds.
  set (mn := Standalone.toNumber min 0%float).
  set (mx := Standalone.toNumber max 100%float).
  assert (Hmn : isNaN mn = false) by (apply parseFloat_toNumber; reflexivity).
  assert (Hmx : isNaN mx = false) by (apply parseFloat_toNumber; reflexivity).
  assert (Hle : exists lo hi,
             (if gt mn mx then (mx, mn) else (mn, mx)) = (lo, hi) /\ le lo hi = true).
  { destruct (gt mn mx) eqn:E.
    - exists mx, mn. split; [reflexivity|]. now apply lt_le.
    - exists mn, mx. split; [reflexivity|]. now apply not_lt_le. }
  destruct Hle as (lo & hi & -> & Hle).
  destruct (clamp_within lo hi _ Hle Hc) as (Hn & Hlo & Hhi).
  unfold within_bounds. simpl. rewrite Hlo, Hhi. auto.
Qed.

End BoundsFacts.

(* ===================================================================== *)
(** * Stack counts *)
(* ===================================================================== *)

Section StackCountFacts.
Import JS Utils.
Local Open Scope float_scope.

Lemma toNumber_is_finite (v : jsval) (d : num) :
  isFinite d = true -> isFinite (toNumber v d) = true.
Proof.
  intros H. unfold toNumber.
  destruct v as [| |b|x|s]; try assumption; cbv zeta;
    repeat match goal with
           | |- isFinite (if ?c then _ else _) = true => destruct c eqn:?
           end;
    try assumption; now apply negb_false_iff.
Qed.

(** [toPositiveInt] returns a Number that is at least 1. *)
Lemma toPositiveInt_spec (v : jsval) (d : num) :
  isFinite d = true ->
  isNaN (toPositiveInt v d) = false /\ le 1 (toPositiveInt v d) = true.
Proof.
  intros H. unfold toPositiveInt.
  assert (Hf : isNaN (Math_floor (toNumber v d)) = false)
    by auto using Math_floor_not_NaN, isFinite_not_NaN, toNumber_is_finite.
  destruct (Math_max_spec PrimFloat.one _ eq_refl Hf) as (Hm & H1 & _).
  split; [|exact H1]. destruct Hm as [->| ->]; [reflexivity|assumption].
Qed.

Lemma add_not_NaN_l (a b : num) :
  isFinite a = true -> isNaN b = false -> isNaN (a + b) = false.
Proof.
  intros Ha Hb. apply is_NaN. rewrite add_spec.
  apply SFadd_not_nan; auto using not_NaN, isFinite_not_NaN, finite_not_infinity.
Qed.

(** X6: [addStacks] caps the count at [maxStacks] and, when the duration is
    positive, puts the remaining duration back to the full duration. *)
Lemma addStacks_caps (m : StatModifier.t) (count : jsval) :
  isFinite (StatModifier.currentStacks m) = true ->
  isNaN (StatModifier.maxStacks m) = false ->
  let m' := fst (StatModifier.addStacks m count) in
  StatModifier.maxStacks m' = StatModifier.maxStacks m
  /\ StatModifier.currentStacks m' = snd (StatModifier.addStacks m count)
  /\ le (StatModifier.currentStacks m') (StatModifier.maxStacks m') = true
  /\ (gt (StatModifier.duration m) 0 = true ->
      StatModifier.remainingDuration m' = StatModifier.duration m)
  /\ (gt (StatModifier.duration m) 0 = false ->
      StatModifier.remainingDuration m' = StatModifier.remainingDuration m).
Proof.
  intros Hc Hmax.
  destruct (toPositiveInt_spec (StatModifier.default_one count) 1 eq_refl) as [Hn _].
  pose proof (add_not_NaN_l _ _ Hc Hn) as Hs.
  destruct (Math_min_spec _ _ Hs Hmax) as (_ & _ & Hle).
  unfold StatModifier.addStacks. simpl.
  destruct (gt (StatModifier.duration m) 0); simpl; repeat split;
    try assumption; try reflexivity; try discriminate.
Qed.

(** X7: [removeStacks] floors the count at 0. *)
Lemma removeStacks_floors (m : StatModifier.t) (count : jsval) :
  isFinite (StatModifier.currentStacks m) = true ->
  let m' := fst (StatModifier.removeStacks m count) in
  StatModifier.maxStacks m' = StatModifier.maxStacks m
  /\ StatModifier.currentStacks m' = snd (StatModifier.removeStacks m count)
  /\ le 0 (StatModifier.currentStacks m') = true.
Proof.
  intros Hc.
  destruct (toPositiveInt_spec (StatModifier.default_one count) 1 eq_refl) as [Hn _].
  pose proof (sub_not_NaN _ _ Hc Hn) as Hs.
  destruct (Math_max_spec 0 _ eq_refl Hs) as (_ & Hle & _).
  unfold StatModifier.removeStacks. simpl. repeat split. exact Hle.
Qed.

(** The constructor takes both counts through [toPositiveInt]: each is
    at least 1, and nothing relates the two. *)
Lemma new_stacks (env : Env) (config : StatModifier.Config) :
  let m := StatModifier.new env config in
  le 1 (StatModifier.maxStacks m) = true
  /\ le 1 (StatModifier.currentStacks m) = true
  /\ StatModifier.currentStacks m
     = toPositiveInt (StatModifier.cfg_currentStacks config) 1.
Proof.
  simpl. repeat split; apply toPositiveInt_spec; reflexivity.
Qed.

End StackCountFacts.


Section ChangesFacts.
Import JS Utils Samples NumFacts.
Local Open Scope float_scope.
Local Open Scope string_scope.

Lemma get_set_other {V : Type} (m : JsMap.t V) (k k' : string) (v : V) :
  k <> k' -> JsMap.get (JsMap.set m k v) k' = JsMap.get m k'.
Proof.
  intros Hne. induction m as [|[k0 v0] m IH]; simpl.
  - destruct (String.eqb_spec k k'); [contradiction|reflexivity].
  - destruct (String.eqb_spec k0 k) as [->|H0]; simpl.
    + destruct (String.eqb_spec k k'); [contradiction|reflexivity].
    + destruct (String.eqb_spec k0 k'); [reflexivity|exact IH].
Qed.

(** The loop of [getStatChanges] keeps what the map holds for an id and
    otherwise takes the first command for that id. *)
Lemma collect_changes_get (commands : list StatParser.ParsedCommand) :
  forall (changes : JsMap.t StatParser.ParsedCommand) (id : string),
    JsMap.get (StatParser.collect_changes changes commands) id
    = match JsMap.get changes id with
      | Some c => Some c
      | None => find (fun c => StatParser.statId c =? id) commands
      end.
Proof.
  induction commands as [|cmd rest IH]; intros changes id; simpl.
  - now destruct (JsMap.get changes id).
  - rewrite IH. unfold JsMap.has.
    destruct (String.eqb_spec (StatParser.statId cmd) id) as [<-|Hne].
    + destruct (JsMap.get changes (StatParser.statId cmd)) eqn:Hget; simpl.
      * now rewrite Hget.
      * now rewrite get_set_same.
    + destruct (JsMap.get changes (StatParser.statId cmd)); simpl; [reflexivity|].
      now rewrite get_set_other.
Qed.

Lemma getStatChanges_first (p : StatParser.t) (text id : string) :
  JsMap.get (StatParser.getStatChanges p text) id
  = find (fun c => StatParser.statId c =? id) (StatParser.parseValid p text).
Proof. unfold StatParser.getStatChanges. now rewrite collect_changes_get. Qed.

Lemma find_filter {A : Type} (f g : A -> bool) (l : list A) :
  find f (filter g l) = find (fun x => (g x && f x)%bool) l.
Proof.
  induction l as [|x l IH]; simpl; [reflexivity|].
  destruct (g x); simpl; [|exact IH]. now destruct (f x).
Qed.

(** The valid commands are those [parse] returned with [isValid] set:
    [getStatChanges] takes the first of them for an id. *)
Lemma getStatChanges_first_valid (p : StatParser.t) (text id : string) :
  JsMap.get (StatParser.getStatChanges p text) id
  = find (fun c => (StatParser.isValid c && (StatParser.statId c =? id))%bool)
         (StatParser.parse p text).
Proof.
  rewrite getStatChanges_first. unfold StatParser.parseValid. apply find_filter.
Qed.

(** [_parseCommand] sets [isValid] only on a finite value, with the type
    MODIFY or SET. *)
Lemma parseCommand_valid (p : StatParser.t) (raw statId valueStr : string) :
  let cmd := StatParser._parseCommand p raw statId valueStr in
  StatParser.isValid cmd = true ->
  isFinite (StatParser.value cmd) = true
  /\ (StatParser.type cmd = MODIFY \/ StatParser.type cmd = SET).
Proof.
  unfold StatParser._parseCommand.
  destruct (negb (isNonEmptyString (VStr statId))); [discriminate|].
  destruct (String.eqb (StatParser.remove_spaces valueStr) ""); [discriminate|].
  destruct (startsWith (StatParser.remove_spaces valueStr) "=");
    match goal with
    | |- context [negb (isFinite ?n)] => destruct (isFinite n) eqn:Hfin
    end; simpl; try discriminate; auto.
Qed.

Lemma parse_matches_valid (p : StatParser.t) (ms : list Regex.found)
      (cmd : StatParser.ParsedCommand) :
  In cmd (StatParser.parse_matches p ms) -> StatParser.isValid cmd = true ->
  isFinite (StatParser.value cmd) = true
  /\ (StatParser.type cmd = MODIFY \/ StatParser.type cmd = SET).
Proof.
  induction ms as [|f ms IH]; simpl; [contradiction|].
  intros [<-|H]; [apply parseCommand_valid|now apply IH].
Qed.

Lemma parse_valid (p : StatParser.t) (text : string) (cmd : StatParser.ParsedCommand) :
  In cmd (StatParser.parse p text) -> StatParser.isValid cmd = true ->
  isFinite (StatParser.value cmd) = true
  /\ (StatParser.type cmd = MODIFY \/ StatParser.type cmd = SET).
Proof.
  unfold StatParser.parse.
  destruct (negb (isNonEmptyString (VStr text))); [contradiction|].
  apply parse_matches_valid.
Qed.

Context {Manager Stat : Type} {api : StatApi Manager Stat}.

(** The loop of [processMessage] goes through all the commands in order:
    the stats end as the commands applied one after the other leave them,
    and every command has its entry in [changes]. *)
Lemma apply_commands_all (commands : list StatParser.ParsedCommand) :
  forall m : Manager,
    fst (StateManager.apply_commands m commands) = fold_left apply_command commands m
    /\ map StateManager.ch_statId (snd (StateManager.apply_commands m commands))
       = map StatParser.statId commands.
Proof.
  induction commands as [|cmd rest IH]; intros m; simpl; [auto|].
  destruct (manager_get m (StatParser.statId cmd)) as [stat|] eqn:Hg.
  - destruct (match StatParser.type cmd with
              | SET => stat_set stat (StatParser.value cmd)
              | _ => stat_modify stat (StatParser.value cmd)
              end) as [stat' result] eqn:Hop.
    assert (Hc : apply_command m cmd = manager_update m (StatParser.statId cmd) stat')
      by (unfold apply_command; rewrite Hg; now rewrite Hop).
    destruct (IH (manager_update m (StatParser.statId cmd) stat')) as [H1 H2].
    destruct (StateManager.apply_commands _ rest) as [m' cs]. simpl in *.
    now rewrite Hc, H1, H2.
  - assert (Hc : apply_command m cmd = m) by (unfold apply_command; now rewrite Hg).
    destruct (IH m) as [H1 H2].
    destruct (StateManager.apply_commands m rest) as [m' cs]. simpl in *.
    now rewrite Hc, H1, H2.
Qed.

Lemma getActiveState_set (sm : @StateManager.t Manager)
      (st : @StateManager.SimulationState Manager) :
  StateManager.getActiveState (StateManager.setActiveState sm st) = Some st.
Proof.
  destruct sm as [cur glob [en scope] prs]. destruct scope; reflexivity.
Qed.

Lemma processMessage_all (sm : @StateManager.t Manager)
      (st : @StateManager.SimulationState Manager)
      (text : string) :
  StateManager.getActiveState sm = Some st ->
  StateManager.enabled (StateManager.settings sm) = true ->
  let commands := StatParser.parseValid (StateManager.parser sm) text in
  let out := StateManager.processMessage sm text in
  activeStats (fst out) = Some (fold_left apply_command commands (StateManager.statManager st))
  /\ map StateManager.ch_statId (StateManager.changes (snd out))
     = map StatParser.statId commands
  /\ StateManager.commandCount (snd out) = Some (List.length commands).
Proof.
  intros Hact Hen commands out. subst out.
  cbv beta delta [StateManager.processMessage].
  rewrite Hact, Hen. simpl. fold commands.
  destruct (apply_commands_all commands (StateManager.statManager st)) as [H1 H2].
  destruct (StateManager.apply_commands (StateManager.statManager st) commands)
    as [m' cs]. simpl in *.
  unfold activeStats. rewrite getActiveState_set. simpl. now rewrite H1, H2.
Qed.

End ChangesFacts.

Section C2.
Import JS Utils Samples Shapes NumFacts.
Local Open Scope float_scope.
Local Open Scope string_scope.

(** C2: [getStatChanges] maps an id to the first command of the text
    that is valid and carries that id, whatever follows and whatever
    invalid command stands before it; the command it keeps has a finite
    value and the type MODIFY or SET.  [processMessage], enabled and with
    an active state, applies all the commands that [parse] returned with
    [isValid] set, and only those, in the order of the text, and reports
    one change for each.  On "{{hp:-10}} {{hp:-20}}" the first keeps -10
    for [hp], the second takes [hp] from 100 to 70, with the stats of the
    bundled extension under either [processMessage]; on
    "{{hp:--5}} {{hp:-10}}", where [parse] returns an invalid command
    first, [getStatChanges] keeps -10 and [processMessage] applies that
    command alone. *)
Theorem C2_first_match_and_apply_all
    {Manager Stat : Type} {api : StatApi Manager Stat}
    (sm : @StateManager.t Manager) (st : @StateManager.SimulationState Manager)
    (text id : string) (env : Env) :
  StateManager.getActiveState sm = Some st ->
  StateManager.enabled (StateManager.settings sm) = true ->
  let parsed := StatParser.parse (StateManager.parser sm) text in
  let commands := filter StatParser.isValid parsed in
  let kept := JsMap.get (StatParser.getStatChanges (StateManager.parser sm) text) id in
  let out := StateManager.processMessage sm text in
  kept = find (fun c => (StatParser.isValid c && (StatParser.statId c =? id))%bool) parsed
  /\ (forall c, kept = Some c ->
        In c parsed
        /\ StatParser.isValid c = true /\ StatParser.statId c = id
        /\ isFinite (StatParser.value c) = true
        /\ (StatParser.type c = MODIFY \/ StatParser.type c = SET))
  /\ (kept = None ->
      forall c, In c parsed -> StatParser.isValid c = true -> StatParser.statId c <> id)
  /\ activeStats (fst out)
     = Some (fold_left apply_command commands (StateManager.statManager st))
  /\ map StateManager.ch_statId (StateManager.changes (snd out))
     = map StatParser.statId commands
  /\ StateManager.commandCount (snd out) = Some (List.length commands)
  /\ option_map StatParser.value
       (JsMap.get (StatParser.getStatChanges defaultParser "{{hp:-10}} {{hp:-20}}") "hp")
     = Some (-10)
  /\ match activeStats
             (fst (StateManager.processMessage (managerWith (hpManager env))
                     "{{hp:-10}} {{hp:-20}}")) with
     | Some stats =>
         option_map Standalone.Stat.currentValue (Standalone.StatManager.get stats "hp")
     | None => None
     end = Some 70
  /\ match Bundled.StateManager.getActiveState
             (fst (Bundled.StateManager.processMessage
                     (bundledManagerWith (hpManager env)) "{{hp:-10}} {{hp:-20}}")) with
     | Some state =>
         option_map Standalone.Stat.currentValue
           (Standalone.StatManager.get (Bundled.StateManager.statManager state) "hp")
     | None => None
     end = Some 70
  /\ map (fun c => (StatParser.isValid c, StatParser.type c))
         (StatParser.parse defaultParser "{{hp:--5}} {{hp:-10}}")
     = [(false, INVALID); (true, MODIFY)]
  /\ option_map StatParser.value
       (JsMap.get (StatParser.getStatChanges defaultParser "{{hp:--5}} {{hp:-10}}") "hp")
     = Some (-10)
  /\ (let out' := StateManager.processMessage (managerWith (hpManager env))
                    "{{hp:--5}} {{hp:-10}}" in
      match activeStats (fst out') with
      | Some stats =>
          option_map Standalone.Stat.currentValue (Standalone.StatManager.get stats "hp")
      | None => None
      end = Some 90
      /\ StateManager.commandCount (snd out') = Some 1%nat).
Proof.
  intros Hact Hen parsed commands kept out.
  assert (Hkept : kept
    = find (fun c => (StatParser.isValid c && (StatParser.statId c =? id))%bool) parsed)
    by apply getStatChanges_first_valid.
  split; [exact Hkept|].
  split.
  { intros c Hc. rewrite Hkept in Hc.
    pose proof (find_some _ _ Hc) as [Hin Hb].
    apply andb_prop in Hb. destruct Hb as [Hv Hid].
    apply String.eqb_eq in Hid.
    destruct (parse_valid _ _ _ Hin Hv) as [Hfin Hty]. auto. }
  split.
  { intros Hnone c Hin Hv Hid. rewrite Hkept in Hnone.
    pose proof (find_none _ _ Hnone c Hin) as Hb. cbv beta in Hb.
    rewrite Hv in Hb. apply String.eqb_eq in Hid. rewrite Hid in Hb. discriminate. }
  destruct (processMessage_all sm st text Hact Hen) as (H1 & H2 & H3).
  split; [exact H1|]. split; [exact H2|]. split; [exact H3|].
  repeat split; vm_compute; reflexivity.
Qed.

Lemma C2_first_match_and_apply_all_witness :
  let sm := managerWith (hpManager env0) in
  let out := StateManager.processMessage sm "{{hp:-10}} {{hp:-20}}" in
  map StateManager.ch_statId (StateManager.changes (snd out)) = ["hp"; "hp"]
  /\ StateManager.commandCount (snd out) = Some 2%nat.
Proof.
  intros sm out.
  destruct (C2_first_match_and_apply_all sm
              {| StateManager.sim_id := "sim"; StateManager.sim_name := "New Simulation";
                 StateManager.createdAt := 0; StateManager.updatedAt := 0;
                 StateManager.turnCount := 0;
                 StateManager.statManager := hpManager env0 |}
              "{{hp:-10}} {{hp:-20}}" "hp" env0 eq_refl eq_refl)
    as (_ & _ & _ & _ & H2 & H3 & _).
  split; [exact H2|exact H3].
Defined.

End C2.

Section TwoParsers.
Import JS Utils Samples NumFacts.
Local Open Scope float_scope.
Local Open Scope string_scope.

(** C9 fails: the bundled parser reads the value with [parseFloat], which
    stops at the first character that is not part of a number, and takes
    any text in front of the separator as the id.  On "{{hp:10abc}}" it
    returns a command; the pattern of the Parser module does not match
    there. *)
Lemma C9_parsers_disagree : ~ (forall text : string, parsers_agree text).
Proof.
  intros H. specialize (H "{{hp:10abc}}"). vm_compute in H. discriminate.
Qed.

End TwoParsers.

(* ===================================================================== *)
(** * Matching *)
(* ===================================================================== *)

Section RunFacts.
Import JS Regex Samples.
Local Open Scope nat_scope.
Context {R : Type}.
Implicit Types (k : list ascii -> captures -> option R) (s l : list ascii)
         (cs : captures) (p : ascii -> bool).

Lemma run_Empty fuel s cs k : run fuel Empty s cs k = k s cs.
Proof. destruct fuel; reflexivity. Qed.

Lemma run_Class fuel p c s cs k :
  run fuel (Class p) (c :: s) cs k = if p c then k s cs else None.
Proof. destruct fuel; reflexivity. Qed.

Lemma run_Class_nil fuel p cs k : run fuel (Class p) [] cs k = None.
Proof. destruct fuel; reflexivity. Qed.

Lemma run_Cat fuel a b s cs k :
  run fuel (Cat a b) s cs k = run fuel a s cs (fun s' cs' => run fuel b s' cs' k).
Proof. destruct fuel; reflexivity. Qed.

Lemma run_Or fuel a b s cs k :
  run fuel (Or a b) s cs k
  = match run fuel a s cs k with
    | Some x => Some x
    | None => run fuel b s cs k
    end.
Proof. destruct fuel; reflexivity. Qed.

Lemma run_Star fuel a s cs k :
  run (S fuel) (Star a) s cs k
  = match run (S fuel) a s cs
            (fun s' cs' => if Nat.ltb (List.length s') (List.length s)
                           then run fuel (Star a) s' cs' k else None) with
    | Some x => Some x
    | None => k s cs
    end.
Proof. reflexivity. Qed.

Lemma run_Group fuel i a s cs k :
  run fuel (Group i a) s cs k
  = run fuel a s cs (fun s' cs' => k s' ((i, consumed s s') :: cs')).
Proof. destruct fuel; reflexivity. Qed.

(** A literal in front of the text is consumed. *)
Lemma run_Literal fuel l s cs k : run fuel (Literal l) (l ++ s) cs k = k s cs.
Proof.
  induction l as [|c l IH]; simpl.
  - apply run_Empty.
  - rewrite run_Cat. unfold Char. rewrite run_Class, Ascii.eqb_refl. apply IH.
Qed.

Lemma run_Star_stop fuel p s cs k :
  stops p s -> run (S fuel) (Star (Class p)) s cs k = k s cs.
Proof.
  intros H. rewrite run_Star. destruct s as [|c s]; simpl in H.
  - now rewrite run_Class_nil.
  - now rewrite run_Class, H.
Qed.

(** A greedy star over a class takes the whole run of characters of the
    class when what follows then matches. *)
Lemma run_Star_Class fuel p l s cs k x :
  forallb p l = true -> stops p s -> List.length (l ++ s) < fuel ->
  k s cs = Some x ->
  run fuel (Star (Class p)) (l ++ s) cs k = Some x.
Proof.
  revert fuel. induction l as [|c l IH]; intros fuel Hall Hstop Hfuel Hk.
  - destruct fuel as [|fuel]; [inversion Hfuel|].
    change ([] ++ s) with s. now rewrite run_Star_stop.
  - destruct fuel as [|fuel]; [inversion Hfuel|].
    simpl in Hall. apply andb_prop in Hall. destruct Hall as [Hc Hall].
    change ((c :: l) ++ s) with (c :: l ++ s). rewrite run_Star, run_Class, Hc.
    assert (Hlt : Nat.ltb (List.length (l ++ s)) (List.length (c :: l ++ s)) = true)
      by (apply Nat.ltb_lt; simpl; lia).
    rewrite Hlt. rewrite (IH fuel Hall Hstop); [reflexivity| |exact Hk].
    simpl in Hfuel. lia.
Qed.

Lemma run_Plus_Class fuel p c l s cs k x :
  p c = true -> forallb p l = true -> stops p s ->
  List.length (c :: l ++ s) < fuel ->
  k s cs = Some x ->
  run fuel (Plus (Class p)) (c :: l ++ s) cs k = Some x.
Proof.
  intros Hc Hall Hstop Hfuel Hk. unfold Plus. rewrite run_Cat, run_Class, Hc.
  apply run_Star_Class; try assumption. simpl in Hfuel. lia.
Qed.

Lemma run_Opt_skip fuel p c s cs k :
  p c = false -> run fuel (Opt (Class p)) (c :: s) cs k = k (c :: s) cs.
Proof. intros H. unfold Opt. now rewrite run_Or, run_Class, H, run_Empty. Qed.

Lemma run_Opt_take fuel p c s cs k x :
  p c = true -> k s cs = Some x -> run fuel (Opt (Class p)) (c :: s) cs k = Some x.
Proof. intros H Hk. unfold Opt. now rewrite run_Or, run_Class, H, Hk. Qed.

Lemma consumed_app l s : consumed (l ++ s) s = l.
Proof.
  unfold consumed. rewrite length_app.
  replace (List.length l + List.length s - List.length s)%nat with (List.length l) by lia.
  rewrite firstn_app, firstn_all, Nat.sub_diag. simpl. apply app_nil_r.
Qed.

Lemma consumed_all s : consumed s [] = s.
Proof. unfold consumed. simpl. rewrite Nat.sub_0_r. apply firstn_all. Qed.

End RunFacts.

(* ===================================================================== *)
(** * Characters and strings *)
(* ===================================================================== *)

Section CharFacts.
Import JS Utils Regex Samples.
Local Open Scope nat_scope.

(** Case analysis over the 256 characters. *)
Ltac by_cases_on c :=
  destruct c as [[] [] [] [] [] [] [] []]; try reflexivity; try discriminate.

Lemma id_rest_no_space c : StatParser.is_id_rest c = true -> is_space c = false.
Proof. by_cases_on c. Qed.

Lemma id_start_is_rest c : StatParser.is_id_start c = true -> StatParser.is_id_rest c = true.
Proof. by_cases_on c. Qed.

Lemma id_rest_no_colon c : StatParser.is_id_rest c = true -> Ascii.eqb (chr 58) c = false.
Proof. by_cases_on c. Qed.

Lemma id_rest_no_brace c : StatParser.is_id_rest c = true -> Ascii.eqb (chr 125) c = false.
Proof. by_cases_on c. Qed.

Lemma digit_no_space c : is_digit c = true -> is_space c = false.
Proof. by_cases_on c. Qed.

Lemma digit_no_operator c : is_digit c = true -> StatParser.is_operator c = false.
Proof. by_cases_on c. Qed.

Lemma digit_no_minus c : is_digit c = true -> Ascii.eqb (chr 45) c = false.
Proof. by_cases_on c. Qed.

Lemma digit_no_dot c : is_digit c = true -> Ascii.eqb (chr 46) c = false.
Proof. by_cases_on c. Qed.

Lemma digit_no_brace c : is_digit c = true -> Ascii.eqb (chr 125) c = false.
Proof. by_cases_on c. Qed.

Lemma digit_code c :
  is_digit c = true ->
  Nat.eqb (code c) 45 = false /\ Nat.eqb (code c) 43 = false
  /\ Nat.eqb (code c) 46 = false /\ Nat.eqb (code c) 61 = false
  /\ Ascii.eqb "I"%char c = false /\ is_exp_mark c = false
  /\ Ascii.eqb (chr 61) c = false.
Proof. by_cases_on c; intros _; repeat split; reflexivity. Qed.

Lemma digit_no_radix_mark c :
  (is_digit c || Nat.eqb (code c) 46)%bool = true ->
  Nat.eqb (code (lower_char c)) 120 = false
  /\ Nat.eqb (code (lower_char c)) 111 = false
  /\ Nat.eqb (code (lower_char c)) 98 = false.
Proof. by_cases_on c; intros _; repeat split; reflexivity. Qed.

Lemma chars_str (l : list ascii) : chars (str l) = l.
Proof. apply list_ascii_of_string_of_list_ascii. Qed.

Lemma str_chars (s : string) : str (chars s) = s.
Proof. apply string_of_list_ascii_of_string. Qed.

Lemma length_str (l : list ascii) : String.length (str l) = List.length l.
Proof. induction l as [|c l IH]; simpl; [reflexivity|now rewrite IH]. Qed.

Lemma str_empty (l : list ascii) : String.eqb (str l) "" = match l with [] => true | _ => false end.
Proof. destruct l; reflexivity. Qed.

Lemma drop_spaces_no_space (l : list ascii) :
  forallb no_space l = true -> drop_spaces l = l.
Proof.
  destruct l as [|c l]; simpl; [reflexivity|].
  unfold no_space. intros H. apply andb_prop in H. destruct H as [H _].
  now destruct (is_space c).
Qed.

Lemma forallb_rev {A : Type} (p : A -> bool) (l : list A) :
  forallb p l = true -> forallb p (rev l) = true.
Proof.
  rewrite !forallb_forall. intros H x Hx. apply H. now apply in_rev.
Qed.

Lemma trim_chars_no_space (l : list ascii) :
  forallb no_space l = true -> trim_chars l = l.
Proof.
  intros H. unfold trim_chars. rewrite (drop_spaces_no_space l H).
  rewrite (drop_spaces_no_space (rev l)) by now apply forallb_rev.
  apply rev_involutive.
Qed.

Lemma trim_no_space (l : list ascii) : forallb no_space l = true -> trim (str l) = str l.
Proof. intros H. unfold trim. now rewrite chars_str, trim_chars_no_space. Qed.

Lemma filter_no_space (l : list ascii) :
  forallb no_space l = true -> filter (fun c => negb (is_space c)) l = l.
Proof.
  induction l as [|c l IH]; simpl; [reflexivity|].
  intros H. apply andb_prop in H. destruct H as [Hc Hl].
  unfold no_space in Hc. rewrite Hc. now rewrite IH.
Qed.

Lemma forallb_impl {A : Type} (p q : A -> bool) (l : list A) :
  (forall x, p x = true -> q x = true) -> forallb p l = true -> forallb q l = true.
Proof. rewrite !forallb_forall. auto. Qed.

Lemma span_all (p : ascii -> bool) (l s : list ascii) :
  forallb p l = true -> stops p s -> span p (l ++ s) = (l, s).
Proof.
  intros Hl Hs. induction l as [|c l IH]; simpl in *.
  - destruct s as [|c s]; [reflexivity|]. simpl in Hs. simpl. now rewrite Hs.
  - apply andb_prop in Hl. destruct Hl as [Hc Hl]. now rewrite Hc, IH.
Qed.

Lemma index_of_first (p0 : ascii) (l s : list ascii) (i : nat) :
  forallb (fun c => negb (Ascii.eqb p0 c)) l = true ->
  index_of [p0] (l ++ p0 :: s) i = Some (i + List.length l).
Proof.
  revert i. induction l as [|c l IH]; intros i Hl; simpl in *.
  - rewrite Ascii.eqb_refl. f_equal. lia.
  - apply andb_prop in Hl. destruct Hl as [Hc Hl].
    destruct (Ascii.eqb p0 c); [discriminate|].
    rewrite IH by assumption. f_equal. lia.
Qed.

End CharFacts.

Section TokenFacts.
Import JS Utils Regex Samples.
Local Open Scope nat_scope.

Implicit Types (t : token).

Lemma token_ok_parts t :
  token_ok t = true ->
  StatParser.is_id_start (tk_first t) = true
  /\ forallb StatParser.is_id_rest (tk_rest t) = true
  /\ is_digit (tk_digit t) = true
  /\ forallb is_digit (tk_digits t) = true
  /\ match tk_fraction t with
     | Some (d, ds) => is_digit d = true /\ forallb is_digit ds = true
     | None => True
     end.
Proof.
  unfold token_ok. intros H.
  repeat (apply andb_prop in H; destruct H as [H ?]).
  repeat split; try assumption.
  destruct (tk_fraction t) as [[d ds]|]; [|exact I].
  now apply andb_prop.
Qed.

(** The fraction part of the pattern on the fraction of a token. *)
Lemma run_fraction {R : Type} fuel (f : option (ascii * list ascii)) s cs
      (k : list ascii -> captures -> option R) x :
  match f with
  | Some (d, ds) => is_digit d = true /\ forallb is_digit ds = true
  | None => True
  end ->
  stops is_digit s -> stops (Ascii.eqb (chr 46)) s ->
  List.length (fraction_chars f ++ s) < fuel ->
  k s cs = Some x ->
  run fuel (Opt (Cat (Char (chr 46)) (Plus (Class is_digit)))) (fraction_chars f ++ s) cs k
  = Some x.
Proof.
  intros Hf Hs Hdot Hfuel Hk. unfold Opt. rewrite run_Or.
  destruct f as [[d ds]|]; simpl fraction_chars in *.
  - destruct Hf as [Hd Hds].
    change ((chr 46 :: d :: ds) ++ s) with (chr 46 :: d :: ds ++ s).
    rewrite run_Cat. unfold Char at 1. rewrite run_Class, Ascii.eqb_refl.
    rewrite (run_Plus_Class fuel is_digit d ds s cs k x); try assumption; [reflexivity|].
    simpl List.length in *. lia.
  - change ([] ++ s) with s. rewrite run_Cat. unfold Char.
    destruct s as [|c s]; [now rewrite run_Class_nil, run_Empty|].
    unfold stops in Hdot. now rewrite run_Class, Hdot, run_Empty.
Qed.

Lemma consumed_cons_app c l s : consumed (c :: l ++ s) s = c :: l.
Proof. apply (consumed_app (c :: l) s). Qed.

End TokenFacts.

Section ReadingFacts.
Import JS Utils Regex Samples.
Local Open Scope nat_scope.

Implicit Types (t : token).

Lemma fraction_head (f : option (ascii * list ascii)) :
  match f with
  | Some (d, ds) => is_digit d = true /\ forallb is_digit ds = true
  | None => True
  end ->
  stops is_digit (fraction_chars f).
Proof. destruct f as [[d ds]|]; reflexivity. Qed.

Lemma span_whole (p : ascii -> bool) (l : list ascii) :
  forallb p l = true -> span p l = (l, []).
Proof.
  intros H. rewrite <- (app_nil_r l) at 1. now apply span_all.
Qed.

(** Reading the digits and the fraction of a token. *)
Lemma read_number t (neg : bool) :
  token_ok t = true ->
  exists x, read_unsigned_decimal neg (token_number t) = Some (x, []).
Proof.
  intros Hok. destruct (token_ok_parts t Hok) as (_ & _ & Hd & Hds & Hf).
  destruct (digit_code _ Hd) as (_ & _ & _ & _ & HI & _).
  unfold read_unsigned_decimal, token_number.
  cbn [chars list_ascii_of_string starts_with]. rewrite HI.
  change (tk_digit t :: tk_digits t ++ fraction_chars (tk_fraction t))
    with ((tk_digit t :: tk_digits t) ++ fraction_chars (tk_fraction t)).
  rewrite span_all; [|simpl; now rewrite Hd|now apply fraction_head].
  destruct (tk_fraction t) as [[fd fds]|]; cbn [fraction_chars].
  - destruct Hf as [Hfd Hfds].
    replace (Nat.eqb (code (chr 46)) 46) with true by reflexivity.
    rewrite span_whole by (simpl; now rewrite Hfd).
    cbn [read_exponent]. eauto.
  - cbn [read_exponent]. eauto.
Qed.

Lemma read_sign_digit c l : is_digit c = true -> read_sign (c :: l) = (false, c :: l).
Proof.
  intros H. destruct (digit_code _ H) as (H1 & H2 & _). unfold read_sign.
  now rewrite H1, H2.
Qed.

(** The numeral of a token reads as a number with nothing left over, or
    not at all. *)
Lemma token_reading_shape t :
  token_ok t = true ->
  token_reading t = None \/ exists x, token_reading t = Some (x, []).
Proof.
  intros Hok. destruct (token_ok_parts t Hok) as (_ & _ & Hd & _).
  unfold token_reading, token_numeral, read_decimal.
  destruct (tk_sign t); cbn [chars list_ascii_of_string List.app].
  1,2: right; unfold token_number at 1; rewrite read_sign_digit by assumption;
       apply (read_number t false Hok).
  1: right; cbn [read_sign]; apply (read_number t false Hok).
  1,2: right; apply (read_number t true Hok).
  1,2: left; reflexivity.
Qed.

Lemma numeral_no_radix t : token_ok t = true -> read_radix (token_numeral t) = None.
Proof.
  intros Hok. destruct (token_ok_parts t Hok) as (_ & _ & Hd & Hds & Hf).
  unfold token_numeral, token_number.
  assert (Hnext : forall z, read_radix
            (z :: tk_digits t ++ fraction_chars (tk_fraction t)) = None).
  { intros z. unfold read_radix.
    destruct (tk_digits t) as [|y ys] eqn:E; simpl List.app.
    - destruct (tk_fraction t) as [[fd fds]|]; [|reflexivity].
      cbn [fraction_chars].
      destruct (digit_no_radix_mark (chr 46) eq_refl) as (A & B & C).
      rewrite A, B, C. now destruct (negb _).
    - simpl in Hds. apply andb_prop in Hds. destruct Hds as [Hy _].
      destruct (digit_no_radix_mark y) as (A & B & C); [now rewrite Hy|].
      rewrite A, B, C. now destruct (negb _). }
  destruct (tk_sign t); cbn [chars list_ascii_of_string List.app];
    try apply Hnext; reflexivity.
Qed.

End ReadingFacts.

Section TokenParsing.
Import JS Utils Regex Samples.
Local Open Scope nat_scope.
Local Open Scope string_scope.

Implicit Types (t : token).

Lemma exec_here (r : re) (s : list ascii) (f : found) :
  match_here r s = Some f -> exec r s = Some f.
Proof. intros H. destruct s; simpl; now rewrite H. Qed.

Lemma digit_is_no_space c : is_digit c = true -> no_space c = true.
Proof. intros H. unfold no_space. now rewrite digit_no_space. Qed.

Lemma id_is_no_space c : StatParser.is_id_rest c = true -> no_space c = true.
Proof. intros H. unfold no_space. now rewrite id_rest_no_space. Qed.

Lemma id_no_space t : token_ok t = true -> forallb no_space (token_id t) = true.
Proof.
  intros Hok. destruct (token_ok_parts t Hok) as (Hfirst & Hrest & _).
  unfold token_id. simpl. rewrite (id_is_no_space _ (id_start_is_rest _ Hfirst)).
  exact (forallb_impl _ _ _ id_is_no_space Hrest).
Qed.

Lemma number_no_space t : token_ok t = true -> forallb no_space (token_number t) = true.
Proof.
  intros Hok. destruct (token_ok_parts t Hok) as (_ & _ & Hd & Hds & Hf).
  unfold token_number. simpl. rewrite (digit_is_no_space _ Hd), forallb_app.
  rewrite (forallb_impl _ _ _ digit_is_no_space Hds). simpl.
  destruct (tk_fraction t) as [[fd fds]|]; [|reflexivity].
  destruct Hf as [Hfd Hfds]. simpl. rewrite (digit_is_no_space _ Hfd).
  exact (forallb_impl _ _ _ digit_is_no_space Hfds).
Qed.

Lemma value_no_space t : token_ok t = true -> forallb no_space (token_value t) = true.
Proof.
  intros Hok. unfold token_value. rewrite forallb_app, (number_no_space t Hok).
  now destruct (tk_sign t).
Qed.

Lemma numeral_no_space t : token_ok t = true -> forallb no_space (token_numeral t) = true.
Proof.
  intros Hok. unfold token_numeral. rewrite forallb_app, (number_no_space t Hok).
  now destruct (tk_sign t).
Qed.

(** The value of a token starts with [=] exactly when it is a SET
    command, and the numeral is what follows. *)
Lemma value_numeral t :
  token_ok t = true ->
  (if startsWith (str (token_value t)) "="
   then (SET, substringFrom (str (token_value t)) 1)
   else (MODIFY, str (token_value t)))
  = (token_type t, str (token_numeral t)).
Proof.
  intros Hok. destruct (token_ok_parts t Hok) as (_ & _ & Hd & _).
  destruct (digit_code _ Hd) as (_ & _ & _ & _ & _ & _ & Heq).
  unfold startsWith, substringFrom. rewrite !chars_str.
  unfold token_value, token_numeral, token_type, token_number.
  destruct (tk_sign t); cbn [sign_chars chars list_ascii_of_string List.app starts_with skipn];
    try reflexivity.
  change (Ascii.eqb "="%char (tk_digit t)) with (Ascii.eqb (chr 61) (tk_digit t)).
  now rewrite Heq.
Qed.

Lemma numeral_not_empty t : String.eqb (str (token_numeral t)) "" = false.
Proof.
  rewrite str_empty. unfold token_numeral, token_number.
  now destruct (tk_sign t).
Qed.

Lemma value_not_empty t : String.eqb (str (token_value t)) "" = false.
Proof.
  rewrite str_empty. unfold token_value, token_number.
  now destruct (tk_sign t).
Qed.

(** [Number] of the numeral of a token. *)
Lemma Number_numeral t :
  token_ok t = true ->
  Number_of_string (str (token_numeral t))
  = match token_reading t with
    | Some (x, _) => x
    | None => PrimFloat.nan
    end.
Proof.
  intros Hok. unfold Number_of_string.
  rewrite chars_str, (trim_chars_no_space _ (numeral_no_space t Hok)).
  pose proof (numeral_no_radix t Hok) as Hr.
  pose proof (numeral_not_empty t) as Hne. rewrite str_empty in Hne.
  pose proof (token_reading_shape t Hok) as Hs. unfold token_reading in *.
  destruct (token_numeral t) as [|c l]; [discriminate|]. rewrite Hr.
  destruct Hs as [->|[x ->]]; reflexivity.
Qed.

End TokenParsing.

Section TokenCommands.
Import JS Utils Regex Samples.
Local Open Scope nat_scope.
Local Open Scope string_scope.

Implicit Types (t : token).

Lemma isNonEmptyString_no_space (l : list ascii) :
  forallb no_space l = true -> l <> [] -> isNonEmptyString (VStr (str l)) = true.
Proof.
  intros H Hne. unfold isNonEmptyString. rewrite (trim_no_space l H), length_str.
  destruct l; [congruence|reflexivity].
Qed.

Lemma toNumber_numeral t :
  token_ok t = true ->
  toNumber (VStr (str (token_numeral t))) PrimFloat.nan
  = match token_reading t with
    | Some (x, _) => if isFinite x then x else PrimFloat.nan
    | None => PrimFloat.nan
    end.
Proof.
  intros Hok. unfold toNumber. rewrite numeral_not_empty.
  cbn [Number]. rewrite (Number_numeral t Hok).
  destruct (token_reading t) as [[x rest]|]; [|reflexivity].
  now destruct (isFinite x).
Qed.

(** What [_parseCommand] makes of the id and the value of a token. *)
Lemma parseCommand_token t (raw : string) :
  token_ok t = true ->
  StatParser._parseCommand defaultParser raw (str (token_id t)) (str (token_value t))
  = match token_reading t with
    | Some (x, _) =>
        if isFinite x
        then {| StatParser.raw := raw; StatParser.statId := toLowerCase (str (token_id t));
                StatParser.value := x; StatParser.type := token_type t;
                StatParser.isValid := true; StatParser.error := "" |}
        else {| StatParser.raw := raw; StatParser.statId := toLowerCase (str (token_id t));
                StatParser.value := PrimFloat.nan; StatParser.type := INVALID;
                StatParser.isValid := false;
                StatParser.error := "Invalid number: " ++ str (token_value t) |}
    | None =>
        {| StatParser.raw := raw; StatParser.statId := toLowerCase (str (token_id t));
           StatParser.value := PrimFloat.nan; StatParser.type := INVALID;
           StatParser.isValid := false;
           StatParser.error := "Invalid number: " ++ str (token_value t) |}
    end.
Proof.
  intros Hok. unfold StatParser._parseCommand.
  rewrite (isNonEmptyString_no_space _ (id_no_space t Hok)) by discriminate.
  cbn [negb]. change (StatParser.caseSensitive defaultParser) with false. cbv iota.
  rewrite (trim_no_space _ (id_no_space t Hok)).
  unfold StatParser.remove_spaces.
  rewrite chars_str, (filter_no_space _ (value_no_space t Hok)), value_not_empty.
  pose proof (value_numeral t Hok) as Hv.
  destruct (startsWith (str (token_value t)) "="); injection Hv as <- Hs;
    rewrite Hs, (toNumber_numeral t Hok);
    (destruct (token_reading t) as [[x rest]|]; [|reflexivity]);
    (destruct (isFinite x) eqn:Hx; [now rewrite Hx|reflexivity]).
Qed.

End TokenCommands.

Section BundledTokens.
Import JS Utils Regex Samples.
Local Open Scope nat_scope.
Local Open Scope string_scope.

Implicit Types (t : token).

Let inside : ascii -> bool := Standalone.StatParser.not_close_start bundledParser.

Lemma inside_spec c : inside c = negb (Ascii.eqb (chr 125) c).
Proof. reflexivity. Qed.

Lemma id_inside c : StatParser.is_id_rest c = true -> inside c = true.
Proof. intros H. now rewrite inside_spec, id_rest_no_brace. Qed.

Lemma digit_inside c : is_digit c = true -> inside c = true.
Proof. intros H. now rewrite inside_spec, digit_no_brace. Qed.

Lemma content_inside t :
  token_ok t = true ->
  inside (tk_first t) = true
  /\ forallb inside (tk_rest t ++ chars ":" ++ token_value t) = true.
Proof.
  intros Hok. destruct (token_ok_parts t Hok) as (Hfirst & Hrest & Hd & Hds & Hf).
  split; [now apply id_inside, id_start_is_rest|].
  rewrite forallb_app, (forallb_impl _ _ _ id_inside Hrest).
  cbn [chars list_ascii_of_string List.app forallb andb].
  replace (inside ":"%char) with true by reflexivity.
  unfold token_value, token_number. rewrite forallb_app.
  replace (forallb inside (sign_chars (tk_sign t))) with true
    by now destruct (tk_sign t).
  cbn [forallb andb]. rewrite (digit_inside _ Hd), forallb_app.
  rewrite (forallb_impl _ _ _ digit_inside Hds). cbn [andb].
  destruct (tk_fraction t) as [[fd fds]|]; [|reflexivity].
  destruct Hf as [Hfd Hfds]. cbn [fraction_chars forallb].
  rewrite (digit_inside _ Hfd), (forallb_impl _ _ _ digit_inside Hfds).
  reflexivity.
Qed.

Lemma firstn_exact {A : Type} (l s : list A) : firstn (List.length l) (l ++ s) = l.
Proof. rewrite firstn_app, firstn_all, Nat.sub_diag. simpl. apply app_nil_r. Qed.

Lemma skipn_exact {A : Type} (l s : list A) : skipn (List.length l) (l ++ s) = s.
Proof. rewrite skipn_app, skipn_all, Nat.sub_diag. reflexivity. Qed.

Lemma id_no_colon t :
  token_ok t = true ->
  forallb (fun c => negb (Ascii.eqb ":"%char c)) (token_id t) = true.
Proof.
  intros Hok. destruct (token_ok_parts t Hok) as (Hfirst & Hrest & _).
  unfold token_id. cbn [forallb].
  change ":"%char with (chr 58).
  rewrite (id_rest_no_colon _ (id_start_is_rest _ Hfirst)). cbn [negb andb].
  apply (forallb_impl StatParser.is_id_rest); [|exact Hrest].
  intros c Hc. now rewrite id_rest_no_colon.
Qed.

Lemma substring_prefix (l s : list ascii) :
  substring (str (l ++ s)) 0 (List.length l) = str l.
Proof.
  unfold substring. rewrite chars_str, Nat.sub_0_r. cbn [skipn]. now rewrite firstn_exact.
Qed.

Lemma substringFrom_suffix (l s : list ascii) (c : ascii) :
  substringFrom (str (l ++ c :: s)) (List.length l + 1) = str s.
Proof.
  unfold substringFrom. rewrite chars_str.
  change (l ++ c :: s)%list with (l ++ [c] ++ s)%list. rewrite app_assoc.
  replace (List.length l + 1) with (List.length (l ++ [c]))
    by (rewrite length_app; reflexivity).
  now rewrite skipn_exact.
Qed.

End BundledTokens.
(* ===================================================================== *)
(** * The two parsers on texts with tokens *)
(* ===================================================================== *)

Section SpacedTokens.
Import JS Utils Regex Samples.
Local Open Scope nat_scope.

Implicit Types (t : token) (w : spaced).

(** The value part of the pattern of the Parser module. *)
Let value_pattern : re :=
  Cats [ Opt (Class StatParser.is_operator);
         Star (Class is_space);
         Opt (Char (chr 45));
         Plus (Class is_digit);
         Opt (Cat (Char (chr 46)) (Plus (Class is_digit))) ].

Ltac by_chars c :=
  destruct c as [[] [] [] [] [] [] [] []]; try reflexivity; try discriminate.

(** White space is none of the characters the grammar of a token names. *)
Lemma space_facts c :
  is_space c = true ->
  StatParser.is_id_rest c = false /\ is_digit c = false
  /\ StatParser.is_operator c = false
  /\ Ascii.eqb (chr 45) c = false /\ Ascii.eqb (chr 46) c = false
  /\ Ascii.eqb (chr 58) c = false /\ Ascii.eqb (chr 125) c = false
  /\ Ascii.eqb (chr 123) c = false /\ Ascii.eqb "I"%char c = false
  /\ Nat.eqb (code c) 46 = false.
Proof. by_chars c; intros _; repeat split; reflexivity. Qed.

Lemma stops_spaces (p : ascii -> bool) (ws s : list ascii) :
  forallb is_space ws = true -> (forall c, is_space c = true -> p c = false) ->
  stops p s -> stops p (ws ++ s).
Proof.
  intros Hws Hp Hs. destruct ws as [|c ws]; [exact Hs|].
  simpl in *. apply andb_prop in Hws. now apply Hp.
Qed.

Lemma sign_parts (sg : token_sign) : sign_chars sg = (sign_operator sg ++ sign_minus sg)%list.
Proof. now destruct sg. Qed.

Lemma spaced_ok_parts w :
  spaced_ok w = true ->
  token_ok (sp_token w) = true
  /\ forallb is_space (sp_open w) = true /\ forallb is_space (sp_id w) = true
  /\ forallb is_space (sp_separator w) = true /\ forallb is_space (sp_operator w) = true
  /\ forallb is_space (sp_close w) = true
  /\ operator_space_ok w = true.
Proof.
  unfold spaced_ok. intros H.
  do 6 (apply andb_prop in H; destruct H as [H ?]). repeat split; assumption.
Qed.

Lemma spaced_chars_app w (rest : list ascii) :
  (spaced_chars w ++ rest
   = chars "{{" ++ sp_open w ++ token_id (sp_token w) ++ sp_id w ++ chars ":"
     ++ sp_separator w ++ spaced_value w ++ sp_close w ++ chars "}}" ++ rest)%list.
Proof.
  unfold spaced_chars, spaced_content. now repeat rewrite <- app_assoc.
Qed.

Lemma spaced_chars_length w (rest : list ascii) :
  List.length (spaced_chars w ++ rest)
  = 2 + List.length (sp_open w) + List.length (token_id (sp_token w))
    + List.length (sp_id w) + 1 + List.length (sp_separator w)
    + List.length (spaced_value w) + List.length (sp_close w) + 2 + List.length rest.
Proof.
  rewrite spaced_chars_app. repeat rewrite length_app.
  change (List.length (chars "{{")) with 2. change (List.length (chars "}}")) with 2.
  change (List.length (chars ":")) with 1. lia.
Qed.

(** The digits and the fraction of a token under the last two parts of
    the value pattern. *)
Lemma run_number {R : Type} fuel t s cs (k : list ascii -> captures -> option R) x :
  token_ok t = true ->
  stops is_digit s -> stops (Ascii.eqb (chr 46)) s ->
  List.length (token_number t ++ s) < fuel ->
  k s cs = Some x ->
  run fuel (Cat (Plus (Class is_digit))
             (Cat (Opt (Cat (Char (chr 46)) (Plus (Class is_digit)))) Empty))
      (token_number t ++ s) cs k = Some x.
Proof.
  intros Hok Hs Hdot Hfuel Hk.
  destruct (token_ok_parts t Hok) as (_ & _ & Hd & Hds & Hf).
  unfold token_number in *.
  change ((tk_digit t :: tk_digits t ++ fraction_chars (tk_fraction t)) ++ s)%list
    with (tk_digit t :: (tk_digits t ++ fraction_chars (tk_fraction t)) ++ s)%list in *.
  rewrite <- app_assoc in *.
  rewrite run_Cat. apply run_Plus_Class; try assumption.
  - destruct (tk_fraction t) as [[d ds]|]; [reflexivity|exact Hs].
  - rewrite run_Cat. apply run_fraction; try assumption; [|now rewrite run_Empty].
    revert Hfuel. simpl. rewrite !length_app. lia.
Qed.

Lemma number_head t (s : list ascii) :
  exists l, (token_number t ++ s)%list = tk_digit t :: l.
Proof. unfold token_number. eexists. reflexivity. Qed.


Ltac take_operator := rewrite run_Cat; apply run_Opt_take; [reflexivity|]; cbv beta.
Ltac take_minus :=
  rewrite run_Cat; unfold Char at 1; apply run_Opt_take; [reflexivity|].
Ltac skip_minus :=
  rewrite run_Cat; unfold Char at 1; rewrite run_Opt_skip by now apply digit_no_minus.
Ltac no_spaces := rewrite run_Cat, run_Star_stop by now apply digit_no_space.

(** The value pattern takes the value of a token with its white space. *)
Lemma run_spaced_value {R : Type} fuel w s cs (k : list ascii -> captures -> option R) x :
  spaced_ok w = true ->
  stops is_digit s -> stops (Ascii.eqb (chr 46)) s ->
  List.length (spaced_value w ++ s) < fuel ->
  k s cs = Some x ->
  run fuel value_pattern (spaced_value w ++ s) cs k = Some x.
Proof.
  intros Hok Hs Hdot Hfuel Hk.
  destruct (spaced_ok_parts w Hok) as (Ht & _ & _ & _ & Hop & _ & Hsp).
  destruct (token_ok_parts _ Ht) as (_ & _ & Hd & _).
  unfold spaced_value in *. repeat rewrite <- app_assoc in *.
  assert (HN : run fuel
                 (Cat (Plus (Class is_digit))
                    (Cat (Opt (Cat (Char (chr 46)) (Plus (Class is_digit)))) Empty))
                 (token_number (sp_token w) ++ s) cs k = Some x).
  { apply run_number; try assumption. revert Hfuel. rewrite !length_app. lia. }
  assert (HL : List.length (sp_operator w ++ sign_minus (tk_sign (sp_token w))
                            ++ token_number (sp_token w) ++ s) < fuel).
  { revert Hfuel. rewrite !length_app. lia. }
  destruct (number_head (sp_token w) s) as [l Hl]. rewrite Hl in *.
  unfold operator_space_ok in Hsp. unfold value_pattern, Cats.
  destruct fuel as [|fuel]; [inversion Hfuel|].
  destruct (tk_sign (sp_token w));
    cbn [sign_operator sign_minus chars list_ascii_of_string List.app] in *.
  - (* digits *)
    destruct (sp_operator w); [|discriminate Hsp]. cbn [List.app].
    rewrite run_Cat, run_Opt_skip by now apply digit_no_operator.
    no_spaces. skip_minus. exact HN.
  - (* = digits *)
    take_operator.
    rewrite run_Cat. apply run_Star_Class; [exact Hop|now apply digit_no_space|exact HL|].
    cbv beta. skip_minus. exact HN.
  - (* + digits *)
    destruct (sp_operator w); [|discriminate Hsp]. cbn [List.app].
    take_operator. no_spaces. skip_minus. exact HN.
  - (* - digits *)
    destruct (sp_operator w); [|discriminate Hsp]. cbn [List.app].
    take_operator. no_spaces. skip_minus. exact HN.
  - (* = - digits *)
    take_operator.
    rewrite run_Cat. apply run_Star_Class; [exact Hop|reflexivity|exact HL|].
    cbv beta. take_minus. exact HN.
  - (* + - digits *)
    take_operator.
    rewrite run_Cat. apply run_Star_Class; [exact Hop|reflexivity|exact HL|].
    cbv beta. take_minus. exact HN.
  - (* - - digits *)
    take_operator.
    rewrite run_Cat. apply run_Star_Class; [exact Hop|reflexivity|exact HL|].
    cbv beta. take_minus. exact HN.
Qed.

Ltac len :=
  match goal with
  | H : _ < _ |- _ =>
      revert H; unfold token_id; repeat rewrite length_app;
      change (List.length (chars "{{")) with 2; change (List.length (chars "}}")) with 2;
      change (List.length (chars ":")) with 1; simpl List.length; lia
  end.

Lemma default_pattern_parts :
  StatParser.pattern defaultParser
  = Cat (Literal (chars "{{"))
     (Cat (Star (Class is_space))
       (Cat (Group 1 (Cat (Class StatParser.is_id_start)
                          (Star (Class StatParser.is_id_rest))))
         (Cat (Star (Class is_space))
           (Cat (Literal (chars ":"))
             (Cat (Star (Class is_space))
               (Cat (Group 2 value_pattern)
                 (Cat (Star (Class is_space))
                   (Cat (Literal (chars "}}")) Empty)))))))).
Proof. reflexivity. Qed.

Lemma spaced_value_head w (s : list ascii) :
  spaced_ok w = true -> stops is_space (spaced_value w ++ s).
Proof.
  intros Hok. destruct (spaced_ok_parts w Hok) as (Ht & _ & _ & _ & _ & _ & Hsp).
  destruct (token_ok_parts _ Ht) as (_ & _ & Hd & _).
  unfold spaced_value, operator_space_ok, token_number in *.
  destruct (tk_sign (sp_token w)); try reflexivity.
  destruct (sp_operator w); [|discriminate Hsp]. simpl. now apply digit_no_space.
Qed.

(** The pattern of the Parser module on a token with white space,
    whatever follows the token: the id goes to the first group and the
    value to the second. *)
Lemma run_default_spaced {R : Type} fuel w (rest : list ascii)
      (k : list ascii -> captures -> option R) x :
  spaced_ok w = true ->
  List.length (spaced_chars w ++ rest) < fuel ->
  k rest [(2, spaced_value w); (1, token_id (sp_token w))] = Some x ->
  run fuel (StatParser.pattern defaultParser) (spaced_chars w ++ rest) [] k = Some x.
Proof.
  intros Hok Hfuel Hk.
  destruct (spaced_ok_parts w Hok) as (Ht & Hopen & Hid & Hsep & _ & Hclose & _).
  destruct (token_ok_parts _ Ht) as (Hfirst & Hrest & _).
  rewrite spaced_chars_length in Hfuel.
  rewrite default_pattern_parts, spaced_chars_app.
  rewrite run_Cat, run_Literal.
  rewrite run_Cat. apply run_Star_Class; [exact Hopen| | |].
  { simpl. now apply id_rest_no_space, id_start_is_rest. }
  { len. }
  cbv beta. rewrite run_Cat, run_Group, run_Cat.
  change (token_id (sp_token w) ++ ?X)%list
    with (tk_first (sp_token w) :: tk_rest (sp_token w) ++ X)%list.
  rewrite run_Class, Hfirst.
  apply run_Star_Class; [exact Hrest| | |].
  { apply stops_spaces; [exact Hid| |reflexivity]. intros c Hc. now apply space_facts. }
  { len. }
  cbv beta. rewrite consumed_cons_app.
  rewrite run_Cat. apply run_Star_Class; [exact Hid|reflexivity| |].
  { len. }
  cbv beta. rewrite run_Cat, run_Literal.
  rewrite run_Cat. apply run_Star_Class; [exact Hsep|now apply spaced_value_head| |].
  { len. }
  cbv beta. rewrite run_Cat, run_Group.
  apply run_spaced_value; [exact Hok| | | |].
  { apply stops_spaces; [exact Hclose| |reflexivity]. intros c Hc. now apply space_facts. }
  { apply stops_spaces; [exact Hclose| |reflexivity]. intros c Hc. now apply space_facts. }
  { len. }
  cbv beta. rewrite consumed_app.
  rewrite run_Cat. apply run_Star_Class; [exact Hclose|reflexivity| |].
  { len. }
  cbv beta. rewrite run_Cat, run_Literal, run_Empty. exact Hk.
Qed.

Lemma default_match_spaced w (rest : list ascii) :
  spaced_ok w = true ->
  match_here (StatParser.pattern defaultParser) (spaced_chars w ++ rest)
  = Some {| matched := spaced_chars w;
            groups := [(2, spaced_value w); (1, token_id (sp_token w))];
            after := rest |}.
Proof.
  intros Hok. unfold match_here. apply run_default_spaced; [exact Hok|lia|].
  now rewrite consumed_app.
Qed.

End SpacedTokens.

(* ===================================================================== *)
(** * Searching a text with tokens *)
(* ===================================================================== *)

Section ScriptMatches.
Import JS Utils Regex Samples.
Local Open Scope nat_scope.

Implicit Types (w : spaced) (parts : list (list ascii * spaced)).

(** A pattern that matches every token where it starts, and nothing
    where two opening braces do not follow each other. *)
Variable r : re.
Variable G : spaced -> captures.
Hypothesis Htoken : forall w rest,
  spaced_ok w = true ->
  match_here r (spaced_chars w ++ rest)
  = Some {| matched := spaced_chars w; groups := G w; after := rest |}.
Hypothesis Hprose : forall c s, no_brace c = true -> match_here r (c :: s) = None.
Hypothesis Hbrace : forall c s,
  no_brace c = true -> match_here r (chr 123 :: c :: s) = None.
Hypothesis Hnil : match_here r [] = None.

Lemma exec_prose (prose s : list ascii) :
  prose_ok prose = true -> exec r (prose ++ s) = exec r s.
Proof.
  induction prose as [|c prose IH]; intros H; [reflexivity|].
  cbn [prose_ok] in H. apply andb_prop in H. destruct H as [Hc H].
  cbn [List.app exec]. rewrite (IH H).
  destruct (no_brace c) eqn:Hn; [now rewrite (Hprose c _ Hn)|].
  unfold no_brace in Hn. apply negb_false_iff, Ascii.eqb_eq in Hn. subst c.
  destruct prose as [|c' prose]; [discriminate Hc|].
  cbn [orb] in Hc. cbn [List.app]. now rewrite (Hbrace c' _ Hc).
Qed.

Lemma exec_prose_only (last : list ascii) :
  prose_ok last = true -> exec r last = None.
Proof.
  intros H. rewrite <- (app_nil_r last), (exec_prose last [] H).
  cbn [exec]. now rewrite Hnil.
Qed.

Lemma script_length parts (last : list ascii) :
  List.length parts <= List.length (script_chars parts last).
Proof.
  induction parts as [|[prose w] parts IH]; cbn [script_chars List.length]; [lia|].
  rewrite length_app, spaced_chars_length. lia.
Qed.

(** The search finds the tokens of the text, one after the other. *)
Lemma exec_all_script parts (last : list ascii) :
  script_ok parts last = true ->
  forall fuel, List.length parts < fuel ->
  Forall2 (fun f pw => matched f = spaced_chars (snd pw) /\ groups f = G (snd pw))
          (exec_all fuel r (script_chars parts last)) parts.
Proof.
  unfold script_ok. intros H. apply andb_prop in H. destruct H as [Hparts Hlast].
  induction parts as [|[prose w] parts IH]; intros fuel Hfuel;
    (destruct fuel as [|fuel]; [inversion Hfuel|]); cbn [exec_all script_chars].
  - rewrite (exec_prose_only last Hlast). constructor.
  - cbn [forallb fst snd] in Hparts. apply andb_prop in Hparts.
    destruct Hparts as [Hpw Hparts]. apply andb_prop in Hpw. destruct Hpw as [Hprose' Hw].
    rewrite (exec_prose prose _ Hprose'), (exec_here _ _ _ (Htoken w _ Hw)).
    cbn [after].
    assert (Hlt : Nat.ltb (List.length (script_chars parts last))
                    (List.length (prose ++ spaced_chars w ++ script_chars parts last)) = true).
    { apply Nat.ltb_lt. rewrite length_app, spaced_chars_length. lia. }
    rewrite Hlt. constructor; [split; reflexivity|].
    apply IH; [exact Hparts|]. simpl in Hfuel. lia.
Qed.

Lemma matches_script parts (last : list ascii) :
  script_ok parts last = true ->
  Forall2 (fun f pw => matched f = spaced_chars (snd pw) /\ groups f = G (snd pw))
          (matches r (str (script_chars parts last))) parts.
Proof.
  intros H. unfold matches. rewrite chars_str, length_str.
  apply exec_all_script; [exact H|]. pose proof (script_length parts last). lia.
Qed.

End ScriptMatches.

(* ===================================================================== *)
(** * The Parser module on texts with tokens *)
(* ===================================================================== *)

Section SpacedCommands.
Import JS Utils Regex Samples.
Local Open Scope nat_scope.
Local Open Scope string_scope.

Implicit Types (t : token) (w : spaced) (parts : list (list ascii * spaced)).

Lemma default_prose (c : ascii) (s : list ascii) :
  no_brace c = true -> match_here (StatParser.pattern defaultParser) (c :: s) = None.
Proof.
  unfold no_brace. intros H. apply negb_true_iff in H.
  unfold match_here. rewrite default_pattern_parts, run_Cat.
  cbn [Literal chars list_ascii_of_string]. rewrite run_Cat. unfold Char at 1.
  rewrite run_Class. change "{"%char with (chr 123). now rewrite H.
Qed.

Lemma default_brace (c : ascii) (s : list ascii) :
  no_brace c = true ->
  match_here (StatParser.pattern defaultParser) (chr 123 :: c :: s) = None.
Proof.
  unfold no_brace. intros H. apply negb_true_iff in H.
  unfold match_here. rewrite default_pattern_parts, run_Cat.
  cbn [Literal chars list_ascii_of_string]. rewrite run_Cat. unfold Char at 1.
  rewrite run_Class. change "{"%char with (chr 123). rewrite Ascii.eqb_refl.
  rewrite run_Cat. unfold Char at 1. now rewrite run_Class, H.
Qed.

Lemma filter_spaces (ws : list ascii) :
  forallb is_space ws = true -> filter (fun c => negb (is_space c)) ws = [].
Proof.
  induction ws as [|c ws IH]; simpl; [reflexivity|].
  intros H. apply andb_prop in H. destruct H as [Hc H]. rewrite Hc. simpl. now apply IH.
Qed.

(** Without its white space the value of a token is the value of the
    token without white space. *)
Lemma remove_spaces_spaced w :
  spaced_ok w = true ->
  StatParser.remove_spaces (str (spaced_value w))
  = StatParser.remove_spaces (str (token_value (sp_token w))).
Proof.
  intros Hok. destruct (spaced_ok_parts w Hok) as (Ht & _ & _ & _ & Hop & _ & _).
  unfold StatParser.remove_spaces, spaced_value, token_value.
  rewrite !chars_str, sign_parts, !filter_app, (filter_spaces _ Hop).
  now rewrite <- app_assoc.
Qed.

(** White space in the value changes the error message of a command and
    nothing else. *)
Lemma parseCommand_spaces (p : StatParser.t) (raw id v1 v2 : string) :
  StatParser.remove_spaces v1 = StatParser.remove_spaces v2 ->
  StatParser.isValid (StatParser._parseCommand p raw id v1)
  = StatParser.isValid (StatParser._parseCommand p raw id v2)
  /\ command_view (StatParser._parseCommand p raw id v1)
     = command_view (StatParser._parseCommand p raw id v2).
Proof.
  intros H. unfold StatParser._parseCommand. rewrite H.
  destruct (negb (isNonEmptyString (VStr id))); [split; reflexivity|].
  destruct (String.eqb (StatParser.remove_spaces v2) ""); [split; reflexivity|].
  destruct (startsWith (StatParser.remove_spaces v2) "=");
    match goal with
    | |- context [negb (isFinite ?n)] => destruct (isFinite n)
    end; split; reflexivity.
Qed.

(** The command the Parser module makes of the match of a token. *)
Lemma default_command_spaced w (f : found) :
  spaced_ok w = true ->
  groups f = [(2, spaced_value w); (1, token_id (sp_token w))] ->
  map command_view
      (filter StatParser.isValid
         [StatParser._parseCommand defaultParser (str (matched f))
            (StatParser.group_text f 1) (StatParser.group_text f 2)])
  = token_views true (sp_token w).
Proof.
  intros Hok Hg. destruct (spaced_ok_parts w Hok) as (Ht & _).
  unfold StatParser.group_text. rewrite Hg. cbn [capture Nat.eqb].
  destruct (parseCommand_spaces defaultParser (str (matched f))
              (str (token_id (sp_token w))) _ _ (remove_spaces_spaced w Hok)) as [Hv Hc].
  rewrite (parseCommand_token _ _ Ht) in Hv, Hc.
  cbn [filter]. rewrite Hv. unfold token_views.
  destruct (token_reading (sp_token w)) as [[x rest]|]; [destruct (isFinite x)|];
    cbn [StatParser.isValid map]; rewrite ?Hc; reflexivity.
Qed.

Lemma filter_cons_app {A : Type} (p : A -> bool) (x : A) (l : list A) :
  filter p (x :: l) = (filter p [x] ++ filter p l)%list.
Proof. simpl. now destruct (p x). Qed.

Lemma default_commands parts (ms : list found) :
  forallb (fun pw => spaced_ok (snd pw)) parts = true ->
  Forall2 (fun f pw => matched f = spaced_chars (snd pw)
                       /\ groups f = [(2, spaced_value (snd pw));
                                      (1, token_id (sp_token (snd pw)))]) ms parts ->
  map command_view (filter StatParser.isValid (StatParser.parse_matches defaultParser ms))
  = flat_map (fun pw => token_views true (sp_token (snd pw))) parts.
Proof.
  intros Hok H. induction H as [|f pw ms parts [_ Hg] _ IH]; [reflexivity|].
  cbn [forallb] in Hok. apply andb_prop in Hok. destruct Hok as [Hw Hok].
  cbn [StatParser.parse_matches flat_map].
  rewrite filter_cons_app, map_app, (default_command_spaced _ f Hw Hg).
  now rewrite (IH Hok).
Qed.

Lemma script_ok_tokens parts (last : list ascii) :
  script_ok parts last = true -> forallb (fun pw => spaced_ok (snd pw)) parts = true.
Proof.
  unfold script_ok. intros H. apply andb_prop in H. destruct H as [H _].
  rewrite forallb_forall in *. intros pw Hpw. specialize (H pw Hpw).
  now apply andb_prop in H.
Qed.

Lemma drop_spaces_In (c : ascii) (l : list ascii) :
  In c l -> is_space c = false -> In c (drop_spaces l).
Proof.
  intros Hin Hc. induction l as [|a l IH]; [contradiction|].
  cbn [drop_spaces]. destruct (is_space a) eqn:Ha; [|exact Hin].
  destruct Hin as [->|Hin]; [congruence|now apply IH].
Qed.

(** A text that holds a character other than white space is not blank. *)
Lemma not_blank (c : ascii) (l : list ascii) :
  In c l -> is_space c = false -> isNonEmptyString (VStr (str l)) = true.
Proof.
  intros Hin Hc. unfold isNonEmptyString, trim. rewrite chars_str, length_str.
  assert (H : In c (trim_chars l)).
  { unfold trim_chars. apply in_rev. rewrite rev_involutive.
    apply drop_spaces_In; [|exact Hc]. apply in_rev. rewrite rev_involutive.
    now apply drop_spaces_In. }
  now destruct (trim_chars l).
Qed.

Lemma script_brace (pw : list ascii * spaced) parts (last : list ascii) :
  In (chr 123) (script_chars (pw :: parts) last).
Proof.
  destruct pw as [prose w]. cbn [script_chars]. apply in_or_app. right.
  apply in_or_app. left. unfold spaced_chars. now left.
Qed.

(** The Parser module on a text with tokens: the commands of the tokens
    whose numeral reads as a finite Number. *)
Lemma default_parseValid_script parts (last : list ascii) :
  script_ok parts last = true ->
  map command_view (StatParser.parseValid defaultParser (str (script_chars parts last)))
  = flat_map (fun pw => token_views true (sp_token (snd pw))) parts.
Proof.
  intros Hok. unfold StatParser.parseValid, StatParser.parse.
  pose proof (matches_script (StatParser.pattern defaultParser)
                (fun w => [(2, spaced_value w); (1, token_id (sp_token w))])
                default_match_spaced default_prose default_brace eq_refl parts last Hok)
    as Hm.
  destruct parts as [|pw parts].
  - destruct (negb _); [reflexivity|]. cbn [script_chars] in *.
    inversion Hm as [Hnil|]. reflexivity.
  - rewrite (not_blank _ _ (script_brace pw parts last) eq_refl). cbn [negb].
    apply default_commands; [now apply (script_ok_tokens _ last)|exact Hm].
Qed.

End SpacedCommands.

(* ===================================================================== *)
(** * The bundled parser on texts with tokens *)
(* ===================================================================== *)

Section SpacedBundled.
Import JS Utils Regex Samples.
Local Open Scope nat_scope.
Local Open Scope string_scope.

Implicit Types (t : token) (w : spaced) (parts : list (list ascii * spaced)).

Let inside : ascii -> bool := Standalone.StatParser.not_close_start bundledParser.

Lemma run_Plus_app {R : Type} fuel (p : ascii -> bool) (l s : list ascii) cs
      (k : list ascii -> captures -> option R) x :
  l <> [] -> forallb p l = true -> stops p s -> List.length (l ++ s) < fuel ->
  k s cs = Some x ->
  run fuel (Plus (Class p)) (l ++ s) cs k = Some x.
Proof.
  destruct l as [|c l]; [congruence|]. intros _ H. simpl in H.
  apply andb_prop in H. destruct H. now apply run_Plus_Class.
Qed.

Lemma space_inside c : is_space c = true -> inside c = true.
Proof. intros H. rewrite inside_spec. now destruct (space_facts c H) as (_ & _ & _ & _ & _ & _ & -> & _). Qed.

Lemma spaced_content_inside w :
  spaced_ok w = true -> forallb inside (spaced_content w) = true.
Proof.
  intros Hok. destruct (spaced_ok_parts w Hok) as (Ht & Hopen & Hid & Hsep & Hop & Hclose & _).
  destruct (content_inside _ Ht) as [Hfirst Hrest]. fold inside in Hfirst, Hrest.
  rewrite !forallb_app in Hrest.
  apply andb_prop in Hrest. destruct Hrest as [Hrest Hvalue].
  apply andb_prop in Hvalue. destruct Hvalue as [_ Hvalue].
  unfold token_value in Hvalue. rewrite forallb_app in Hvalue.
  apply andb_prop in Hvalue. destruct Hvalue as [_ Hnumber].
  unfold spaced_content, spaced_value, token_id. rewrite !forallb_app.
  cbn [forallb]. rewrite Hfirst, Hrest, Hnumber.
  rewrite (forallb_impl _ _ _ space_inside Hopen), (forallb_impl _ _ _ space_inside Hid),
    (forallb_impl _ _ _ space_inside Hsep), (forallb_impl _ _ _ space_inside Hop),
    (forallb_impl _ _ _ space_inside Hclose).
  now destruct (tk_sign (sp_token w)).
Qed.

Lemma spaced_content_cons w : spaced_content w <> [].
Proof.
  unfold spaced_content, token_id. destruct (sp_open w); discriminate.
Qed.

(** The pattern of the bundled parser matches a token with white space,
    whatever follows the token, and captures what stands between the
    tags. *)
Lemma bundled_match_spaced w (rest : list ascii) :
  spaced_ok w = true ->
  match_here (Standalone.StatParser.pattern bundledParser) (spaced_chars w ++ rest)
  = Some {| matched := spaced_chars w;
            groups := [(1, spaced_content w)];
            after := rest |}.
Proof.
  intros Hok.
  unfold match_here, Standalone.StatParser.pattern, Cats.
  change (chars (Standalone.StatParser.openTag bundledParser)) with (chars "{{").
  change (chars (Standalone.StatParser.closeTag bundledParser)) with (chars "}}").
  fold inside.
  assert (Hfuel : List.length (spaced_chars w ++ rest)
                  < S (List.length (spaced_chars w ++ rest))) by lia.
  revert Hfuel. generalize (S (List.length (spaced_chars w ++ rest))) as fuel.
  intros fuel Hfuel.
  replace (spaced_chars w ++ rest)%list
    with (chars "{{" ++ spaced_content w ++ chars "}}" ++ rest)%list at 1
    by (unfold spaced_chars; now repeat rewrite <- app_assoc).
  rewrite run_Cat, run_Literal, run_Cat, run_Group.
  apply run_Plus_app;
    [apply spaced_content_cons|now apply spaced_content_inside|reflexivity| |].
  { revert Hfuel. unfold spaced_chars. repeat rewrite length_app. simpl List.length. lia. }
  cbv beta. rewrite consumed_app, run_Cat, run_Literal, run_Empty.
  now rewrite consumed_app.
Qed.

Lemma bundled_prose (c : ascii) (s : list ascii) :
  no_brace c = true ->
  match_here (Standalone.StatParser.pattern bundledParser) (c :: s) = None.
Proof.
  unfold no_brace. intros H. apply negb_true_iff in H.
  unfold match_here, Standalone.StatParser.pattern, Cats.
  change (chars (Standalone.StatParser.openTag bundledParser)) with (chars "{{").
  rewrite run_Cat. cbn [Literal chars list_ascii_of_string]. rewrite run_Cat.
  unfold Char at 1. rewrite run_Class. change "{"%char with (chr 123). now rewrite H.
Qed.

Lemma bundled_brace (c : ascii) (s : list ascii) :
  no_brace c = true ->
  match_here (Standalone.StatParser.pattern bundledParser) (chr 123 :: c :: s) = None.
Proof.
  unfold no_brace. intros H. apply negb_true_iff in H.
  unfold match_here, Standalone.StatParser.pattern, Cats.
  change (chars (Standalone.StatParser.openTag bundledParser)) with (chars "{{").
  rewrite run_Cat. cbn [Literal chars list_ascii_of_string]. rewrite run_Cat.
  unfold Char at 1. rewrite run_Class. change "{"%char with (chr 123).
  rewrite Ascii.eqb_refl. rewrite run_Cat. unfold Char at 1. now rewrite run_Class, H.
Qed.

Lemma drop_spaces_spaces (ws l : list ascii) :
  forallb is_space ws = true -> drop_spaces (ws ++ l) = drop_spaces l.
Proof.
  induction ws as [|c ws IH]; simpl; [reflexivity|].
  intros H. apply andb_prop in H. destruct H as [Hc H]. rewrite Hc. now apply IH.
Qed.

Lemma drop_spaces_stops (l : list ascii) : stops is_space l -> drop_spaces l = l.
Proof. destruct l as [|c l]; simpl; [reflexivity|]. now intros ->. Qed.

(** [trim] takes the white space off both ends of a text that starts
    and ends with other characters. *)
Lemma trim_chars_between (a core b : list ascii) :
  forallb is_space a = true -> forallb is_space b = true ->
  core <> [] -> stops is_space core -> stops is_space (rev core) ->
  trim_chars (a ++ core ++ b) = core.
Proof.
  intros Ha Hb Hne Hhead Hlast. unfold trim_chars.
  rewrite (drop_spaces_spaces a _ Ha).
  rewrite (drop_spaces_stops (core ++ b))
    by (destruct core; [congruence|exact Hhead]).
  rewrite rev_app_distr, (drop_spaces_spaces (rev b)) by now apply forallb_rev.
  rewrite (drop_spaces_stops _ Hlast). apply rev_involutive.
Qed.

(** A text that ends with characters other than white space. *)
Lemma stops_rev_end (a n : list ascii) :
  n <> [] -> forallb no_space n = true -> stops is_space (rev (a ++ n)).
Proof.
  intros Hne Hn. rewrite rev_app_distr.
  destruct (rev n) as [|c l] eqn:E.
  - apply (f_equal (@rev ascii)) in E. rewrite rev_involutive in E. contradiction.
  - cbn [List.app stops]. rewrite forallb_forall in Hn.
    assert (Hc : In c n) by (apply in_rev; rewrite E; now left).
    specialize (Hn c Hc). unfold no_space in Hn. now apply negb_true_iff in Hn.
Qed.

Lemma token_number_cons t : token_number t <> [].
Proof. discriminate. Qed.

Lemma read_unsigned_none (neg : bool) (c : ascii) (l : list ascii) :
  Ascii.eqb "I"%char c = false -> is_digit c = false -> Nat.eqb (code c) 46 = false ->
  read_unsigned_decimal neg (c :: l) = None.
Proof.
  intros HI Hd Hdot. unfold read_unsigned_decimal.
  cbn [chars list_ascii_of_string starts_with span]. now rewrite HI, Hd, Hdot.
Qed.

(** A second minus, whether white space stands in front of it or not,
    is where the reading of a number ends. *)
Lemma read_unsigned_minus (neg : bool) (ws l : list ascii) :
  forallb is_space ws = true ->
  read_unsigned_decimal neg (ws ++ chr 45 :: l) = None.
Proof.
  intros H. destruct ws as [|c ws]; [reflexivity|].
  simpl in H. apply andb_prop in H. destruct H as [Hc _].
  destruct (space_facts c Hc) as (_ & Hd & _ & _ & _ & _ & _ & _ & HI & Hdot).
  now apply read_unsigned_none.
Qed.

(** What the bundled parser reads as the value of a token: the type and
    the Number its numeral stands for. *)
Lemma spaced_value_reading w :
  spaced_ok w = true ->
  exists numeral : string,
    (if startsWith (str (spaced_value w)) "="
     then (SET, substringFrom (str (spaced_value w)) 1)
     else (MODIFY, str (spaced_value w)))
    = (token_type (sp_token w), numeral)
    /\ parseFloat_of_string numeral
       = match token_reading (sp_token w) with
         | Some (x, _) => x
         | None => PrimFloat.nan
         end.
Proof.
  intros Hok. destruct (spaced_ok_parts w Hok) as (Ht & _ & _ & _ & Hop & _ & Hsp).
  destruct (token_ok_parts _ Ht) as (_ & _ & Hd & _).
  destruct (digit_code _ Hd) as (_ & _ & _ & _ & _ & _ & Heq).
  pose proof (digit_no_space _ Hd) as Hds.
  unfold startsWith, substringFrom, parseFloat_of_string, token_reading, token_numeral,
    token_type, spaced_value, operator_space_ok in *.
  rewrite !chars_str.
  destruct (tk_sign (sp_token w));
    cbn [sign_operator sign_minus chars list_ascii_of_string List.app starts_with skipn] in *;
    try (destruct (sp_operator w); [|discriminate Hsp]; cbn [List.app]).
  - unfold token_number at 1. change (Ascii.eqb "="%char (tk_digit (sp_token w)))
      with (Ascii.eqb (chr 61) (tk_digit (sp_token w))). rewrite Heq.
    eexists; split; [reflexivity|]. rewrite chars_str.
    rewrite drop_spaces_stops by (unfold token_number; exact Hds). reflexivity.
  - eexists; split; [reflexivity|]. rewrite chars_str, (drop_spaces_spaces _ _ Hop).
    rewrite drop_spaces_stops by (unfold token_number; exact Hds). reflexivity.
  - eexists; split; [reflexivity|]. rewrite chars_str. reflexivity.
  - eexists; split; [reflexivity|]. rewrite chars_str. reflexivity.
  - eexists; split; [reflexivity|]. rewrite chars_str, (drop_spaces_spaces _ _ Hop).
    reflexivity.
  - eexists; split; [reflexivity|]. rewrite chars_str.
    cbn [drop_spaces]. change (is_space "+"%char) with false. cbv iota.
    unfold read_decimal. cbn [read_sign].
    change (Nat.eqb (code "+"%char) 45) with false.
    change (Nat.eqb (code "+"%char) 43) with true. cbv iota.
    change "-"%char with (chr 45). rewrite (read_unsigned_minus _ _ _ Hop).
    reflexivity.
  - eexists; split; [reflexivity|]. rewrite chars_str.
    cbn [drop_spaces]. change (is_space "-"%char) with false. cbv iota.
    unfold read_decimal. cbn [read_sign].
    change (Nat.eqb (code "-"%char) 45) with true. cbv iota.
    change "-"%char with (chr 45). rewrite (read_unsigned_minus _ _ _ Hop).
    reflexivity.
Qed.

Lemma id_not_space t : token_ok t = true -> stops is_space (token_id t).
Proof.
  intros Hok. destruct (token_ok_parts t Hok) as (Hfirst & _).
  now apply id_rest_no_space, id_start_is_rest.
Qed.

Lemma no_colon_spaces (ws : list ascii) :
  forallb is_space ws = true ->
  forallb (fun c => negb (Ascii.eqb ":"%char c)) ws = true.
Proof.
  apply forallb_impl. intros c Hc. change ":"%char with (chr 58).
  now destruct (space_facts c Hc) as (_ & _ & _ & _ & _ & -> & _).
Qed.

Ltac reassoc :=
  repeat first [ rewrite <- app_assoc
               | progress cbn [chars list_ascii_of_string List.app] ];
  reflexivity.

(** What the loop of the bundled parser makes of the match of a token. *)
Lemma bundled_parse_spaced w (f : found) :
  spaced_ok w = true ->
  groups f = [(1, spaced_content w)] ->
  Standalone.StatParser.parse_match bundledParser f
  = match token_reading (sp_token w) with
    | Some (x, _) =>
        if isNaN x then None
        else Some {| Standalone.StatParser.statId :=
                       toLowerCase (str (token_id (sp_token w)));
                     Standalone.StatParser.value := x;
                     Standalone.StatParser.type := token_type (sp_token w);
                     Standalone.StatParser.raw := str (matched f) |}
    | None => None
    end.
Proof.
  intros Hok Hg.
  destruct (spaced_ok_parts w Hok) as (Ht & Hopen & Hid & Hsep & Hop & Hclose & _).
  pose proof (spaced_value_head w [] Hok) as Hvhead. rewrite app_nil_r in Hvhead.
  assert (Hvne : spaced_value w <> []).
  { unfold spaced_value. intros E. apply app_eq_nil in E. destruct E as [_ E].
    apply app_eq_nil in E. destruct E as [_ E]. apply app_eq_nil in E.
    destruct E as [_ E]. discriminate E. }
  assert (Hvlast : forall a, stops is_space (rev (a ++ spaced_value w))).
  { intros a. unfold spaced_value. repeat rewrite app_assoc.
    apply stops_rev_end; [discriminate|now apply number_no_space]. }
  unfold Standalone.StatParser.parse_match. rewrite Hg. cbn [capture Nat.eqb].
  change (Standalone.StatParser.separator bundledParser) with ":".
  change (Standalone.StatParser.caseSensitive bundledParser) with (VBool false).
  cbn [truthy].
  assert (Hcontent : trim (str (spaced_content w))
                     = str ((token_id (sp_token w) ++ sp_id w)
                            ++ ":"%char :: sp_separator w ++ spaced_value w)).
  { unfold trim. rewrite chars_str. f_equal. unfold spaced_content.
    replace (sp_open w ++ token_id (sp_token w) ++ sp_id w ++ chars ":"
             ++ sp_separator w ++ spaced_value w ++ sp_close w)%list
      with (sp_open w
            ++ ((token_id (sp_token w) ++ sp_id w)
                ++ ":"%char :: sp_separator w ++ spaced_value w)
            ++ sp_close w)%list
      by reassoc.
    apply trim_chars_between; try assumption.
    - discriminate.
    - rewrite <- app_assoc. now apply id_not_space.
    - replace ((token_id (sp_token w) ++ sp_id w)
               ++ ":"%char :: sp_separator w ++ spaced_value w)%list
        with ((token_id (sp_token w) ++ sp_id w ++ ":"%char :: sp_separator w)
              ++ spaced_value w)%list
        by reassoc.
      apply Hvlast. }
  rewrite Hcontent. unfold indexOf. rewrite chars_str.
  cbn [chars list_ascii_of_string].
  rewrite index_of_first
    by (rewrite forallb_app, (id_no_colon _ Ht); now apply no_colon_spaces).
  cbn [Nat.add]. rewrite substring_prefix, substringFrom_suffix.
  assert (Hstat : trim (str (token_id (sp_token w) ++ sp_id w))
                  = str (token_id (sp_token w))).
  { unfold trim. rewrite chars_str. f_equal.
    apply (trim_chars_between [] (token_id (sp_token w)) (sp_id w));
      [reflexivity|exact Hid|discriminate|now apply id_not_space|].
    apply (stops_rev_end [] (token_id (sp_token w))); [discriminate|now apply id_no_space]. }
  assert (Hval : trim (str (sp_separator w ++ spaced_value w)) = str (spaced_value w)).
  { unfold trim. rewrite chars_str. f_equal.
    rewrite <- (app_nil_r (spaced_value w)) at 1.
    apply trim_chars_between; [exact Hsep|reflexivity|exact Hvne|exact Hvhead|].
    apply (Hvlast []). }
  rewrite Hstat, Hval, !str_empty.
  destruct (spaced_value w) as [|v0 vs] eqn:Ev; [congruence|]. rewrite <- Ev.
  cbn [token_id orb].
  destruct (spaced_value_reading w Hok) as (numeral & Hn & Hread).
  rewrite Hn, Hread.
  destruct (token_reading (sp_token w)) as [[x rest]|]; reflexivity.
Qed.

Lemma bundled_commands parts (ms : list found) :
  forallb (fun pw => spaced_ok (snd pw)) parts = true ->
  Forall2 (fun f pw => matched f = spaced_chars (snd pw)
                       /\ groups f = [(1, spaced_content (snd pw))]) ms parts ->
  map bundled_view (Standalone.StatParser.parse_matches bundledParser ms)
  = flat_map (fun pw => token_views false (sp_token (snd pw))) parts.
Proof.
  intros Hok H. induction H as [|f pw ms parts [_ Hg] _ IH]; [reflexivity|].
  cbn [forallb] in Hok. apply andb_prop in Hok. destruct Hok as [Hw Hok].
  cbn [Standalone.StatParser.parse_matches flat_map].
  rewrite (bundled_parse_spaced _ f Hw Hg). unfold token_views at 1.
  destruct (token_reading (sp_token (snd pw))) as [[x rest]|]; [|now apply IH].
  destruct (isNaN x); cbn [negb List.app map]; [now apply IH|].
  f_equal. now apply IH.
Qed.

(** The bundled parser on a text with tokens: the commands of the tokens
    whose numeral reads as a Number, the infinite ones included. *)
Lemma bundled_parseValid_script parts (last : list ascii) :
  script_ok parts last = true ->
  map bundled_view
      (Standalone.StatParser.parseValid bundledParser (str (script_chars parts last)))
  = flat_map (fun pw => token_views false (sp_token (snd pw))) parts.
Proof.
  intros Hok. unfold Standalone.StatParser.parseValid.
  pose proof (matches_script (Standalone.StatParser.pattern bundledParser)
                (fun w => [(1, spaced_content w)])
                bundled_match_spaced bundled_prose bundled_brace eq_refl parts last Hok)
    as Hm.
  rewrite str_empty.
  destruct (script_chars parts last) as [|c0 l0] eqn:E.
  - destruct parts as [|pw parts]; [reflexivity|].
    pose proof (script_brace pw parts last) as Hin. rewrite E in Hin. contradiction.
  - rewrite <- E in Hm |- *. apply bundled_commands; [now apply (script_ok_tokens _ last)|exact Hm].
Qed.

End SpacedBundled.

(* ===================================================================== *)
(** * The two parsers compared *)
(* ===================================================================== *)

Section TwoParsersOnTokens.
Import JS Utils Regex Samples.
Local Open Scope string_scope.

Lemma finite_not_NaN (x : num) : isFinite x = true -> isNaN x = false.
Proof.
  unfold isFinite, isNaN, PrimFloat.is_finite. destruct (PrimFloat.is_nan x); [discriminate|reflexivity].
Qed.

Lemma finite_views_all (l : list (string * num * ParseResultType)) :
  (forall v, In v l -> isFinite (snd (fst v)) = true) -> finite_views l = l.
Proof.
  intros H. unfold finite_views. induction l as [|v l IH]; simpl; [reflexivity|].
  rewrite (H v) by now left. f_equal. apply IH. intros w Hw. apply H. now right.
Qed.

(** Of the commands the bundled parser makes of a token, the Parser
    module makes the finite ones. *)
Lemma finite_token_views (t : token) :
  finite_views (token_views false t) = token_views true t.
Proof.
  unfold token_views, finite_views.
  destruct (token_reading t) as [[x rest]|]; [|reflexivity].
  destruct (isFinite x) eqn:Hx.
  - rewrite (finite_not_NaN x Hx). simpl. now rewrite Hx.
  - destruct (isNaN x); [reflexivity|]. simpl. now rewrite Hx.
Qed.

Lemma finite_script_views (parts : list (list ascii * spaced)) :
  finite_views (flat_map (fun pw => token_views false (sp_token (snd pw))) parts)
  = flat_map (fun pw => token_views true (sp_token (snd pw))) parts.
Proof.
  induction parts as [|pw parts IH]; [reflexivity|].
  cbn [flat_map]. unfold finite_views in *. rewrite filter_app, IH.
  f_equal. apply finite_token_views.
Qed.

(** C9 (amended): on a text made of command tokens of the grammar of
    the Parser module (the tags, an id, the separator, the value: at most
    an operator among [=], [+], [-], at most one minus after it, digits
    and possibly a fraction; white space after the open tag, around the
    separator, after an operator that is [=] or has a minus after it, and
    in front of the close tag), with any text between and around the
    tokens in which an opening brace is followed by a character other
    than an opening brace, each parser returns, token after token,
    the command the numeral of the token reads as: the Parser module when
    that Number is finite, the bundled parser also when it is infinite.
    So the Parser module returns the commands of the bundled parser that
    have a finite value, and the two agree whenever those of the bundled
    parser are all finite.  They part on 1 followed by 400 zeros, which
    the bundled parser returns as Infinity, and on white space after a
    lone [+] or [-], which the Parser module deletes and where
    [parseFloat] stops.  They agree on the sample texts of the
    specification. *)
Theorem C9_parsers_agree_on_tokens
    (parts : list (list ascii * spaced)) (last : list ascii) :
  script_ok parts last = true ->
  let text := str (script_chars parts last) in
  let modular := map command_view (StatParser.parseValid defaultParser text) in
  let bundled :=
    map bundled_view (Standalone.StatParser.parseValid bundledParser text) in
  modular = flat_map (fun pw => token_views true (sp_token (snd pw))) parts
  /\ bundled = flat_map (fun pw => token_views false (sp_token (snd pw))) parts
  /\ modular = finite_views bundled
  /\ ((forall v, In v bundled -> isFinite (snd (fst v)) = true) -> parsers_agree text)
  /\ (StatParser.parseValid defaultParser (token_text overflowToken) = []
      /\ map bundled_view
           (Standalone.StatParser.parseValid bundledParser (token_text overflowToken))
         = [("hp", PrimFloat.infinity, MODIFY)])
  /\ (map command_view (StatParser.parseValid defaultParser "{{hp:- 5}}")
      = [("hp", (-5)%float, MODIFY)]
      /\ Standalone.StatParser.parseValid bundledParser "{{hp:- 5}}" = [])
  /\ (parsers_agree "{{hp:-10}}"
      /\ parsers_agree "{{hp:=50}}"
      /\ parsers_agree "{{HP:-10}}"
      /\ parsers_agree "{{ hp : -10 }}"
      /\ parsers_agree "{{hp:-10}} {{hp:-20}}"
      /\ parsers_agree "{{hp:-10}} story text {{mp:+5}} more text {{stamina:=100}}").
Proof.
  intros Hok text modular bundled.
  assert (Hm : modular = flat_map (fun pw => token_views true (sp_token (snd pw))) parts)
    by now apply default_parseValid_script.
  assert (Hb : bundled = flat_map (fun pw => token_views false (sp_token (snd pw))) parts)
    by now apply bundled_parseValid_script.
  assert (Hfin : modular = finite_views bundled)
    by (rewrite Hm, Hb; symmetry; apply finite_script_views).
  split; [exact Hm|]. split; [exact Hb|]. split; [exact Hfin|]. split.
  - intros Hall. unfold parsers_agree. fold text. fold modular. fold bundled.
    rewrite Hfin. now apply finite_views_all.
  - repeat split; vm_compute; reflexivity.
Qed.

Lemma C9_parsers_agree_on_tokens_witness :
  map command_view
      (StatParser.parseValid defaultParser "Ouch {x}! {{ HP : = -10.5 }} and then {{mp:+5}}.")
  = finite_views
      (map bundled_view
         (Standalone.StatParser.parseValid bundledParser
            "Ouch {x}! {{ HP : = -10.5 }} and then {{mp:+5}}.")).
Proof.
  exact (proj1 (proj2 (proj2
           (C9_parsers_agree_on_tokens sampleScript (chars ".") eq_refl)))).
Defined.

End TwoParsersOnTokens.

(* ===================================================================== *)
(** * Utils: clamping and arithmetic that stays a Number *)
(* ===================================================================== *)

Section ArithmeticFacts.
Import JS Utils NumFacts.

Lemma finite_shape (y : num) :
  isFinite y = true -> seq y 0%float = false ->
  exists s m e, Prim2SF y = S754_finite s m e.
Proof.
  rewrite isFinite_spec. unfold seq. rewrite FloatAxioms.eqb_spec.
  change (Prim2SF 0%float) with (S754_zero false).
  destruct (Prim2SF y) as [s|s| |s m e]; try discriminate; eauto.
Qed.

Lemma SFdiv_core_nonneg (m1 : positive) (e1 : Z) (m2 : positive) (e2 : Z) :
  0 <= fst (fst (SFdiv_core_binary prec emax (Z.pos m1) e1 (Z.pos m2) e2)).
Proof.
  unfold SFdiv_core_binary.
  set (s := e1 - e2 - _).
  set (m' := match s with 0 => Z.pos m1 | Z.pos _ => Z.shiftl (Z.pos m1) s | Z.neg _ => 0 end).
  assert (Hm : 0 <= m').
  { subst m'. destruct s; try lia. apply Z.shiftl_nonneg. lia. }
  pose proof (Z.div_pos m' (Z.pos m2) Hm eq_refl) as Hq.
  unfold Z.div in Hq. destruct (Z.div_eucl m' (Z.pos m2)) as [q r]. exact Hq.
Qed.

Lemma SFmul_not_nan (x : spec_float) (s : bool) (m : positive) (e : Z) :
  x <> S754_nan -> SFmul prec emax x (S754_finite s m e) <> S754_nan.
Proof.
  destruct x as [sx|sx| |sx mx ex]; simpl; intros H; try congruence.
  apply binary_round_aux_not_nan. lia.
Qed.

Lemma SFmul_finite_not_nan (x y : spec_float) :
  x <> S754_nan -> y <> S754_nan ->
  (forall s, x <> S754_infinity s) -> (forall s, y <> S754_infinity s) ->
  SFmul prec emax x y <> S754_nan.
Proof.
  intros Hx Hy Ix Iy.
  destruct x as [sx|sx| |sx mx ex], y as [sy|sy| |sy my ey]; simpl; try congruence;
    try (now elim (Ix sx)); try (now elim (Iy sy)).
  apply binary_round_aux_not_nan. lia.
Qed.

Lemma SFdiv_not_nan (x : spec_float) (s : bool) (m : positive) (e : Z) :
  x <> S754_nan -> SFdiv prec emax x (S754_finite s m e) <> S754_nan.
Proof.
  destruct x as [sx|sx| |sx mx ex]; simpl; intros H; try congruence.
  pose proof (SFdiv_core_nonneg mx ex m e) as Hq.
  destruct (SFdiv_core_binary prec emax (Z.pos mx) ex (Z.pos m) e) as [[mz ez] lz].
  apply binary_round_aux_not_nan. exact Hq.
Qed.

(** A product with a finite factor other than zero, and a quotient by a
    finite divisor other than zero, are NaN only for NaN. *)
Lemma mul_not_NaN (x y : num) :
  isNaN x = false -> isFinite y = true -> seq y 0%float = false ->
  isNaN (x * y)%float = false.
Proof.
  intros Hx Hy Hz. destruct (finite_shape y Hy Hz) as (s & m & e & E).
  apply is_NaN. rewrite mul_spec, E. apply SFmul_not_nan, not_NaN, Hx.
Qed.

Lemma div_not_NaN (x y : num) :
  isNaN x = false -> isFinite y = true -> seq y 0%float = false ->
  isNaN (x / y)%float = false.
Proof.
  intros Hx Hy Hz. destruct (finite_shape y Hy Hz) as (s & m & e & E).
  apply is_NaN. rewrite div_spec, E. apply SFdiv_not_nan, not_NaN, Hx.
Qed.

Lemma mul_finite_not_NaN (x y : num) :
  isFinite x = true -> isFinite y = true -> isNaN (x * y)%float = false.
Proof.
  intros Hx Hy. apply is_NaN. rewrite mul_spec.
  apply SFmul_finite_not_nan; auto using not_NaN, isFinite_not_NaN, finite_not_infinity.
Qed.

Lemma Math_round_not_NaN (x : num) : isNaN x = false -> isNaN (Math_round x) = false.
Proof.
  intros H. unfold Math_round. destruct (Prim2SF x) as [s|s| |s m e]; auto.
  destruct (0 <=? e); auto. destruct (_ =? 0); auto using ofZ_not_NaN.
  now destruct s.
Qed.

(** Rounding to ten decimal places keeps a Number a Number. *)
Lemma round10_not_NaN (x : num) :
  isNaN x = false -> isNaN (Math_round (x * 1e10) / 1e10)%float = false.
Proof.
  intros H. apply div_not_NaN; try reflexivity.
  apply Math_round_not_NaN. apply mul_not_NaN; auto.
Qed.

Lemma sanitised_finite (x : num) : isFinite (toNumber (VNum x) 0%float) = true.
Proof. now apply toNumber_is_finite. Qed.

Lemma add_Number (a b : num) : isNaN (SafeMath.add a b) = false.
Proof.
  apply round10_not_NaN, add_not_NaN; auto using isFinite_not_NaN, sanitised_finite.
Qed.

Lemma subtract_Number (a b : num) : isNaN (SafeMath.subtract a b) = false.
Proof.
  apply round10_not_NaN, sub_not_NaN; auto using isFinite_not_NaN, sanitised_finite.
Qed.

Lemma multiply_Number (a b : num) : isNaN (SafeMath.multiply a b) = false.
Proof. apply round10_not_NaN, mul_finite_not_NaN; apply sanitised_finite. Qed.

Lemma divide_Number (a b d : num) : isNaN (SafeMath.divide a b d) = false.
Proof.
  unfold SafeMath.divide. cbv zeta.
  destruct (seq (toNumber (VNum b) 0%float) 0%float) eqn:Hz.
  - apply isFinite_not_NaN, sanitised_finite.
  - apply round10_not_NaN, div_not_NaN;
      auto using isFinite_not_NaN, sanitised_finite.
Qed.

(** X4: the four operations of [SafeMath] never return NaN, whatever
    they are given: the operands are sanitised first, a sum, difference or
    product of finite Numbers is a Number, the divisor is not zero when
    the division is made, and rounding keeps a Number a Number. *)
Theorem SafeMath_never_NaN (a b d : num) :
  isNaN (SafeMath.add a b) = false
  /\ isNaN (SafeMath.subtract a b) = false
  /\ isNaN (SafeMath.multiply a b) = false
  /\ isNaN (SafeMath.divide a b d) = false.
Proof.
  repeat split.
  - apply add_Number.
  - apply subtract_Number.
  - apply multiply_Number.
  - apply divide_Number.
Qed.

Lemma le_finite_between (a x b : num) :
  le a x = true -> le x b = true -> isFinite a = true -> isFinite b = true ->
  isFinite x = true.
Proof.
  unfold le. rewrite !leb_spec, !isFinite_spec. unfold SFleb.
  destruct (Prim2SF a) as [sa|sa| |sa ma ea]; try discriminate;
    destruct (Prim2SF b) as [sb|sb| |sb mb eb]; try discriminate;
    destruct (Prim2SF x) as [sx|[]| |sx mx ex]; simpl; try discriminate; auto;
    try (destruct sa; discriminate); try (destruct sb; discriminate).
Qed.

(** [Math.min(Math.max(v, lo), hi)] lies between [lo] and [hi] when
    [lo <= hi] and [v] is not NaN. *)
Lemma min_max_between (v lo hi : num) :
  isNaN v = false -> le lo hi = true ->
  let r := Math_min (Math_max v lo) hi in
  le lo r = true /\ le r hi = true.
Proof.
  intros Hv Hle r. destruct (le_not_NaN _ _ Hle) as [Hlo Hhi].
  destruct (Math_max_spec v lo Hv Hlo) as (Hmax & _ & Hmax2).
  assert (Hm : isNaN (Math_max v lo) = false) by (destruct Hmax as [->| ->]; assumption).
  destruct (Math_min_spec _ hi Hm Hhi) as (Hmin & _ & Hmin2).
  subst r. split; [|exact Hmin2].
  destruct Hmin as [->| ->]; assumption.
Qed.

(** The bounds [clamp] uses, in order. *)
Lemma clamp_between (value min max : jsval) :
  isNaN (toNumber value (match min with VUndefined => 0%float | _ => Number min end))
    = false ->
  let lo := toNumber min 0%float in
  let hi := toNumber max 100%float in
  let r := clamp value min max in
  (gt lo hi = true -> le hi r = true /\ le r lo = true)
  /\ (gt lo hi = false -> le lo r = true /\ le r hi = true)
  /\ isFinite r = true.
Proof.
  intros Hv lo hi r.
  assert (Flo : isFinite lo = true) by (apply toNumber_is_finite; reflexivity).
  assert (Fhi : isFinite hi = true) by (apply toNumber_is_finite; reflexivity).
  subst r. unfold clamp. cbv zeta. fold lo. fold hi.
  destruct (gt lo hi) eqn:Hgt.
  - assert (Hle : le hi lo = true) by (apply lt_le; exact Hgt).
    destruct (min_max_between _ hi lo Hv Hle) as [H1 H2].
    repeat split; try discriminate; auto. eapply le_finite_between; eauto.
  - assert (Hle : le lo hi = true)
      by (apply not_lt_le; auto using isFinite_not_NaN).
    destruct (min_max_between _ lo hi Hv Hle) as [H1 H2].
    repeat split; try discriminate; auto. eapply le_finite_between; eauto.
Qed.

(** X2: [clamp(value, min, max)] returns a finite Number between the
    two sanitised bounds, taken in order, when [value] is a finite number
    or [min] converts to a Number: the bounds the wrong way round are
    used as if they had been swapped. *)
Theorem clamp_within_bounds (value min max : jsval) :
  (exists x, value = VNum x /\ isFinite x = true) \/ isNaN (Number min) = false ->
  let lo := toNumber min 0%float in
  let hi := toNumber max 100%float in
  let r := clamp value min max in
  isFinite r = true
  /\ (gt lo hi = false -> le lo r = true /\ le r hi = true)
  /\ (gt lo hi = true -> le hi r = true /\ le r lo = true).
Proof.
  intros H lo hi r.
  assert (Hv : isNaN (toNumber value
                        (match min with VUndefined => 0%float | _ => Number min end))
               = false).
  { destruct H as [(x & -> & Hx)|Hmin].
    - rewrite (toNumber_finite x _ Hx). now apply isFinite_not_NaN.
    - assert (Hd : isNaN (match min with VUndefined => 0%float | _ => Number min end)
                   = false) by (destruct min; auto).
      unfold toNumber.
      destruct value as [| |b|x|s]; try exact Hd; cbv zeta;
        repeat match goal with
               | |- isNaN (if ?c then _ else _) = false => destruct c eqn:?
               end;
        try exact Hd; apply isFinite_not_NaN; now apply negb_false_iff. }
  destruct (clamp_between value min max Hv) as (H1 & H2 & H3). auto.
Qed.

Lemma clamp_within_bounds_witness :
  isFinite (clamp (VNum 150%float) (VNum 100%float) (VNum 0%float)) = true.
Proof.
  exact (proj1 (clamp_within_bounds (VNum 150%float) (VNum 100%float) (VNum 0%float)
                  (or_intror eq_refl))).
Defined.

(** X3: [SafeMath.percentage(value, max)] is a Number between 0 and 100
    for all arguments, NaN and the infinities included, and it is 0 when
    [max] is zero. *)
Theorem percentage_within_0_100 (value max : num) :
  le 0%float (SafeMath.percentage value max) = true
  /\ le (SafeMath.percentage value max) 100%float = true
  /\ isFinite (SafeMath.percentage value max) = true
  /\ SafeMath.percentage value 0%float = 0%float
  /\ SafeMath.percentage value (-0)%float = 0%float.
Proof.
  assert (Hc : forall r, let p := clamp (VNum r) (VNum 0%float) (VNum 100%float) in
                le 0%float p = true /\ le p 100%float = true /\ isFinite p = true).
  { intros r p.
    assert (Hv : isNaN (toNumber (VNum r) (Number (VNum 0%float))) = false)
      by (apply isFinite_not_NaN, toNumber_is_finite; reflexivity).
    destruct (clamp_between (VNum r) (VNum 0%float) (VNum 100%float) Hv) as (_ & H2 & H3).
    destruct (H2 eq_refl) as [Ha Hb]. auto. }
  unfold SafeMath.percentage. cbv zeta.
  destruct (Hc (SafeMath.divide value max 0 * 100)%float) as (H1 & H2 & H3).
  repeat split; auto.
Qed.

(** X1: [toPositiveInt] returns a Number that is at least 1 and
    [toNonNegativeInt] one that is at least 0, for every value and every
    finite default: never NaN, never below the floor. *)
Theorem integer_sanitisers_floor (v : jsval) (d : num) :
  isFinite d = true ->
  isNaN (toPositiveInt v d) = false /\ le 1%float (toPositiveInt v d) = true
  /\ isNaN (toNonNegativeInt v d) = false /\ le 0%float (toNonNegativeInt v d) = true.
Proof.
  intros H.
  assert (Hf : isNaN (Math_floor (toNumber v d)) = false)
    by auto using Math_floor_not_NaN, isFinite_not_NaN, toNumber_is_finite.
  unfold toPositiveInt, toNonNegativeInt.
  destruct (Math_max_spec PrimFloat.one _ eq_refl Hf) as (Hm & H1 & _).
  destruct (Math_max_spec PrimFloat.zero _ eq_refl Hf) as (Hm0 & H0 & _).
  repeat split; auto.
  - destruct Hm as [->| ->]; [reflexivity|assumption].
  - destruct Hm0 as [->| ->]; [reflexivity|assumption].
Qed.

Lemma integer_sanitisers_floor_witness :
  le 1%float (toPositiveInt (VStr "-3.7") 1%float) = true.
Proof.
  exact (proj1 (proj2 (integer_sanitisers_floor (VStr "-3.7") 1%float eq_refl))).
Defined.

End ArithmeticFacts.

(* ===================================================================== *)
(** * Identifiers: [sanitizeId] *)
(* ===================================================================== *)

Section IdentifierFacts.
Import JS Utils Samples Shapes.
Local Open Scope nat_scope.

Ltac all_chars c :=
  destruct c as [[] [] [] [] [] [] [] []]; try reflexivity; try discriminate.

Lemma id_char_no_space c : is_id_char c = true -> no_space c = true.
Proof. all_chars c. Qed.

Lemma id_char_lower c : is_id_char c = true -> lower_char c = c.
Proof. all_chars c. Qed.

Lemma bundled_id_char c : Standalone.is_id_char c = is_id_char c.
Proof. reflexivity. Qed.

Lemma mapped_id_chars (l : list ascii) :
  forallb is_id_char (map (fun c => if is_id_char c then c else underscore) l) = true.
Proof.
  induction l as [|c l IH]; simpl; [reflexivity|]. rewrite IH.
  destruct (is_id_char c) eqn:E; [now rewrite E|reflexivity].
Qed.

Lemma map_id_chars (l : list ascii) :
  forallb is_id_char l = true ->
  map (fun c => if is_id_char c then c else underscore) l = l.
Proof.
  induction l as [|c l IH]; simpl; [reflexivity|]. intros H.
  apply andb_prop in H. destruct H as [Hc Hl]. now rewrite Hc, IH.
Qed.

Lemma lower_id_chars (l : list ascii) :
  forallb is_id_char l = true -> map lower_char l = l.
Proof.
  induction l as [|c l IH]; simpl; [reflexivity|]. intros H.
  apply andb_prop in H. destruct H as [Hc Hl]. now rewrite id_char_lower, IH.
Qed.

Lemma collapse_cons (c : ascii) (l : list ascii) :
  collapse_underscores (c :: l)
  = if is_underscore c
    then match l with
         | d :: _ => if is_underscore d then collapse_underscores l
                     else c :: collapse_underscores l
         | [] => [c]
         end
    else c :: collapse_underscores l.
Proof. reflexivity. Qed.

Lemma collapse_forallb (p : ascii -> bool) (l : list ascii) :
  forallb p l = true -> forallb p (collapse_underscores l) = true.
Proof.
  induction l as [|c l IH]; [reflexivity|]. intros H.
  change (forallb p (c :: l)) with (p c && forallb p l)%bool in H.
  apply andb_prop in H. destruct H as [Hc Hl]. rewrite collapse_cons.
  destruct (is_underscore c).
  - destruct l as [|d l']; [simpl; now rewrite Hc|].
    destruct (is_underscore d); [now apply IH|].
    change (p c && forallb p (collapse_underscores (d :: l')) = true)%bool.
    now rewrite Hc, IH.
  - change (p c && forallb p (collapse_underscores l) = true)%bool.
    now rewrite Hc, IH.
Qed.

Lemma collapse_starts (l : list ascii) :
  starts_underscore (collapse_underscores l) = starts_underscore l.
Proof.
  induction l as [|c l IH]; [reflexivity|]. rewrite collapse_cons.
  destruct (is_underscore c) eqn:Ec; [|reflexivity].
  destruct l as [|d l']; [reflexivity|].
  destruct (is_underscore d) eqn:Ed; [|reflexivity].
  rewrite IH. simpl. now rewrite Ec, Ed.
Qed.

Lemma collapse_no_double (l : list ascii) :
  double_underscore (collapse_underscores l) = false.
Proof.
  induction l as [|c l IH]; [reflexivity|]. rewrite collapse_cons.
  destruct (is_underscore c) eqn:Ec.
  - destruct l as [|d l']; [simpl; now rewrite andb_false_r|].
    destruct (is_underscore d) eqn:Ed; [exact IH|].
    change (((is_underscore c && starts_underscore (collapse_underscores (d :: l')))
             || double_underscore (collapse_underscores (d :: l')))%bool = false).
    rewrite collapse_starts, IH. simpl. now rewrite Ed, andb_false_r.
  - change (((is_underscore c && starts_underscore (collapse_underscores l))
             || double_underscore (collapse_underscores l))%bool = false).
    now rewrite Ec, IH.
Qed.

Lemma double_cons (c : ascii) (l : list ascii) :
  double_underscore (c :: l) = false ->
  (is_underscore c && starts_underscore l)%bool = false /\ double_underscore l = false.
Proof. simpl. intros H. now apply orb_false_elim in H. Qed.

Lemma collapse_fixed (l : list ascii) :
  double_underscore l = false -> collapse_underscores l = l.
Proof.
  induction l as [|c l IH]; [reflexivity|]. intros H.
  apply double_cons in H. destruct H as [H1 H2]. rewrite collapse_cons, (IH H2).
  destruct (is_underscore c); [|reflexivity].
  destruct l as [|d l']; [reflexivity|]. simpl in H1. now rewrite H1.
Qed.

Lemma starts_app (x y : list ascii) :
  x <> [] -> starts_underscore (x ++ y) = starts_underscore x.
Proof. destruct x; [congruence|reflexivity]. Qed.

Lemma double_app (a b : list ascii) :
  double_underscore (a ++ b)
  = (double_underscore a || double_underscore b
     || (starts_underscore (rev a) && starts_underscore b))%bool.
Proof.
  induction a as [|c a IH]; [simpl; now rewrite orb_false_r|].
  change (double_underscore ((c :: a) ++ b))
    with ((is_underscore c && starts_underscore (a ++ b))
          || double_underscore (a ++ b))%bool.
  change (double_underscore (c :: a))
    with ((is_underscore c && starts_underscore a) || double_underscore a)%bool.
  rewrite IH. destruct a as [|d a'].
  - simpl. destruct (is_underscore c), (starts_underscore b), (double_underscore b);
      reflexivity.
  - change (rev (c :: d :: a')) with (rev (d :: a') ++ [c]).
    rewrite (starts_app (rev (d :: a')) [c]) by (simpl; now destruct (rev a')).
    rewrite (starts_app (d :: a') b) by discriminate.
    destruct (is_underscore c), (starts_underscore (d :: a')),
      (double_underscore (d :: a')), (double_underscore b),
      (starts_underscore (rev (d :: a'))), (starts_underscore b); reflexivity.
Qed.

Lemma double_prefix (a b : list ascii) :
  double_underscore (a ++ b) = false -> double_underscore a = false.
Proof.
  rewrite double_app. intros H. apply orb_false_elim in H. destruct H as [H _].
  apply orb_false_elim in H. tauto.
Qed.

Lemma double_firstn (n : nat) (l : list ascii) :
  double_underscore l = false -> double_underscore (firstn n l) = false.
Proof.
  intros H. rewrite <- (firstn_skipn n l) in H. now apply double_prefix in H.
Qed.

Lemma forallb_firstn {A : Type} (p : A -> bool) (n : nat) (l : list A) :
  forallb p l = true -> forallb p (firstn n l) = true.
Proof.
  intros H. rewrite <- (firstn_skipn n l), forallb_app in H.
  now apply andb_prop in H.
Qed.

(** What [strip_end_underscore] does: nothing to a text that does not
    end with an underscore, or it takes the last character off, an
    underscore. *)
Lemma strip_end_spec (l : list ascii) :
  (strip_end_underscore l = l /\ starts_underscore (rev l) = false)
  \/ (exists c, is_underscore c = true /\ l = (strip_end_underscore l ++ [c])%list).
Proof.
  unfold strip_end_underscore. destruct (rev l) as [|c r] eqn:E.
  - left. split; [|reflexivity]. apply (f_equal (@rev ascii)) in E.
    rewrite rev_involutive in E. now subst.
  - destruct (is_underscore c) eqn:Ec.
    + right. exists c. split; [exact Ec|].
      apply (f_equal (@rev ascii)) in E. rewrite rev_involutive in E. exact E.
    + left. split; [reflexivity|simpl; exact Ec].
Qed.

Lemma strip_end_clean (p : ascii -> bool) (l : list ascii) :
  forallb p l = true -> double_underscore l = false ->
  let t := strip_end_underscore l in
  forallb p t = true /\ double_underscore t = false
  /\ starts_underscore (rev t) = false
  /\ (starts_underscore l = false -> starts_underscore t = false).
Proof.
  intros Hp Hd t. subst t.
  destruct (strip_end_spec l) as [[E Hr]|(c & Hc & E)].
  - rewrite E. auto.
  - set (t := strip_end_underscore l) in *. rewrite E in Hp, Hd.
    rewrite forallb_app in Hp. apply andb_prop in Hp. destruct Hp as [Hp _].
    pose proof (double_prefix _ _ Hd) as Hd'.
    rewrite double_app in Hd. apply orb_false_elim in Hd. destruct Hd as [_ Hd].
    simpl in Hd. rewrite Hc, andb_true_r in Hd.
    repeat split; auto. intros Hs. rewrite E in Hs.
    destruct t as [|d t']; [reflexivity|exact Hs].
Qed.

Lemma strip_clean (p : ascii -> bool) (l : list ascii) :
  forallb p l = true -> double_underscore l = false ->
  let t := strip_underscores l in
  forallb p t = true /\ double_underscore t = false /\ edge_underscore t = false.
Proof.
  intros Hp Hd t. subst t. unfold edge_underscore.
  destruct l as [|c l]; [auto|]. unfold strip_underscores.
  destruct (is_underscore c) eqn:Ec.
  - simpl in Hp. apply andb_prop in Hp. destruct Hp as [_ Hp].
    apply double_cons in Hd. destruct Hd as [H1 H2]. rewrite Ec in H1. simpl in H1.
    destruct (strip_end_clean p l Hp H2) as (A & B & C & D).
    rewrite (D H1), C. auto.
  - destruct (strip_end_clean p (c :: l) Hp Hd) as (A & B & C & D).
    rewrite (D Ec), C. auto.
Qed.

Lemma strip_fixed (l : list ascii) :
  edge_underscore l = false -> strip_underscores l = l.
Proof.
  unfold edge_underscore. intros H. apply orb_false_elim in H. destruct H as [H1 H2].
  destruct l as [|c l]; [reflexivity|]. unfold strip_underscores.
  simpl in H1. rewrite H1.
  destruct (strip_end_spec (c :: l)) as [[E _]|(d & Hd & E)]; [exact E|].
  rewrite E, rev_app_distr in H2. simpl in H2. congruence.
Qed.

(** The characters [sanitizeId] of the Utils module arrives at. *)
Lemma sanitized_chars (s : string) :
  let l := strip_underscores
             (collapse_underscores
                (map (fun c => if is_id_char c then c else underscore)
                   (chars (toLowerCase (trim s))))) in
  forallb is_id_char l = true /\ double_underscore l = false
  /\ edge_underscore l = false.
Proof.
  apply strip_clean.
  - apply collapse_forallb, mapped_id_chars.
  - apply collapse_no_double.
Qed.

(** X5: [sanitizeId] of a string that is not blank returns only letters
    a-z, digits, underscores and hyphens, with no two underscores in a
    row and none at either end; and a result that is not empty is left as
    it is by [sanitizeId]. *)
Theorem sanitizeId_clean_and_stable (env env' : Env) (s : string) :
  isNonEmptyString (VStr s) = true ->
  let r := sanitizeId env (VStr s) in
  forallb is_id_char (chars r) = true
  /\ double_underscore (chars r) = false
  /\ edge_underscore (chars r) = false
  /\ (r <> ""%string -> sanitizeId env' (VStr r) = r).
Proof.
  intros Hs r. destruct (sanitized_chars s) as (Hp & Hd & He).
  set (l := strip_underscores _) in *.
  assert (E : r = str l) by (subst r; unfold sanitizeId; now rewrite Hs).
  rewrite E, chars_str. clear E r. clearbody l.
  repeat split; auto. intros Hne.
  assert (Hsp : forallb no_space l = true)
    by (revert Hp; apply forallb_impl, id_char_no_space).
  unfold sanitizeId, isNonEmptyString. rewrite (trim_no_space l Hsp), length_str.
  assert (Hlen : (0 <? List.length l) = true)
    by (destruct l; [now elim Hne|reflexivity]).
  rewrite Hlen. unfold toLowerCase.
  rewrite !chars_str, (lower_id_chars l Hp), ?chars_str.
  now rewrite (map_id_chars l Hp), (collapse_fixed l Hd), (strip_fixed l He).
Qed.

Lemma sanitizeId_clean_and_stable_witness :
  sanitizeId env0 (VStr "  Max HP!! ") = "max_hp"%string
  /\ sanitizeId env0 (VStr (sanitizeId env0 (VStr "  Max HP!! ")))
     = sanitizeId env0 (VStr "  Max HP!! ").
Proof.
  split; [reflexivity|].
  apply (sanitizeId_clean_and_stable env0 env0 "  Max HP!! " eq_refl). discriminate.
Defined.

(** What [sanitizeId] of the bundled extension arrives at. *)
Lemma bundled_sanitized (s : string) :
  let r := Standalone.sanitizeId s in
  forallb Standalone.is_id_char (chars r) = true
  /\ String.length r <= 32
  /\ double_underscore (chars r) = false
  /\ Standalone.sanitizeId r = r.
Proof.
  intros r. set (l := firstn 32 (collapse_underscores
                       (map (fun c => if is_id_char c then c else underscore)
                          (chars (toLowerCase s))))).
  change r with (str l). clear r.
  assert (Hp : forallb is_id_char l = true)
    by (apply forallb_firstn, collapse_forallb, mapped_id_chars).
  assert (Hd : double_underscore l = false)
    by (apply double_firstn, collapse_no_double).
  assert (Hn : List.length l <= 32) by apply firstn_le_length.
  rewrite chars_str, length_str. repeat split; auto.
  unfold Standalone.sanitizeId, toLowerCase.
  rewrite !chars_str, (lower_id_chars l Hp), ?chars_str.
  change (fun c => if Standalone.is_id_char c then c else underscore)
    with (fun c => if is_id_char c then c else underscore).
  now rewrite (map_id_chars l Hp), (collapse_fixed l Hd), (firstn_all2 l Hn).
Qed.

Lemma collapse_nonempty (l : list ascii) :
  l <> [] -> collapse_underscores l <> [].
Proof.
  induction l as [|c l IH]; [congruence|]. intros _. rewrite collapse_cons.
  destruct (is_underscore c); [|discriminate].
  destruct l as [|d l']; [discriminate|].
  destruct (is_underscore d); [apply IH|]; discriminate.
Qed.

(** A string that is not blank is not blank once sanitised. *)
Lemma bundled_sanitized_not_blank (s : string) :
  Standalone.isNonEmptyString (VStr s) = true ->
  Standalone.isNonEmptyString (VStr (Standalone.sanitizeId s)) = true.
Proof.
  intros H. destruct (bundled_sanitized s) as (Hp & _ & _ & _).
  unfold Standalone.sanitizeId in *.
  set (l := firstn 32 _) in *. rewrite chars_str in Hp.
  assert (Hne : l <> []).
  { subst l. destruct s as [|c s]; [vm_compute in H; discriminate|].
    unfold toLowerCase. rewrite chars_str.
    change (chars (String c s)) with (c :: chars s). cbn [map].
    match goal with
    | |- firstn 32 (collapse_underscores ?x) <> [] =>
        pose proof (collapse_nonempty x ltac:(discriminate)) as Hc;
        destruct (collapse_underscores x); [congruence|discriminate]
    end. }
  unfold Standalone.isNonEmptyString. rewrite (trim_no_space l), length_str.
  - destruct l; [now elim Hne|reflexivity].
  - revert Hp. apply forallb_impl, id_char_no_space.
Qed.

(** X18: [sanitizeId] of the bundled extension returns at most 32
    characters, only letters a-z, digits, underscores and hyphens, with no
    two underscores in a row; applied to its own result it changes
    nothing, and of a string that is not blank it makes one that is not
    blank. *)
Theorem bundled_sanitizeId_clean_and_stable (s : string) :
  let r := Standalone.sanitizeId s in
  forallb Standalone.is_id_char (chars r) = true
  /\ String.length r <= 32
  /\ double_underscore (chars r) = false
  /\ Standalone.sanitizeId r = r
  /\ (Standalone.isNonEmptyString (VStr s) = true ->
      Standalone.isNonEmptyString (VStr r) = true).
Proof.
  intros r. destruct (bundled_sanitized s) as (A & B & C & D).
  split; [exact A|]. split; [exact B|]. split; [exact C|]. split; [exact D|].
  apply bundled_sanitized_not_blank.
Qed.

End IdentifierFacts.

(* ===================================================================== *)
(** * ModifierCollection: turns, lookups and the value it returns *)
(* ===================================================================== *)

Section MapMoreFacts.
Context {V : Type}.
Implicit Types (m : JsMap.t V) (k : string) (v : V).

Lemma size_set m k v :
  JsMap.size (JsMap.set m k v)
  = if JsMap.has m k then JsMap.size m else S (JsMap.size m).
Proof.
  unfold JsMap.size, JsMap.has. induction m as [|[k0 v0] m IH]; simpl; [reflexivity|].
  destruct (String.eqb_spec k0 k) as [->|Hk]; simpl; [reflexivity|].
  rewrite IH. now destruct (JsMap.get m k).
Qed.

Lemma get_delete_same m k : JsMap.wf m -> JsMap.get (JsMap.delete m k) k = None.
Proof.
  unfold JsMap.wf. induction m as [|[k0 v0] m IH]; simpl; [reflexivity|].
  intros Hwf. inversion Hwf as [|? ? Hnotin Hwf']; subst.
  destruct (String.eqb_spec k0 k) as [->|Hk]; simpl.
  - now apply get_None.
  - destruct (String.eqb_spec k0 k); [congruence|now apply IH].
Qed.

Lemma get_delete_other m k k' :
  k' <> k -> JsMap.get (JsMap.delete m k) k' = JsMap.get m k'.
Proof.
  intros Hne. induction m as [|[k0 v0] m IH]; simpl; [reflexivity|].
  destruct (String.eqb_spec k0 k) as [->|Hk]; simpl.
  - destruct (String.eqb_spec k k'); [congruence|reflexivity].
  - destruct (String.eqb_spec k0 k'); [reflexivity|exact IH].
Qed.

Lemma delete_absent m k : JsMap.get m k = None -> JsMap.delete m k = m.
Proof.
  induction m as [|[k0 v0] m IH]; simpl; [reflexivity|].
  destruct (String.eqb_spec k0 k); [discriminate|]. intros H. now rewrite IH.
Qed.

Lemma size_delete m k :
  JsMap.size m
  = if JsMap.has m k then S (JsMap.size (JsMap.delete m k))
    else JsMap.size (JsMap.delete m k).
Proof.
  unfold JsMap.size, JsMap.has. induction m as [|[k0 v0] m IH]; simpl; [reflexivity|].
  destruct (String.eqb_spec k0 k) as [->|Hk]; simpl; [reflexivity|].
  rewrite IH. now destruct (JsMap.get m k).
Qed.

Lemma keys_delete_subset m k k' :
  In k' (JsMap.keys (JsMap.delete m k)) -> In k' (JsMap.keys m).
Proof.
  induction m as [|[k0 v0] m IH]; simpl; [auto|].
  destruct (String.eqb_spec k0 k); simpl; intuition.
Qed.

Lemma wf_delete m k : JsMap.wf m -> JsMap.wf (JsMap.delete m k).
Proof.
  unfold JsMap.wf. induction m as [|[k0 v0] m IH]; simpl; [auto|].
  intros Hwf. inversion Hwf as [|? ? Hnotin Hwf']; subst.
  destruct (String.eqb_spec k0 k); simpl; [assumption|].
  constructor; [|now apply IH]. intros Hin. apply Hnotin.
  now apply keys_delete_subset in Hin.
Qed.

End MapMoreFacts.

Section CollectionFacts.
Import JS Utils Samples NumFacts.
Local Open Scope float_scope.
Local Open Scope string_scope.

(** What [tick()] returns is what [isActive()] says afterwards. *)
Lemma tick_reports_active (x : StatModifier.t) :
  snd (StatModifier.tick x) = StatModifier.isActive (fst (StatModifier.tick x)).
Proof.
  unfold StatModifier.tick, StatModifier.isActive.
  destruct (lt (StatModifier.duration x) 0) eqn:E; simpl; now rewrite E.
Qed.

Lemma tick_entries_survivors (es : JsMap.t StatModifier.t) :
  let kept := fst (ModifierCollection.tick_entries es) in
  let removed := snd (ModifierCollection.tick_entries es) in
  forallb StatModifier.isActive (JsMap.values kept) = true
  /\ (JsMap.size kept + List.length removed = JsMap.size es)%nat
  /\ (forall k, In k (JsMap.keys es) <-> In k (JsMap.keys kept) \/ In k removed).
Proof.
  induction es as [|[k0 x0] es IH]; simpl.
  - split; [reflexivity|]. split; [reflexivity|]. intros k. tauto.
  - pose proof (tick_reports_active x0) as Hx.
    destruct (StatModifier.tick x0) as [x0' act].
    destruct (ModifierCollection.tick_entries es) as [kept removed].
    simpl in *. destruct IH as (Ha & Hn & Hk). unfold JsMap.size in *.
    destruct act; simpl.
    + rewrite <- Hx, Ha. split; [reflexivity|]. split; [now rewrite Hn|].
      intros k. rewrite Hk. tauto.
    + split; [exact Ha|]. split; [rewrite <- Hn; apply Nat.add_succ_r|].
      intros k. rewrite Hk. tauto.
Qed.

Lemma filter_all {A : Type} (p : A -> bool) (l : list A) :
  forallb p l = true -> filter p l = l.
Proof.
  induction l as [|a l IH]; simpl; [reflexivity|]. intros H.
  apply andb_prop in H. destruct H as [Ha Hl]. now rewrite Ha, IH.
Qed.

(** X8: after [tick()] every modifier left in the collection is active,
    so [activeCount] is [size]; the ids returned and the ids left are
    together the ids there were, and their numbers add up. *)
Theorem collection_tick_survivors (c : ModifierCollection.t) :
  let c' := fst (ModifierCollection.tick c) in
  let removed := snd (ModifierCollection.tick c) in
  ModifierCollection.getActive c' = JsMap.values (ModifierCollection.modifiers c')
  /\ ModifierCollection.activeCount c' = ModifierCollection.size c'
  /\ (ModifierCollection.size c' + List.length removed = ModifierCollection.size c)%nat
  /\ (forall k, In k (JsMap.keys (ModifierCollection.modifiers c))
                <-> In k (JsMap.keys (ModifierCollection.modifiers c')) \/ In k removed)
  /\ ModifierCollection.statId c' = ModifierCollection.statId c.
Proof.
  intros c' removed. destruct (tick_modifiers c) as [Hm Hr].
  destruct (tick_entries_survivors (ModifierCollection.modifiers c)) as (Ha & Hn & Hk).
  fold c' in Hm. fold removed in Hr. rewrite <- Hm in Ha, Hn, Hk. rewrite <- Hr in Hn, Hk.
  assert (Hact : ModifierCollection.getActive c'
                 = JsMap.values (ModifierCollection.modifiers c'))
    by (apply filter_all, Ha).
  split; [exact Hact|]. split; [|split; [exact Hn|split; [exact Hk|]]].
  - unfold ModifierCollection.activeCount, ModifierCollection.size, JsMap.size.
    rewrite Hact. apply length_map.
  - subst c'. unfold ModifierCollection.tick.
    now destruct (ModifierCollection.tick_entries (ModifierCollection.modifiers c)).
Qed.

(** [sanitizeId] of a string that is not blank does not read the clock. *)
Lemma sanitizeId_env (env env' : Env) (raw : string) :
  isNonEmptyString (VStr raw) = true ->
  sanitizeId env' (VStr raw) = sanitizeId env (VStr raw).
Proof. intros H. unfold sanitizeId. now rewrite H. Qed.

Lemma new_id (env : Env) (config : StatModifier.Config) (raw : string) :
  StatModifier.cfg_id config = VStr raw -> isNonEmptyString (VStr raw) = true ->
  StatModifier.id (StatModifier.new env config) = sanitizeId env (VStr raw).
Proof. intros Hc Hr. unfold StatModifier.new. simpl. now rewrite Hc, Hr. Qed.

Lemma add_guard (c : ModifierCollection.t) (x : StatModifier.t) :
  StatModifier.statId x = "" \/ StatModifier.statId x = ModifierCollection.statId c ->
  (negb (StatModifier.statId x =? "")
   && negb (StatModifier.statId x =? ModifierCollection.statId c))%bool = false.
Proof.
  intros [->| ->]; [reflexivity|].
  rewrite (String.eqb_refl (ModifierCollection.statId c)). apply andb_false_r.
Qed.

(** X9: a modifier added from a plain object with an id that is not
    blank is found again by [get] and [has] under that same id as it was
    written, whatever [sanitizeId] made of it.  When the id was there
    already the modifier stored stays (its value, type, duration and
    [maxStacks] are not those of the new object) and the size does not
    change; otherwise the new modifier is stored with the stat id of the
    collection and the size grows by one. *)
Theorem collection_add_lookup
    (env env' : Env) (c : ModifierCollection.t) (config : StatModifier.Config)
    (raw : string) :
  StatModifier.cfg_id config = VStr raw ->
  isNonEmptyString (VStr raw) = true ->
  StatModifier.statId (StatModifier.new env config) = ""
  \/ StatModifier.statId (StatModifier.new env config) = ModifierCollection.statId c ->
  let c' := fst (ModifierCollection.add env c (inr config)) in
  let r := snd (ModifierCollection.add env c (inr config)) in
  r <> None
  /\ ModifierCollection.get env' c' (VStr raw) = r
  /\ ModifierCollection.has env' c' (VStr raw) = true
  /\ ModifierCollection.statId c' = ModifierCollection.statId c
  /\ (forall e, ModifierCollection.get env' c (VStr raw) = Some e ->
        exists e', r = Some e'
          /\ StatModifier.id e' = StatModifier.id e
          /\ StatModifier.value e' = StatModifier.value e
          /\ StatModifier.type e' = StatModifier.type e
          /\ StatModifier.duration e' = StatModifier.duration e
          /\ StatModifier.maxStacks e' = StatModifier.maxStacks e
          /\ ModifierCollection.size c' = ModifierCollection.size c)
  /\ (ModifierCollection.get env' c (VStr raw) = None ->
        r = Some (StatModifier.set_statId (StatModifier.new env config)
                    (ModifierCollection.statId c))
        /\ ModifierCollection.size c' = S (ModifierCollection.size c)).
Proof.
  intros Hid Hraw Hstat c' r. subst c' r.
  unfold ModifierCollection.get, ModifierCollection.has, ModifierCollection.size.
  rewrite (sanitizeId_env env env' raw Hraw), <- (new_id env config raw Hid Hraw).
  set (x := StatModifier.new env config) in *.
  unfold ModifierCollection.add. cbv beta iota zeta. fold x. clearbody x.
  rewrite (add_guard c x Hstat).
  change (StatModifier.id (StatModifier.set_statId x _)) with (StatModifier.id x).
  destruct (JsMap.get (ModifierCollection.modifiers c) (StatModifier.id x)) as [e|] eqn:Hget.
  - assert (Hhas : JsMap.has (ModifierCollection.modifiers c) (StatModifier.id x) = true)
      by (unfold JsMap.has; now rewrite Hget).
    destruct (lt (StatModifier.currentStacks e) (StatModifier.maxStacks e)); simpl;
      rewrite ?get_set_same, ?size_set, ?Hhas; unfold JsMap.has;
      rewrite ?get_set_same; (repeat split; try discriminate; auto).
    + intros e0 [= <-]. eexists. split; [reflexivity|].
      destruct (gt (StatModifier.duration e) 0%float); repeat split; reflexivity.
    + intros e0 [= <-]. eexists. split; [reflexivity|].
      destruct (gt (StatModifier.duration e) 0%float); repeat split; reflexivity.
  - assert (Hhas : JsMap.has (ModifierCollection.modifiers c) (StatModifier.id x) = false)
      by (unfold JsMap.has; now rewrite Hget).
    simpl. rewrite ?get_set_same, ?size_set, ?Hhas. unfold JsMap.has.
    rewrite ?get_set_same. repeat split; try discriminate; auto.
Qed.

Lemma collection_add_lookup_witness :
  ModifierCollection.has env0
    (fst (ModifierCollection.add env0 (ModifierCollection.new env0 (VStr "hp"))
            (inr (modConfig "Battle Cry!" "add" 10%float))))
    (VStr "Battle Cry!") = true.
Proof.
  exact (proj1 (proj2 (proj2
    (collection_add_lookup env0 env0 (ModifierCollection.new env0 (VStr "hp"))
       (modConfig "Battle Cry!" "add" 10%float) "Battle Cry!"
       eq_refl eq_refl (or_introl eq_refl))))).
Defined.

(** X10: [remove(id)] on a collection deletes the entry of the sanitised
    id and nothing else: afterwards [has(id)] is false, every other entry
    is as it was, the size has gone down by one exactly when [remove]
    returned true, and a collection without the id is left unchanged. *)
Theorem collection_remove_only_that (env : Env) (c : ModifierCollection.t) (id : jsval) :
  JsMap.wf (ModifierCollection.modifiers c) ->
  let c' := fst (ModifierCollection.remove env c id) in
  let removed := snd (ModifierCollection.remove env c id) in
  removed = ModifierCollection.has env c id
  /\ ModifierCollection.has env c' id = false
  /\ (forall k, k <> sanitizeId env id ->
        JsMap.get (ModifierCollection.modifiers c') k
        = JsMap.get (ModifierCollection.modifiers c) k)
  /\ ModifierCollection.size c
     = (if removed then S (ModifierCollection.size c') else ModifierCollection.size c')
  /\ (removed = false -> c' = c)
  /\ JsMap.wf (ModifierCollection.modifiers c').
Proof.
  intros Hwf c' removed. subst c' removed.
  unfold ModifierCollection.remove, ModifierCollection.has, ModifierCollection.size.
  cbv zeta. simpl. set (k := sanitizeId env id).
  repeat split.
  - unfold JsMap.has. now rewrite get_delete_same.
  - intros k' Hne. now apply get_delete_other.
  - apply size_delete.
  - intros Hno. apply has_false in Hno. rewrite (delete_absent _ _ Hno).
    now destruct c.
  - now apply wf_delete.
Qed.

Lemma collection_remove_only_that_witness :
  ModifierCollection.has env0
    (fst (ModifierCollection.remove env0 (collection_add_multiply env0 env0 env0)
            (VStr "buff1")))
    (VStr "buff1") = false.
Proof.
  apply (collection_remove_only_that env0 (collection_add_multiply env0 env0 env0)
           (VStr "buff1")).
  unfold JsMap.wf. simpl. repeat constructor; simpl; intuition discriminate.
Defined.

Lemma apply_adds_Number (mods : list StatModifier.t) :
  forall r, isNaN r = false -> isNaN (ModifierCollection.apply_adds r mods) = false.
Proof.
  induction mods as [|m mods IH]; intros r Hr; simpl; [exact Hr|].
  apply IH, add_Number.
Qed.

Lemma apply_multiplies_Number (mods : list StatModifier.t) :
  forall r, isNaN r = false ->
            isNaN (ModifierCollection.apply_multiplies r mods) = false.
Proof.
  induction mods as [|m mods IH]; intros r Hr; simpl; [exact Hr|].
  apply IH, multiply_Number.
Qed.

(** X11: [applyAll] returns NaN only if an override modifier holds NaN
    as its value: whatever the base and whatever the ADD and MULTIPLY
    modifiers hold, the result is a Number. *)
Theorem applyAll_never_NaN (c : ModifierCollection.t) (base : num) :
  (forall m, In m (JsMap.values (ModifierCollection.modifiers c)) ->
             StatModifier.type m = OVERRIDE -> isNaN (StatModifier.value m) = false) ->
  isNaN (ModifierCollection.applyAll c base) = false.
Proof.
  intros Hov.
  assert (Hbase : isNaN (toNumber (VNum base) 0%float) = false)
    by apply isFinite_not_NaN, sanitised_finite.
  destruct (filter (ModifierCollection.has_type OVERRIDE) (ModifierCollection.getActive c))
    as [|first rest] eqn:Ho.
  - unfold ModifierCollection.applyAll. cbv zeta. rewrite Ho.
    destruct (ModifierCollection.getActive c); [exact Hbase|].
    now apply apply_multiplies_Number, apply_adds_Number.
  - rewrite (applyAll_overrides c base first rest Ho).
    destruct (latest_override_spec rest first) as (Hin & _ & _).
    rewrite <- Ho in Hin. apply filter_In in Hin. destruct Hin as [Hin Hty].
    apply filter_In in Hin. destruct Hin as [Hin _].
    apply Hov; [exact Hin|]. now apply has_type_true.
Qed.

Lemma applyAll_never_NaN_witness :
  isNaN (ModifierCollection.applyAll (collection_with_override env0 env0 env0 env0)
           PrimFloat.nan) = false.
Proof.
  apply applyAll_never_NaN. simpl.
  intros m [<-|[<-|[<-|[]]]]; reflexivity.
Defined.

End CollectionFacts.

(* ===================================================================== *)
(** * The parser: what a match looks like *)
(* ===================================================================== *)

Section MatchInversion.
Import JS Regex Samples.
Local Open Scope nat_scope.
Context {R : Type}.
Implicit Types (k : list ascii -> captures -> option R) (s l : list ascii)
         (cs : captures) (p : ascii -> bool).

Lemma inv_Class fuel p s cs k x :
  run fuel (Class p) s cs k = Some x ->
  exists c s', s = c :: s' /\ p c = true /\ k s' cs = Some x.
Proof.
  destruct s as [|c s']; [now rewrite run_Class_nil|].
  rewrite run_Class. destruct (p c) eqn:E; [|discriminate]. eauto.
Qed.

Lemma inv_Literal fuel l : forall s cs k x,
  run fuel (Literal l) s cs k = Some x ->
  exists s', s = (l ++ s')%list /\ k s' cs = Some x.
Proof.
  induction l as [|c l IH]; intros s cs k x H; simpl in H.
  - rewrite run_Empty in H. exists s. auto.
  - rewrite run_Cat in H. apply inv_Class in H.
    destruct H as (c' & s' & -> & Hc & H). apply Ascii.eqb_eq in Hc. subst c'.
    apply IH in H. destruct H as (s'' & -> & H). exists s''. auto.
Qed.

Lemma inv_Star_Class fuel p : forall s cs k x,
  run fuel (Star (Class p)) s cs k = Some x ->
  exists l s', s = (l ++ s')%list /\ forallb p l = true /\ k s' cs = Some x.
Proof.
  induction fuel as [|fuel IH]; intros s cs k x H; [discriminate|].
  rewrite run_Star in H.
  destruct s as [|c s0].
  - rewrite run_Class_nil in H. exists [], []. auto.
  - rewrite run_Class in H. destruct (p c) eqn:Hc.
    + replace (List.length s0 <? List.length (c :: s0)) with true in H
        by (symmetry; apply Nat.ltb_lt; simpl; lia).
      destruct (run fuel (Star (Class p)) s0 cs k) as [y|] eqn:Hy.
      * injection H as ->. apply IH in Hy. destruct Hy as (l & s' & -> & Hl & Hk).
        exists (c :: l), s'. simpl. rewrite Hc, Hl. auto.
      * exists [], (c :: s0). auto.
    + exists [], (c :: s0). auto.
Qed.

Lemma inv_Plus_Class fuel p s cs k x :
  run fuel (Plus (Class p)) s cs k = Some x ->
  exists c l s', s = (c :: l ++ s')%list /\ p c = true /\ forallb p l = true
                 /\ k s' cs = Some x.
Proof.
  unfold Plus. rewrite run_Cat. intros H. apply inv_Class in H.
  destruct H as (c & s0 & -> & Hc & H). apply inv_Star_Class in H.
  destruct H as (l & s' & -> & Hl & H). exists c, l, s'. auto.
Qed.

Lemma inv_Opt_Class fuel p s cs k x :
  run fuel (Opt (Class p)) s cs k = Some x ->
  exists l s', s = (l ++ s')%list /\ List.length l <= 1 /\ forallb p l = true
               /\ k s' cs = Some x.
Proof.
  unfold Opt. rewrite run_Or. intros H.
  destruct (run fuel (Class p) s cs k) as [y|] eqn:Hy.
  - injection H as ->. apply inv_Class in Hy. destruct Hy as (c & s' & -> & Hc & H).
    exists [c], s'. simpl. rewrite Hc. auto.
  - rewrite run_Empty in H. exists [], s. auto.
Qed.

Lemma inv_Opt_fraction fuel c0 p s cs k x :
  run fuel (Opt (Cat (Char c0) (Plus (Class p)))) s cs k = Some x ->
  exists l s', s = (l ++ s')%list /\ k s' cs = Some x.
Proof.
  unfold Opt. rewrite run_Or. intros H.
  destruct (run fuel (Cat (Char c0) (Plus (Class p))) s cs k) as [y|] eqn:Hy.
  - injection H as ->. rewrite run_Cat in Hy. apply inv_Class in Hy.
    destruct Hy as (dot & t1 & -> & _ & Hy). apply inv_Plus_Class in Hy.
    destruct Hy as (d & ds & t2 & -> & _ & _ & Hy).
    exists (dot :: d :: ds), t2. auto.
  - rewrite run_Empty in H. exists [], s. auto.
Qed.

End MatchInversion.

Section ParserShape.
Import JS Utils Regex Samples Shapes.
Local Open Scope nat_scope.

Ltac all_chars c :=
  destruct c as [[] [] [] [] [] [] [] []]; try reflexivity; try discriminate.

Lemma lower_id_start c :
  StatParser.is_id_start c = true -> StatParser.is_id_start (lower_char c) = true.
Proof. all_chars c. Qed.

Lemma lower_id_rest c :
  StatParser.is_id_rest c = true -> StatParser.is_id_rest (lower_char c) = true.
Proof. all_chars c. Qed.

Lemma is_space_not_no_space c : is_digit c = true -> no_space c = true.
Proof. all_chars c. Qed.

(** A match of the pattern of a parser: the first group holds an
    identifier, the second a text with a digit in it, and the match is
    not empty. *)
Lemma match_here_shape (p : StatParser.t) (s : list ascii) (f : found) :
  match_here (StatParser.pattern p) s = Some f ->
  exists c l v,
    groups f = [(2, v); (1, c :: l)]
    /\ StatParser.is_id_start c = true
    /\ forallb StatParser.is_id_rest l = true
    /\ holds_digit v
    /\ List.length (after f) < List.length s.
Proof.
  unfold match_here, StatParser.pattern. set (fuel := S (List.length s)).
  cbn [Cats]. intros H.
  rewrite run_Cat in H. apply inv_Literal in H. destruct H as (s1 & E1 & H).
  rewrite run_Cat in H. apply inv_Star_Class in H. destruct H as (w1 & s2 & E2 & _ & H).
  rewrite run_Cat, run_Group, run_Cat in H. apply inv_Class in H.
  destruct H as (c & s3 & E3 & Hc & H).
  apply inv_Star_Class in H. destruct H as (l & s4 & E4 & Hl & H).
  rewrite run_Cat in H. apply inv_Star_Class in H. destruct H as (w2 & s5 & E5 & _ & H).
  rewrite run_Cat in H. apply inv_Literal in H. destruct H as (s6 & E6 & H).
  rewrite run_Cat in H. apply inv_Star_Class in H. destruct H as (w3 & s7 & E7 & _ & H).
  rewrite run_Cat, run_Group in H. cbn [Cats] in H.
  rewrite run_Cat in H. apply inv_Opt_Class in H. destruct H as (o & s8 & E8 & _ & _ & H).
  rewrite run_Cat in H. apply inv_Star_Class in H. destruct H as (w4 & s9 & E9 & _ & H).
  rewrite run_Cat in H. apply inv_Opt_Class in H. destruct H as (m & s10 & E10 & _ & _ & H).
  rewrite run_Cat in H. apply inv_Plus_Class in H.
  destruct H as (d & ds & s11 & E11 & Hd & _ & H).
  rewrite run_Cat in H.
  apply inv_Opt_fraction in H. destruct H as (fr & s12 & E12 & H).
  rewrite run_Empty in H.
  rewrite run_Cat in H. apply inv_Star_Class in H. destruct H as (w5 & s13 & E13 & _ & H).
  rewrite run_Cat in H. apply inv_Literal in H. destruct H as (s14 & E14 & H).
  rewrite run_Empty in H. injection H as <-. simpl.
  subst s13 s12 s11 s10 s9 s8 s7 s6 s5 s4 s3 s2 s1.
  exists c, l, (o ++ w4 ++ m ++ d :: ds ++ fr)%list.
  split.
  { f_equal; [f_equal|f_equal; f_equal].
    - match goal with
      | |- consumed ?whole ?rest = ?pre =>
          replace whole with (pre ++ rest)%list
            by (repeat rewrite <- app_assoc; simpl; repeat rewrite <- app_assoc;
                reflexivity)
      end.
      apply consumed_app.
    - match goal with
      | |- consumed ?whole ?rest = ?pre =>
          change whole with (pre ++ rest)%list
      end.
      apply consumed_app. }
  split; [exact Hc|]. split; [exact Hl|]. split.
  - exists (o ++ w4 ++ m)%list, d, (ds ++ fr)%list. split; [|exact Hd].
    repeat rewrite <- app_assoc. reflexivity.
  - rewrite E1. repeat (rewrite length_app || simpl). lia.
Qed.

End ParserShape.
Section ParserCommands.
Import JS Utils Regex Samples Shapes.
Local Open Scope nat_scope.
Local Open Scope string_scope.


Lemma exec_inv (r : re) : forall (s : list ascii) (f : found),
  exec r s = Some f ->
  exists s', match_here r s' = Some f /\ List.length s' <= List.length s.
Proof.
  induction s as [|c s IH]; intros f H; simpl in H.
  - destruct (match_here r []) as [g|] eqn:E; [|discriminate].
    injection H as <-. exists []. auto.
  - destruct (match_here r (c :: s)) as [g|] eqn:E.
    + injection H as <-. exists (c :: s). auto.
    + apply IH in H. destruct H as (s' & H & Hlen). exists s'. simpl. auto.
Qed.

Lemma exec_all_In (fuel : nat) (r : re) : forall (s : list ascii) (f : found),
  In f (exec_all fuel r s) -> exists s', match_here r s' = Some f.
Proof.
  induction fuel as [|fuel IH]; intros s f H; simpl in H; [contradiction|].
  destruct (exec r s) as [g|] eqn:E; [|contradiction].
  destruct (Nat.ltb (List.length (after g)) (List.length s)).
  - destruct H as [<-|H]; [|now apply IH in H].
    apply exec_inv in E. destruct E as (s' & E & _). eauto.
  - destruct H as [<-|[]]. apply exec_inv in E. destruct E as (s' & E & _). eauto.
Qed.

Lemma parse_matches_In (p : StatParser.t) (ms : list found) (cmd : StatParser.ParsedCommand) :
  In cmd (StatParser.parse_matches p ms) ->
  exists f, In f ms
    /\ cmd = StatParser._parseCommand p (str (matched f)) (StatParser.group_text f 1)
               (StatParser.group_text f 2).
Proof.
  induction ms as [|f ms IH]; simpl; [contradiction|].
  intros [<-|H]; [eauto|]. destruct (IH H) as (g & Hg & E). eauto.
Qed.

Lemma id_no_space_chars (c : ascii) (l : list ascii) :
  StatParser.is_id_start c = true -> forallb StatParser.is_id_rest l = true ->
  forallb no_space (c :: l) = true.
Proof.
  intros Hc Hl. simpl. apply andb_true_intro. split.
  - unfold no_space. now rewrite (id_rest_no_space c (id_start_is_rest c Hc)).
  - revert Hl. apply forallb_impl. intros x Hx. unfold no_space.
    now rewrite (id_rest_no_space x Hx).
Qed.

Lemma id_not_blank (c : ascii) (l : list ascii) :
  StatParser.is_id_start c = true -> forallb StatParser.is_id_rest l = true ->
  isNonEmptyString (VStr (str (c :: l))) = true.
Proof.
  intros Hc Hl. unfold isNonEmptyString.
  rewrite (trim_no_space (c :: l)) by now apply id_no_space_chars.
  now rewrite length_str.
Qed.

(** An identifier of the grammar passes [isValidStatId]. *)
Lemma valid_id (c : ascii) (l : list ascii) :
  StatParser.is_id_start c = true -> forallb StatParser.is_id_rest l = true ->
  StatParser.isValidStatId (VStr (str (c :: l))) = true.
Proof.
  intros Hc Hl. unfold StatParser.isValidStatId.
  rewrite (id_not_blank c l Hc Hl), chars_str, length_str, run_Cat, run_Class, Hc.
  rewrite <- (app_nil_r l) at 2.
  rewrite (run_Star_Class _ StatParser.is_id_rest l [] [] _ tt); simpl; auto.
  rewrite app_nil_r. lia.
Qed.

Lemma lower_id (c : ascii) (l : list ascii) :
  StatParser.is_id_start c = true -> forallb StatParser.is_id_rest l = true ->
  StatParser.is_id_start (lower_char c) = true
  /\ forallb StatParser.is_id_rest (map lower_char l) = true.
Proof.
  intros Hc Hl. split; [now apply lower_id_start|].
  rewrite forallb_forall in *. intros x Hx. apply in_map_iff in Hx.
  destruct Hx as (y & <- & Hy). apply lower_id_rest. auto.
Qed.

Lemma value_not_blank (v : list ascii) :
  holds_digit v -> String.eqb (StatParser.remove_spaces (str v)) "" = false.
Proof.
  intros (a & d & b & -> & Hd). unfold StatParser.remove_spaces.
  rewrite chars_str, filter_app, str_empty. simpl.
  pose proof (is_space_not_no_space d Hd) as Hs. unfold no_space in Hs. rewrite Hs.
  now destruct (filter _ a).
Qed.

(** What [_parseCommand] makes of the two groups of a match. *)
Lemma parseCommand_shape (p : StatParser.t) (raw : string) (c : ascii) (l v : list ascii) :
  StatParser.is_id_start c = true -> forallb StatParser.is_id_rest l = true ->
  holds_digit v ->
  let cmd := StatParser._parseCommand p raw (str (c :: l)) (str v) in
  StatParser.isValidStatId (VStr (StatParser.statId cmd)) = true
  /\ StatParser.raw cmd = raw
  /\ (StatParser.isValid cmd = true ->
      isFinite (StatParser.value cmd) = true
      /\ (StatParser.type cmd = MODIFY \/ StatParser.type cmd = SET)
      /\ StatParser.error cmd = "")
  /\ (StatParser.isValid cmd = false ->
      StatParser.type cmd = INVALID
      /\ StatParser.error cmd = "Invalid number: " ++ str v).
Proof.
  intros Hc Hl Hv cmd. subst cmd. unfold StatParser._parseCommand.
  rewrite (id_not_blank c l Hc Hl), (value_not_blank v Hv). cbn [negb].
  rewrite (trim_no_space (c :: l)) by now apply id_no_space_chars.
  assert (Hid : StatParser.isValidStatId
                  (VStr (if StatParser.caseSensitive p then str (c :: l)
                         else toLowerCase (str (c :: l)))) = true).
  { destruct (StatParser.caseSensitive p); [now apply valid_id|].
    unfold toLowerCase. rewrite chars_str. simpl.
    destruct (lower_id c l Hc Hl). now apply valid_id. }
  destruct (startsWith (StatParser.remove_spaces (str v)) "=");
    match goal with
    | |- context [negb (isFinite ?n)] => destruct (isFinite n) eqn:Hfin
    end; simpl; repeat split; auto; try discriminate.
Qed.

(** X13: every command [parse] returns, for any configuration of the
    parser and any text, carries a stat id that [isValidStatId] accepts
    and the text of its match; when it is valid its value is finite and
    its type is MODIFY or SET, and when it is not, its type is INVALID and
    the error is the one for a number that cannot be read: an empty id or
    an empty value never comes out of a match. *)
Theorem parse_commands_well_formed
    (p : StatParser.t) (text : string) (cmd : StatParser.ParsedCommand) :
  In cmd (StatParser.parse p text) ->
  StatParser.isValidStatId (VStr (StatParser.statId cmd)) = true
  /\ (StatParser.isValid cmd = true ->
      isFinite (StatParser.value cmd) = true
      /\ (StatParser.type cmd = MODIFY \/ StatParser.type cmd = SET)
      /\ StatParser.error cmd = "")
  /\ (StatParser.isValid cmd = false ->
      StatParser.type cmd = INVALID
      /\ exists v, StatParser.error cmd = "Invalid number: " ++ v).
Proof.
  unfold StatParser.parse. destruct (negb (isNonEmptyString (VStr text))); [contradiction|].
  intros H. apply parse_matches_In in H. destruct H as (f & Hf & ->).
  apply exec_all_In in Hf. destruct Hf as (s' & Hf).
  apply match_here_shape in Hf. destruct Hf as (c & l & v & Hg & Hc & Hl & Hv & _).
  unfold StatParser.group_text. rewrite Hg. simpl.
  destruct (parseCommand_shape p (str (matched f)) c l v Hc Hl Hv) as (A & _ & B & C).
  split; [exact A|]. split; [exact B|].
  intros Hno. destruct (C Hno) as [C1 C2]. split; [exact C1|].
  exists (str v). exact C2.
Qed.

Lemma parse_commands_well_formed_witness :
  StatParser.isValidStatId (VStr "hp") = true.
Proof.
  exact (proj1 (parse_commands_well_formed defaultParser "{{HP: - 10}}"
                  {| StatParser.raw := "{{HP: - 10}}"; StatParser.statId := "hp";
                     StatParser.value := (-10)%float; StatParser.type := MODIFY;
                     StatParser.isValid := true; StatParser.error := "" |}
                  (or_introl eq_refl))).
Defined.

Lemma match_here_needs_open (p : StatParser.t) (c0 : ascii) (rest s : list ascii) :
  chars (StatParser.openTag p) = c0 :: rest ->
  stops (Ascii.eqb c0) s ->
  match_here (StatParser.pattern p) s = None.
Proof.
  intros Hopen Hs. unfold match_here, StatParser.pattern. cbn [Cats].
  rewrite run_Cat, Hopen. cbn [Literal]. rewrite run_Cat. unfold Char.
  destruct s as [|c s]; [apply run_Class_nil|].
  simpl in Hs. now rewrite run_Class, Hs.
Qed.

Lemma exec_needs_open (p : StatParser.t) (c0 : ascii) (rest : list ascii) :
  chars (StatParser.openTag p) = c0 :: rest ->
  forall s, forallb (fun c => negb (Ascii.eqb c0 c)) s = true ->
            exec (StatParser.pattern p) s = None.
Proof.
  intros Hopen. induction s as [|c s IH]; intros Hs; simpl.
  - now rewrite (match_here_needs_open p c0 rest []).
  - simpl in Hs. apply andb_prop in Hs. destruct Hs as [Hc Hs].
    rewrite (match_here_needs_open p c0 rest (c :: s)); auto.
    simpl. now destruct (Ascii.eqb c0 c).
Qed.

Lemma blank_trim (text : string) :
  isNonEmptyString (VStr text) = false -> trim text = "".
Proof.
  unfold isNonEmptyString. intros H. apply Nat.ltb_ge in H.
  destruct (trim text); [reflexivity|]. simpl in H. lia.
Qed.

(** What the accessors return when the pattern matches nowhere. *)
Lemma no_match_no_commands (p : StatParser.t) (text : string) :
  exec (StatParser.pattern p) (chars text) = None ->
  StatParser.parse p text = []
  /\ StatParser.parseValid p text = []
  /\ StatParser.getStatChanges p text = JsMap.empty
  /\ StatParser.hasCommands p text = false
  /\ StatParser.stripCommands p text = trim text.
Proof.
  intros H.
  assert (Hp : StatParser.parse p text = []).
  { unfold StatParser.parse, matches. cbn [exec_all]. rewrite H.
    now destruct (negb (isNonEmptyString (VStr text))). }
  unfold StatParser.getStatChanges, StatParser.parseValid. rewrite Hp.
  unfold StatParser.hasCommands, StatParser.stripCommands. cbn [remove_all].
  rewrite H. repeat split; try reflexivity.
  - now destruct (negb (isNonEmptyString (VStr text))).
  - destruct (isNonEmptyString (VStr text)) eqn:E; cbn [negb].
    + now rewrite str_chars.
    + symmetry. now apply blank_trim.
Qed.

(** X14: a text in which the first character of the open tag does not
    occur holds no command: [parse], [parseValid] and [getStatChanges]
    return nothing, [hasCommands] is false and [stripCommands] returns the
    text as it is, trimmed. *)
Theorem no_open_tag_no_commands
    (p : StatParser.t) (text : string) (c0 : ascii) (rest : list ascii) :
  chars (StatParser.openTag p) = c0 :: rest ->
  forallb (fun c => negb (Ascii.eqb c0 c)) (chars text) = true ->
  StatParser.parse p text = []
  /\ StatParser.parseValid p text = []
  /\ StatParser.getStatChanges p text = JsMap.empty
  /\ StatParser.hasCommands p text = false
  /\ StatParser.stripCommands p text = trim text.
Proof.
  intros Hopen Htext. apply no_match_no_commands.
  now apply (exec_needs_open p c0 rest Hopen).
Qed.

Lemma no_open_tag_no_commands_witness :
  StatParser.stripCommands defaultParser "  The hero rests (for now).  "
  = "The hero rests (for now).".
Proof.
  exact (proj2 (proj2 (proj2 (proj2
    (no_open_tag_no_commands defaultParser "  The hero rests (for now).  "
       "{"%char ["{"%char] eq_refl eq_refl))))).
Defined.

(** X15: [hasCommands] says whether [parse] returns anything, for every
    parser and text; and where it says no, [stripCommands] does nothing
    but trim. *)
Theorem hasCommands_agrees_with_parse (p : StatParser.t) (text : string) :
  StatParser.hasCommands p text
  = match StatParser.parse p text with
    | [] => false
    | _ :: _ => true
    end
  /\ (StatParser.hasCommands p text = false ->
      StatParser.stripCommands p text = trim text).
Proof.
  destruct (exec (StatParser.pattern p) (chars text)) as [f|] eqn:E.
  - unfold StatParser.hasCommands, StatParser.parse, matches.
    destruct (isNonEmptyString (VStr text)) eqn:Hb; cbn [negb exec_all].
    + rewrite E. split; [|discriminate].
      now destruct (Nat.ltb (List.length (after f)) (List.length (chars text))).
    + split; [reflexivity|]. intros _. unfold StatParser.stripCommands.
      rewrite Hb. cbn [negb]. symmetry. now apply blank_trim.
  - destruct (no_match_no_commands p text E) as (A & _ & _ & B & C).
    rewrite A, B. auto.
Qed.

End ParserCommands.

(* ===================================================================== *)
(** * The bundled extension: stats, their manager and the messages *)
(* ===================================================================== *)

Section BundledFacts.
Import JS Utils Samples Shapes NumFacts.
Local Open Scope string_scope.

Lemma seq_refl (x : num) : isNaN x = false -> seq x x = true.
Proof.
  intros H. apply not_NaN in H. unfold seq. rewrite FloatAxioms.eqb_spec. unfold SFeqb.
  destruct (Prim2SF x) as [s|s| |s m e]; try congruence; try (now destruct s).
  now rewrite SFcompare_refl.
Qed.

Lemma seq_sym (x y : num) : seq x y = true -> seq y x = true.
Proof.
  unfold seq. rewrite !FloatAxioms.eqb_spec. unfold SFeqb.
  destruct (SFcompare (Prim2SF x) (Prim2SF y)) as [c|] eqn:E; [|discriminate].
  rewrite (SFcompare_antisym _ _ _ E). now destruct c.
Qed.

(** A Number written out and read back by [toNumber] of the bundled
    extension is the same Number, up to the sign of zero. *)
Lemma read_back (x d : num) :
  isNaN x = false ->
  isNaN (Standalone.toNumber (VNum x) d) = false
  /\ seq (Standalone.toNumber (VNum x) d) x = true.
Proof.
  intros H. unfold Standalone.toNumber, parseFloat. rewrite H.
  destruct (PrimFloat.eqb x PrimFloat.zero) eqn:E.
  - change (isNaN PrimFloat.zero) with false. cbv iota.
    split; [reflexivity|]. now apply seq_sym.
  - rewrite H. split; [exact H|]. now apply seq_refl.
Qed.

(** The fields [modify] and [set] leave alone. *)
Lemma mutate_fields (s : Standalone.Stat.t) (op : mutation) :
  let s' := mutate s op in
  Standalone.Stat.id s' = Standalone.Stat.id s
  /\ Standalone.Stat.name s' = Standalone.Stat.name s
  /\ Standalone.Stat.baseValue s' = Standalone.Stat.baseValue s
  /\ Standalone.Stat.minValue s' = Standalone.Stat.minValue s
  /\ Standalone.Stat.maxValue s' = Standalone.Stat.maxValue s
  /\ Standalone.Stat.color s' = Standalone.Stat.color s
  /\ Standalone.Stat.displayMode s' = Standalone.Stat.displayMode s
  /\ Standalone.Stat.showInUI s' = Standalone.Stat.showInUI s
  /\ Standalone.Stat.category s' = Standalone.Stat.category s.
Proof. destruct op; simpl; repeat split; reflexivity. Qed.

Lemma clamp_Number (lo hi v : num) :
  isNaN lo = false -> isNaN hi = false -> isNaN v = false ->
  isNaN (Math_max lo (Math_min hi v)) = false.
Proof.
  intros Hlo Hhi Hv.
  destruct (Math_min_spec hi v Hhi Hv) as (Hmin & _).
  assert (Hm : isNaN (Math_min hi v) = false) by (destruct Hmin as [->| ->]; assumption).
  destruct (Math_max_spec lo _ Hlo Hm) as (Hmax & _).
  destruct Hmax as [->| ->]; assumption.
Qed.


Lemma mutate_Number (s : Standalone.Stat.t) (op : mutation) :
  isNaN (Standalone.Stat.minValue s) = false ->
  isNaN (Standalone.Stat.maxValue s) = false ->
  isNaN (Standalone.Stat.currentValue s) = false ->
  finite_argument op = true ->
  isNaN (Standalone.Stat.currentValue (mutate s op)) = false.
Proof.
  intros Hmin Hmax Hcur Hop. destruct op as [delta|value]; simpl in *.
  - apply clamp_Number; auto. now apply add_not_NaN.
  - apply clamp_Number; auto. now apply isFinite_not_NaN.
Qed.

Lemma mutations_fields (ops : list mutation) : forall s : Standalone.Stat.t,
  isNaN (Standalone.Stat.minValue s) = false ->
  isNaN (Standalone.Stat.maxValue s) = false ->
  isNaN (Standalone.Stat.currentValue s) = false ->
  forallb finite_argument ops = true ->
  let s' := fold_left mutate ops s in
  isNaN (Standalone.Stat.currentValue s') = false
  /\ Standalone.Stat.id s' = Standalone.Stat.id s
  /\ Standalone.Stat.name s' = Standalone.Stat.name s
  /\ Standalone.Stat.baseValue s' = Standalone.Stat.baseValue s
  /\ Standalone.Stat.minValue s' = Standalone.Stat.minValue s
  /\ Standalone.Stat.maxValue s' = Standalone.Stat.maxValue s
  /\ Standalone.Stat.color s' = Standalone.Stat.color s
  /\ Standalone.Stat.displayMode s' = Standalone.Stat.displayMode s
  /\ Standalone.Stat.showInUI s' = Standalone.Stat.showInUI s
  /\ Standalone.Stat.category s' = Standalone.Stat.category s.
Proof.
  induction ops as [|op ops IH]; intros s Hmin Hmax Hcur Hops; simpl.
  - repeat split; auto.
  - simpl in Hops. apply andb_prop in Hops. destruct Hops as [Hop Hops].
    destruct (mutate_fields s op) as (F1 & F2 & F3 & F4 & F5 & F6 & F7 & F8 & F9).
    pose proof (mutate_Number s op Hmin Hmax Hcur Hop) as Hc.
    destruct (IH (mutate s op)) as (G0 & G1 & G2 & G3 & G4 & G5 & G6 & G7 & G8 & G9);
      try congruence.
    repeat split; congruence.
Qed.

Lemma new_Stat_fields (env : Env) (config : Standalone.Stat.Config) (raw : string) :
  Standalone.Stat.cfg_id config = VStr raw ->
  Standalone.isNonEmptyString (VStr raw) = true ->
  let s := Standalone.Stat.new env config in
  Standalone.Stat.id s = Standalone.sanitizeId raw
  /\ isNaN (Standalone.Stat.baseValue s) = false
  /\ truthy (Standalone.Stat.displayMode s) = true.
Proof.
  intros Hid Hraw. simpl. rewrite Hid, Hraw. repeat split.
  - apply parseFloat_toNumber. reflexivity.
  - destruct (truthy (Standalone.Stat.cfg_displayMode config)) eqn:E; [exact E|reflexivity].
Qed.

(** X22: a stat built from an object with an id that is not blank, after
    any sequence of [modify] and [set] calls with finite arguments, comes
    back from [fromJSON(toJSON())] with the same id, name, colour, display
    mode, visibility and category, with base, current, minimum and maximum
    values equal as Numbers (a zero may have lost its sign), and with
    [lastChange] at 0. *)
Theorem bundled_Stat_round_trip
    (env env' : Env) (config : Standalone.Stat.Config) (raw : string)
    (ops : list mutation) :
  Standalone.Stat.cfg_id config = VStr raw ->
  Standalone.isNonEmptyString (VStr raw) = true ->
  forallb finite_argument ops = true ->
  let s := fold_left mutate ops (Standalone.Stat.new env config) in
  let s' := Standalone.Stat.fromJSON env' (Standalone.Stat.toJSON s) in
  Standalone.Stat.id s' = Standalone.Stat.id s
  /\ Standalone.Stat.name s' = Standalone.Stat.name s
  /\ seq (Standalone.Stat.baseValue s') (Standalone.Stat.baseValue s) = true
  /\ seq (Standalone.Stat.currentValue s') (Standalone.Stat.currentValue s) = true
  /\ seq (Standalone.Stat.minValue s') (Standalone.Stat.minValue s) = true
  /\ seq (Standalone.Stat.maxValue s') (Standalone.Stat.maxValue s) = true
  /\ Standalone.Stat.color s' = Standalone.Stat.color s
  /\ Standalone.Stat.displayMode s' = Standalone.Stat.displayMode s
  /\ Standalone.Stat.showInUI s' = Standalone.Stat.showInUI s
  /\ Standalone.Stat.category s' = Standalone.Stat.category s
  /\ Standalone.Stat.lastChange s' = 0%float.
Proof.
  intros Hid Hraw Hops s s'.
  destruct (new_Stat_numbers env config) as (N1 & N2 & N3).
  destruct (new_Stat_fields env config raw Hid Hraw) as (I0 & B0 & D0).
  destruct (mutations_fields ops _ N2 N3 N1 Hops)
    as (Hc & F1 & F2 & F3 & F4 & F5 & F6 & F7 & F8 & F9).
  fold s in Hc, F1, F2, F3, F4, F5, F6, F7, F8, F9.
  assert (Hb : isNaN (Standalone.Stat.baseValue s) = false) by congruence.
  assert (Hmin : isNaN (Standalone.Stat.minValue s) = false) by congruence.
  assert (Hmax : isNaN (Standalone.Stat.maxValue s) = false) by congruence.
  assert (Hd : truthy (Standalone.Stat.displayMode s) = true) by congruence.
  assert (Hi : Standalone.Stat.id s = Standalone.sanitizeId raw) by congruence.
  clearbody s. subst s'. unfold Standalone.Stat.fromJSON, Standalone.Stat.toJSON.
  unfold Standalone.Stat.new. cbn [Standalone.Stat.cfg_id Standalone.Stat.cfg_name
    Standalone.Stat.cfg_baseValue Standalone.Stat.cfg_currentValue
    Standalone.Stat.cfg_minValue Standalone.Stat.cfg_maxValue Standalone.Stat.cfg_color
    Standalone.Stat.cfg_displayMode Standalone.Stat.cfg_showInUI
    Standalone.Stat.cfg_category Standalone.Stat.id Standalone.Stat.name
    Standalone.Stat.baseValue Standalone.Stat.currentValue Standalone.Stat.minValue
    Standalone.Stat.maxValue Standalone.Stat.color Standalone.Stat.displayMode
    Standalone.Stat.showInUI Standalone.Stat.category Standalone.Stat.lastChange
    Standalone.toString].
  rewrite Hd, Hi, (bundled_sanitized_not_blank raw Hraw).
  destruct (bundled_sanitized raw) as (_ & _ & _ & Hst). rewrite Hst.
  repeat split; try (apply read_back; assumption).
  now destruct (Standalone.Stat.showInUI s).
Qed.

Lemma bundled_Stat_round_trip_witness :
  let s := fold_left mutate [Modify (-20)%float; Assign 55.5%float]
             (Standalone.Stat.new env0 (statConfig "Max HP" "HP" 100%float 0%float 100%float)) in
  Standalone.Stat.id (Standalone.Stat.fromJSON env0 (Standalone.Stat.toJSON s))
  = Standalone.Stat.id s.
Proof.
  exact (proj1 (bundled_Stat_round_trip env0 env0 (statConfig "Max HP" "HP" 100%float 0%float 100%float)
                  "Max HP" [Modify (-20)%float; Assign 55.5%float]
                  eq_refl eq_refl eq_refl)).
Defined.

End BundledFacts.

Section BundledManagerFacts.
Import JS Utils Samples Shapes NumFacts.
Local Open Scope string_scope.

(** X23: the manager of the bundled extension keys a stat by its
    sanitised id and looks ids up sanitised: a stat added from an object
    with an id that is not blank is returned by [get] for every id with
    the same sanitised form, it replaces a stat that was stored under that
    form, and stats under other forms are not touched. *)
Theorem bundled_manager_add_get
    (env : Env) (m : Standalone.StatManager.t) (config : Standalone.Stat.Config)
    (raw raw' : string) :
  Standalone.Stat.cfg_id config = VStr raw ->
  Standalone.isNonEmptyString (VStr raw) = true ->
  Standalone.sanitizeId raw' = Standalone.sanitizeId raw ->
  let m' := fst (Standalone.StatManager.add env m (inr config)) in
  let s := snd (Standalone.StatManager.add env m (inr config)) in
  s = Standalone.Stat.new env config
  /\ Standalone.StatManager.get m' raw' = Some s
  /\ Standalone.StatManager.has m' raw' = true
  /\ Standalone.StatManager.get m' (Standalone.Stat.id s) = Some s
  /\ (forall other, Standalone.sanitizeId other <> Standalone.sanitizeId raw ->
        Standalone.StatManager.get m' other = Standalone.StatManager.get m other)
  /\ JsMap.size (Standalone.StatManager.stats m')
     = (if Standalone.StatManager.has m raw
        then JsMap.size (Standalone.StatManager.stats m)
        else S (JsMap.size (Standalone.StatManager.stats m))).
Proof.
  intros Hid Hraw Hsame m' s. subst m' s.
  destruct (new_Stat_fields env config raw Hid Hraw) as (Hi & _ & _).
  unfold Standalone.StatManager.add, Standalone.StatManager.get,
    Standalone.StatManager.has.
  cbn [fst snd Standalone.StatManager.stats]. set (s := Standalone.Stat.new env config) in *.
  clearbody s. rewrite Hi, Hsame.
  destruct (bundled_sanitized raw) as (_ & _ & _ & Hst). rewrite Hst.
  unfold JsMap.has at 1. rewrite get_set_same, size_set.
  repeat split; try reflexivity.
  intros other Hne. apply get_set_other. congruence.
Qed.

Lemma bundled_manager_add_get_witness :
  Standalone.StatManager.has
    (fst (Standalone.StatManager.add env0 Standalone.StatManager.new
            (inr (statConfig "Max HP" "HP" 100%float 0%float 100%float))))
    "max hp" = true.
Proof.
  exact (proj1 (proj2 (proj2
    (bundled_manager_add_get env0 Standalone.StatManager.new
       (statConfig "Max HP" "HP" 100%float 0%float 100%float) "Max HP" "max hp"
       eq_refl eq_refl eq_refl)))).
Defined.

(** X24: [remove(id)] of the bundled manager deletes the stat stored
    under the sanitised id and nothing else: afterwards [has(id)] is
    false, lookups under other sanitised ids are as before, and a manager
    that did not have the id is unchanged. *)
Theorem bundled_manager_remove
    (m : Standalone.StatManager.t) (statId : string) :
  JsMap.wf (Standalone.StatManager.stats m) ->
  let m' := fst (Standalone.StatManager.remove m statId) in
  let removed := snd (Standalone.StatManager.remove m statId) in
  removed = Standalone.StatManager.has m statId
  /\ Standalone.StatManager.has m' statId = false
  /\ Standalone.StatManager.get m' statId = None
  /\ (forall other, Standalone.sanitizeId other <> Standalone.sanitizeId statId ->
        Standalone.StatManager.get m' other = Standalone.StatManager.get m other)
  /\ (removed = false -> m' = m)
  /\ JsMap.wf (Standalone.StatManager.stats m').
Proof.
  intros Hwf m' removed. subst m' removed.
  unfold Standalone.StatManager.remove, Standalone.StatManager.has,
    Standalone.StatManager.get.
  cbn [fst snd Standalone.StatManager.stats].
  set (k := Standalone.sanitizeId statId).
  repeat split.
  - unfold JsMap.has. now rewrite get_delete_same.
  - now apply get_delete_same.
  - intros other Hne. now apply get_delete_other.
  - intros Hno. apply has_false in Hno. rewrite (delete_absent _ _ Hno).
    now destruct m.
  - now apply wf_delete.
Qed.

Lemma bundled_manager_remove_witness :
  Standalone.StatManager.has (fst (Standalone.StatManager.remove (hpManager env0) "HP"))
    "hp" = false.
Proof.
  apply (bundled_manager_remove (hpManager env0) "HP").
  unfold JsMap.wf. simpl. repeat constructor. intros [].
Defined.

Lemma settled_spec (s : Standalone.Stat.t) :
  settled s = true <->
  isFinite (Standalone.Stat.minValue s) = true
  /\ isFinite (Standalone.Stat.maxValue s) = true
  /\ le (Standalone.Stat.minValue s) (Standalone.Stat.maxValue s) = true
  /\ le (Standalone.Stat.minValue s) (Standalone.Stat.currentValue s) = true
  /\ le (Standalone.Stat.currentValue s) (Standalone.Stat.maxValue s) = true.
Proof.
  unfold settled, within_bounds. rewrite !andb_true_iff. tauto.
Qed.

(** A stat at rest is at rest after [modify] or [set] with any argument
    but NaN, the infinities included. *)
Lemma settled_mutation (s : Standalone.Stat.t) (v : num) :
  settled s = true -> isNaN v = false ->
  settled (fst (Standalone.Stat.modify s v)) = true
  /\ settled (fst (Standalone.Stat.set s v)) = true.
Proof.
  intros Hs Hv. apply settled_spec in Hs. destruct Hs as (F1 & F2 & Hle & H1 & H2).
  pose proof (le_finite_between _ _ _ H1 H2 F1 F2) as Fc.
  pose proof (add_not_NaN_l _ v Fc Hv) as Hsum.
  destruct (clamp_within _ _ _ Hle Hsum) as (_ & A1 & A2).
  destruct (clamp_within _ _ _ Hle Hv) as (_ & B1 & B2).
  split; apply settled_spec; simpl; auto.
Qed.

Lemma Forall_set {V : Type} (P : string * V -> Prop) (m : JsMap.t V) (k : string) (v : V) :
  Forall P m -> (forall k', P (k', v)) -> Forall P (JsMap.set m k v).
Proof.
  intros Hm Hv. induction m as [|[k0 v0] m IH]; simpl.
  - constructor; auto.
  - inversion Hm; subst. destruct (String.eqb k0 k); constructor; auto.
Qed.

Lemma bundled_values_Numbers (p : Standalone.StatParser.t) (ms : list Regex.found) :
  Forall (fun c => isNaN (Standalone.StatParser.value c) = false)
         (Standalone.StatParser.parse_matches p ms).
Proof.
  induction ms as [|f ms IH]; simpl; [constructor|].
  destruct (Standalone.StatParser.parse_match p f) as [cmd|] eqn:E; [|exact IH].
  constructor; [|exact IH]. unfold Standalone.StatParser.parse_match in E.
  destruct (indexOf _ _); [|discriminate].
  destruct (_ || _)%bool; [discriminate|].
  destruct (startsWith _ _);
    match type of E with
    | context [isNaN ?n] => destruct (isNaN n) eqn:Hn
    end; try discriminate; injection E as <-; exact Hn.
Qed.

Lemma apply_commands_settled (commands : list Standalone.StatParser.Command) :
  forall m : Standalone.StatManager.t,
    Forall (fun c => isNaN (Standalone.StatParser.value c) = false) commands ->
    Forall (fun e => settled (snd e) = true) (Standalone.StatManager.stats m) ->
    let out := Bundled.StateManager.apply_commands m commands in
    Forall (fun e => settled (snd e) = true) (Standalone.StatManager.stats (fst out))
    /\ JsMap.keys (Standalone.StatManager.stats (fst out))
       = JsMap.keys (Standalone.StatManager.stats m)
    /\ List.length (snd out) = List.length commands.
Proof.
  induction commands as [|cmd rest IH]; intros m Hv Hm; simpl; [auto|].
  inversion Hv as [|? ? Hcmd Hrest]; subst.
  destruct (Standalone.StatManager.get m (Standalone.StatParser.statId cmd))
    as [stat|] eqn:Hget.
  - assert (Hstat : settled stat = true).
    { unfold Standalone.StatManager.get in Hget. apply get_In in Hget.
      rewrite Forall_forall in Hm. exact (Hm _ Hget). }
    destruct (settled_mutation stat _ Hstat Hcmd) as [Hmod Hset].
    set (r := match Standalone.StatParser.type cmd with
              | SET => Standalone.Stat.set stat (Standalone.StatParser.value cmd)
              | _ => Standalone.Stat.modify stat (Standalone.StatParser.value cmd)
              end).
    assert (Hr : settled (fst r) = true)
      by (subst r; destruct (Standalone.StatParser.type cmd); assumption).
    destruct r as [stat' result]. simpl in Hr.
    set (m1 := Standalone.StatManager.update m (Standalone.StatParser.statId cmd) stat').
    assert (Hm1 : Forall (fun e => settled (snd e) = true) (Standalone.StatManager.stats m1))
      by (apply Forall_set; auto).
    assert (Hk1 : JsMap.keys (Standalone.StatManager.stats m1)
                  = JsMap.keys (Standalone.StatManager.stats m)).
    { subst m1. unfold Standalone.StatManager.update. simpl. rewrite keys_set.
      unfold Standalone.StatManager.get in Hget. unfold JsMap.has. now rewrite Hget. }
    destruct (IH m1 Hrest Hm1) as (A & B & C).
    destruct (Bundled.StateManager.apply_commands m1 rest) as [m' cs]. simpl in *.
    repeat split; auto; congruence.
  - destruct (IH m Hrest Hm) as (A & B & C).
    destruct (Bundled.StateManager.apply_commands m rest) as [m' cs]. simpl in *.
    repeat split; auto.
Qed.

Lemma bundled_active_set (sm : Bundled.StateManager.t)
      (st : Bundled.StateManager.SimulationState) :
  Bundled.StateManager.getActiveState (Bundled.StateManager.setActiveState sm st) = Some st.
Proof. destruct sm as [cur glob [en scope] prs]; destruct scope; reflexivity. Qed.

(** X25: [processMessage] of the bundled extension leaves every stat at
    rest (finite bounds in order, current value within them) at rest,
    whatever the message says, values that overflow to Infinity included;
    it adds and removes no stat, it reports success, and when the
    extension is enabled it reports one change for each command it
    read. *)
Theorem bundled_processMessage_keeps_bounds
    (sm : Bundled.StateManager.t) (st : Bundled.StateManager.SimulationState)
    (message : string) :
  Bundled.StateManager.getActiveState sm = Some st ->
  Forall (fun e => settled (snd e) = true)
         (Standalone.StatManager.stats (Bundled.StateManager.statManager st)) ->
  let out := Bundled.StateManager.processMessage sm message in
  Bundled.StateManager.success (snd out) = true
  /\ exists st',
       Bundled.StateManager.getActiveState (fst out) = Some st'
       /\ Forall (fun e => settled (snd e) = true)
                 (Standalone.StatManager.stats (Bundled.StateManager.statManager st'))
       /\ JsMap.keys (Standalone.StatManager.stats (Bundled.StateManager.statManager st'))
          = JsMap.keys (Standalone.StatManager.stats (Bundled.StateManager.statManager st))
       /\ (Bundled.StateManager.enabled (Bundled.StateManager.settings sm) = true ->
           Bundled.StateManager.commandCount (snd out)
           = Some (List.length (Bundled.StateManager.changes (snd out)))).
Proof.
  intros Hact Hst out. subst out. unfold Bundled.StateManager.processMessage.
  rewrite Hact.
  destruct (Bundled.StateManager.enabled (Bundled.StateManager.settings sm)) eqn:Hen;
    cbn [negb].
  - assert (Hv : Forall (fun c => isNaN (Standalone.StatParser.value c) = false)
                   (Standalone.StatParser.parseValid
                      (Bundled.StateManager.parser sm) message)).
    { unfold Standalone.StatParser.parseValid.
      destruct (String.eqb message ""); [constructor|apply bundled_values_Numbers]. }
    destruct (apply_commands_settled _ (Bundled.StateManager.statManager st) Hv Hst)
      as (A & B & C).
    destruct (Bundled.StateManager.apply_commands _ _) as [m' cs]. simpl in *.
    split; [reflexivity|].
    exists (Bundled.StateManager.with_statManager st m').
    rewrite bundled_active_set. simpl. repeat split; auto; intros _; now rewrite C.
  - simpl. split; [reflexivity|]. exists st. repeat split; auto; discriminate.
Qed.

End BundledManagerFacts.

(* ===================================================================== *)
(** * Values in range, single modifiers and samples *)
(* ===================================================================== *)

Section RangeFacts.
Import JS Utils Samples Shapes NumFacts.
Local Open Scope string_scope.

Lemma le_antisym (a b : num) : le a b = true -> le b a = true -> seq a b = true.
Proof.
  unfold le, seq. rewrite !leb_spec, FloatAxioms.eqb_spec. unfold SFleb, SFeqb.
  destruct (SFcompare (Prim2SF a) (Prim2SF b)) as [c|] eqn:E; [|discriminate].
  rewrite (SFcompare_antisym _ _ _ E). now destruct c.
Qed.

(** Clamping a value that lies between the bounds gives that value, as a
    Number. *)
Lemma clamp_in_range (lo hi v : num) :
  le lo v = true -> le v hi = true ->
  seq (Math_max lo (Math_min hi v)) v = true.
Proof.
  intros H1 H2. destruct (le_not_NaN _ _ H1) as [Hlo Hv].
  destruct (le_not_NaN _ _ H2) as [_ Hhi].
  destruct (Math_min_spec hi v Hhi Hv) as (Hmin & Hm1 & Hm2).
  assert (Hm : isNaN (Math_min hi v) = false) by (destruct Hmin as [->| ->]; assumption).
  assert (E1 : seq (Math_min hi v) v = true).
  { destruct Hmin as [E|E]; rewrite E in *; [|now apply seq_refl].
    now apply le_antisym. }
  destruct (Math_max_spec lo _ Hlo Hm) as (Hmax & Hx1 & Hx2).
  destruct Hmax as [E|E]; rewrite E in *; [|exact E1].
  apply le_antisym; [exact H1|].
  unfold le, seq in *. rewrite !leb_spec in *. rewrite FloatAxioms.eqb_spec in E1.
  unfold SFleb, SFeqb in *.
  destruct (SFcompare (Prim2SF (Math_min hi v)) (Prim2SF v)) as [[]|] eqn:Ec;
    try discriminate.
  destruct (Prim2SF (Math_min hi v)) as [s1|s1| |s1 m1 e1] eqn:P1;
    destruct (Prim2SF v) as [s2|s2| |s2 m2 e2] eqn:P2;
    destruct (Prim2SF lo) as [s3|s3| |s3 m3 e3] eqn:P3;
    simpl in *; try discriminate; try assumption;
    try (destruct s1, s2; try discriminate; assumption).
  destruct s1, s2; try discriminate;
    destruct (e1 ?= e2)%Z eqn:Ee; try discriminate;
    apply Z.compare_eq in Ee; subst e2;
    rewrite Pos.compare_cont_spec in Ec; simpl in Ec;
    destruct (Pos.compare_spec m1 m2); try discriminate; subst m2; assumption.
Qed.

(** X21: [set(value)] with a value between the bounds of the stat stores
    that value (as a Number: a zero may change its sign) and reports the
    old value, the new one and their difference, which is also what
    [lastChange] holds; [modify(delta)] does the same when the sum lies
    between the bounds, and [reset()] when the base value does. *)
Theorem bundled_Stat_exact_in_range (s : Standalone.Stat.t) (v : num) :
  le (Standalone.Stat.minValue s) v = true ->
  le v (Standalone.Stat.maxValue s) = true ->
  (let out := Standalone.Stat.set s v in
   seq (Standalone.Stat.currentValue (fst out)) v = true
   /\ oldValue (snd out) = Standalone.Stat.currentValue s
   /\ newValue (snd out) = Standalone.Stat.currentValue (fst out)
   /\ actualChange (snd out)
      = (Standalone.Stat.currentValue (fst out) - Standalone.Stat.currentValue s)%float
   /\ Standalone.Stat.lastChange (fst out) = actualChange (snd out))
  /\ (forall delta, (Standalone.Stat.currentValue s + delta)%float = v ->
        seq (Standalone.Stat.currentValue (fst (Standalone.Stat.modify s delta))) v = true)
  /\ (Standalone.Stat.baseValue s = v ->
      seq (Standalone.Stat.currentValue (fst (Standalone.Stat.reset s))) v = true).
Proof.
  intros H1 H2. pose proof (clamp_in_range _ _ _ H1 H2) as Hc.
  split; [|split].
  - simpl. repeat split; auto.
  - intros delta <-. exact Hc.
  - intros E. unfold Standalone.Stat.reset. rewrite E. exact Hc.
Qed.

Lemma bundled_Stat_exact_in_range_witness :
  seq (Standalone.Stat.currentValue
         (fst (Standalone.Stat.set
                 (Standalone.Stat.new env0 (statConfig "hp" "HP" 100%float 0%float 100%float))
                 42.5%float)))
      42.5%float = true.
Proof.
  exact (proj1 (proj1 (bundled_Stat_exact_in_range
                         (Standalone.Stat.new env0
                            (statConfig "hp" "HP" 100%float 0%float 100%float))
                         42.5%float eq_refl eq_refl))).
Defined.

(** X12: when exactly one modifier of a collection is active, [applyAll]
    returns what [apply] of that modifier returns, for every base
    value. *)
Theorem applyAll_single_is_apply
    (c : ModifierCollection.t) (m : StatModifier.t) (base : num) :
  ModifierCollection.getActive c = [m] ->
  ModifierCollection.applyAll c base = StatModifier.apply m base.
Proof.
  intros H. unfold ModifierCollection.applyAll, StatModifier.apply. rewrite H.
  cbv zeta. unfold ModifierCollection.has_type. simpl.
  destruct (StatModifier.type m) eqn:E; simpl.
  - reflexivity.
  - reflexivity.
  - unfold StatModifier.getEffectiveValue. now rewrite E.
Qed.

Lemma applyAll_single_is_apply_witness :
  ModifierCollection.applyAll
    (fst (ModifierCollection.add env0 (ModifierCollection.new env0 (VStr "hp"))
            (inr (modConfig "buff1" "multiply" 1.5%float)))) 100%float
  = StatModifier.apply
      (StatModifier.set_statId
         (StatModifier.new env0 (modConfig "buff1" "multiply" 1.5%float)) "hp")
      100%float.
Proof.
  exact (applyAll_single_is_apply
           (fst (ModifierCollection.add env0 (ModifierCollection.new env0 (VStr "hp"))
                   (inr (modConfig "buff1" "multiply" 1.5%float))))
           (StatModifier.set_statId
              (StatModifier.new env0 (modConfig "buff1" "multiply" 1.5%float)) "hp")
           100%float eq_refl).
Defined.

Lemma addStacks_caps_witness :
  le (StatModifier.currentStacks
        (fst (StatModifier.addStacks
                (StatModifier.new env0 (modConfig "buff1" "add" 10%float))
                (VNum 5%float))))
     1%float = true.
Proof.
  exact (proj1 (proj2 (proj2
    (addStacks_caps (StatModifier.new env0 (modConfig "buff1" "add" 10%float))
       (VNum 5%float) eq_refl eq_refl)))).
Defined.

Lemma removeStacks_floors_witness :
  le 0%float
     (StatModifier.currentStacks
        (fst (StatModifier.removeStacks
                (StatModifier.new env0 (modConfig "buff1" "add" 10%float))
                (VNum 5%float)))) = true.
Proof.
  exact (proj2 (proj2
    (removeStacks_floors (StatModifier.new env0 (modConfig "buff1" "add" 10%float))
       (VNum 5%float) eq_refl))).
Defined.

Lemma new_Stat_mutations_within_witness :
  within_bounds
    (fold_left mutate [Modify (-250)%float; Assign 1e300%float; Modify 0.5%float]
       (Standalone.Stat.new env0 (statConfig "hp" "HP" 100%float 0%float 100%float)))
  = true.
Proof.
  apply (new_Stat_mutations_within env0
           (statConfig "hp" "HP" 100%float 0%float 100%float)
           [Modify (-250)%float; Assign 1e300%float; Modify 0.5%float]).
  - reflexivity.
  - discriminate.
  - reflexivity.
Defined.

Lemma setBounds_within_witness :
  within_bounds
    (Standalone.Stat.setBounds
       (Standalone.Stat.new env0 (statConfig "hp" "HP" 100%float 0%float 100%float))
       (VNum 50%float) (VNum 10%float)) = true.
Proof.
  exact (proj2 (setBounds_within
                  (Standalone.Stat.new env0
                     (statConfig "hp" "HP" 100%float 0%float 100%float))
                  (VNum 50%float) (VNum 10%float) eq_refl)).
Defined.

Lemma bundled_processMessage_keeps_bounds_witness :
  Bundled.StateManager.success
    (snd (Bundled.StateManager.processMessage (bundledManagerWith (hpManager env0))
            "{{hp:-1e999}} and then {{HP: +30}}")) = true.
Proof.
  refine (proj1 (bundled_processMessage_keeps_bounds
                   (bundledManagerWith (hpManager env0)) _
                   "{{hp:-1e999}} and then {{HP: +30}}" eq_refl _)).
  simpl. repeat constructor.
Defined.

End RangeFacts.

(* ===================================================================== *)
(** * Presets *)
(* ===================================================================== *)

Section PresetFacts.
Import JS Utils Samples Shapes.
Local Open Scope string_scope.
Context {S : Type}.
Implicit Types (p : StatPreset.t S) (pm : PresetManager.t S).

(** A stored preset comes back from [fromJSON(toJSON())] as it was. *)
Lemma preset_round_trip (env : Env) (k : string) p :
  stored_preset (k, p) -> StatPreset.fromJSON env (Some (StatPreset.toJSON p)) = p.
Proof.
  intros (_ & Hid & Hc & Hu). simpl in *.
  unfold StatPreset.fromJSON, StatPreset.toJSON, StatPreset.new. simpl.
  rewrite Hid, Hc, Hu. now destruct p.
Qed.

Lemma load_rebuilds (envs : nat -> Env) (entries : JsMap.t (StatPreset.t S)) :
  forall (acc : JsMap.t (StatPreset.t S)) (i : nat),
    JsMap.wf (acc ++ entries)%list ->
    Forall stored_preset entries ->
    PresetManager.load envs i
      (map (fun e => Some (StatPreset.toJSON (snd e))) entries) acc
    = (acc ++ entries)%list.
Proof.
  induction entries as [|[k p] entries IH]; intros acc i Hwf Hst;
    cbn [map PresetManager.load snd].
  - now rewrite app_nil_r.
  - inversion Hst as [|? ? He Hrest]; subst.
    rewrite (preset_round_trip (envs i) k p He).
    destruct He as (Hk & _). simpl in Hk. subst k.
    assert (Hfresh : JsMap.get acc (StatPreset.id p) = None).
    { apply get_None. unfold JsMap.wf, JsMap.keys in Hwf. rewrite map_app in Hwf.
      simpl in Hwf. apply NoDup_remove_2 in Hwf. intros Hin. apply Hwf.
      apply in_or_app. now left. }
    rewrite (set_fresh acc _ p Hfresh), IH.
    + now rewrite <- app_assoc.
    + now rewrite <- app_assoc.
    + exact Hrest.
Qed.

Lemma Forall_set_at {V : Type} (P : string * V -> Prop) (m : JsMap.t V)
      (k : string) (v : V) :
  Forall P m -> P (k, v) -> Forall P (JsMap.set m k v).
Proof.
  intros Hm Hv. induction m as [|[k0 v0] m IH]; simpl.
  - constructor; auto.
  - inversion Hm; subst. destruct (String.eqb_spec k0 k) as [->|Hne]; constructor; auto.
Qed.

(** X16: a preset manager whose presets are stored under their ids, ids
    that are not blank, with both timestamps set, is rebuilt by
    [fromJSON(toJSON())] exactly as it was, the order of the presets
    included; and [add] of such a preset keeps a manager of that kind. *)
Theorem preset_manager_round_trip (envs : nat -> Env) pm (old : PresetManager.t S) :
  JsMap.wf (PresetManager.presets pm) ->
  Forall stored_preset (PresetManager.presets pm) ->
  PresetManager.fromJSON envs old (Some (map Some (PresetManager.toJSON pm))) = pm
  /\ (forall p, stored_preset (StatPreset.id p, p) ->
        JsMap.wf (PresetManager.presets (fst (PresetManager.add pm p)))
        /\ Forall stored_preset (PresetManager.presets (fst (PresetManager.add pm p)))
        /\ PresetManager.get (fst (PresetManager.add pm p)) (StatPreset.id p) = Some p).
Proof.
  intros Hwf Hst. split.
  - unfold PresetManager.fromJSON, PresetManager.toJSON, PresetManager.getAll,
      JsMap.values.
    rewrite !map_map. cbv beta. unfold JsMap.empty.
    rewrite (load_rebuilds envs _ [] 0 Hwf Hst). now destruct pm.
  - intros p Hp. unfold PresetManager.add, PresetManager.get. simpl.
    split; [now apply wf_set|]. split; [|apply get_set_same].
    now apply Forall_set_at.
Qed.

(** X17: [update(id, updates)] on an id the manager does not have
    returns false and changes nothing; on a preset it has, it returns true
    and stores, under the same id and in the same place, a preset with the
    same id and creation time, the time of the update, and the name,
    description and stats of the update where they are given (a blank name
    is not taken); no other preset is touched. *)
Theorem preset_manager_update (env : Env) pm (id : string)
    (updates : PresetManager.Updates S) :
  let pm' := fst (PresetManager.update env pm id updates) in
  let done := snd (PresetManager.update env pm id updates) in
  (PresetManager.get pm id = None -> done = false /\ pm' = pm)
  /\ (forall p, PresetManager.get pm id = Some p ->
        done = true
        /\ exists p',
             PresetManager.get pm' id = Some p'
             /\ StatPreset.id p' = StatPreset.id p
             /\ StatPreset.createdAt p' = StatPreset.createdAt p
             /\ StatPreset.updatedAt p' = VNum (ofZ (now env))
             /\ (isNonEmptyString (PresetManager.up_name updates) = false ->
                 StatPreset.name p' = StatPreset.name p)
             /\ (isNonEmptyString (PresetManager.up_name updates) = true ->
                 VStr (StatPreset.name p') = PresetManager.up_name updates)
             /\ (forall d, PresetManager.up_description updates = VStr d ->
                   StatPreset.description p' = d)
             /\ (forall l, PresetManager.up_stats updates = Some l ->
                   StatPreset.stats p' = l)
             /\ JsMap.keys (PresetManager.presets pm') = JsMap.keys (PresetManager.presets pm))
  /\ (forall other, other <> id ->
        PresetManager.get pm' other = PresetManager.get pm other).
Proof.
  intros pm' done. subst pm' done. unfold PresetManager.update, PresetManager.get.
  destruct (JsMap.get (PresetManager.presets pm) id) as [p|] eqn:Hget; simpl.
  - split; [discriminate|]. split.
    + intros p0 [= <-]. split; [reflexivity|]. eexists. split; [apply get_set_same|].
      simpl. repeat split; try reflexivity.
      * intros Hn. destruct (PresetManager.up_name updates); try reflexivity.
        now rewrite Hn.
      * intros Hn. destruct (PresetManager.up_name updates); try discriminate.
        now rewrite Hn.
      * intros d ->. reflexivity.
      * intros l ->. reflexivity.
      * rewrite keys_set. unfold JsMap.has. now rewrite Hget.
    + intros other Hne. apply get_set_other. congruence.
  - split; [auto|]. split; [discriminate|]. auto.
Qed.

End PresetFacts.

Section PresetSamples.
Import JS Utils Samples Shapes.
Local Open Scope string_scope.

Lemma preset_manager_round_trip_witness :
  let p := @StatPreset.new string env0
             {| StatPreset.cfg_id := VStr "warrior"; StatPreset.cfg_name := Some "Warrior";
                StatPreset.cfg_description := None; StatPreset.cfg_createdAt := VUndefined;
                StatPreset.cfg_updatedAt := VUndefined;
                StatPreset.cfg_stats := Some ["hp"; "stamina"] |} in
  let pm := fst (PresetManager.add PresetManager.new p) in
  PresetManager.fromJSON (fun _ => env0) PresetManager.new
    (Some (map Some (PresetManager.toJSON pm))) = pm.
Proof.
  intros p pm. apply (preset_manager_round_trip (fun _ => env0) pm PresetManager.new).
  - unfold JsMap.wf. simpl. repeat constructor. intros [].
  - simpl. repeat constructor.
Defined.

End PresetSamples.
